(** * RateGenius backend: a shallow embedding and its verified properties

    The backend (Node + Express) discovers competitor facilities, scrapes
    their websites for a price and a unit size, and suggests a price from the
    median of the competitors' prices.  This development embeds the backend's
    functions in Rocq and proves the properties its specification states.

    Conventions of the embedding:
    - a JavaScript number is an IEEE 754 binary64 value: Rocq's primitive
      [float], whose operations are the ones the JavaScript engine runs;
    - a JavaScript string is the [string] of its bytes in UTF-8, an unpaired
      surrogate being written as the three bytes of its code point;
      [code_units] reads the 16-bit code units the engine works on.  The source
      concatenates strings around ASCII text only, where the bytes concatenate
      as the strings do;
    - JSON data and the objects the handlers build are [JsValue]s;
    - the two process-wide [Map]s ([cache], [hostLock]), the clock read by
      [Date.now()] and the log of external requests form the state [St],
      threaded by the monad [M]; exceptions are the [Throw] outcome;
    - the providers (geocoding, nearby search, place details, the browser) are
      an oracle [World]; builtins with no bearing on the properties
      (number-to-string conversion, URL parsing) are the class [Host];
    - the clock moves at an [await] only: a provider request, the start and
      the close of the browser and a timer take the time the [World] gives
      them, and synchronous code takes none;
    - the monad [M] runs one handler from its start to its end; the calls of
      the throttle that are in flight together, which the handlers of
      concurrent requests make, are steps of the event loop [Loop].

    Part I holds the definitions, Parts II and III the lemmas and theorems. *)

From Stdlib Require Import ZArith NArith Floats Ascii String List Bool Lia.
From Stdlib Require Import Sorted Permutation.
From stdpp Require Import base option gmap strings list.
Import ListNotations.

Set Warnings "-inexact-float,-level-tolerance,-register-all".

(* ===================================================================== *)
(** * Part I: the model                                                   *)
(* ===================================================================== *)

(** ** JavaScript numbers *)

(** [Number.isNaN]. *)
Definition isNaN (x : float) : bool := PrimFloat.is_nan x.

(** The number with integer value [n]; [sz] is the sign of a zero result. *)
Definition float_of_Z (sz : bool) (n : Z) : float :=
  SF2Prim (binary_normalize prec emax n 0 sz).

(** [Math.round]: the nearest integer, ties towards +infinity; NaN, the
    infinities and integral values are returned as they are, and a result of
    zero keeps the sign of the argument. *)
Definition Math_round (x : float) : float :=
  match Prim2SF x with
  | S754_finite s m e =>
      if (0 <=? e)%Z then x
      else
        let sm := if s then Z.neg m else Z.pos m in
        float_of_Z s ((2 * sm + 2 ^ (- e)) / 2 ^ (1 - e))%Z
  | _ => x
  end.

(** [Math.min] of two arguments. *)
Definition Math_min (a b : float) : float :=
  if isNaN a || isNaN b then nan
  else if PrimFloat.ltb a b then a
  else if PrimFloat.ltb b a then b
  else if PrimFloat.get_sign a then a else b.

(** The number [(-1)^s * M * 10^E], correctly rounded. *)
Definition dec_to_float (s : bool) (M E : Z) : float :=
  match M with
  | Z.pos m =>
      if (0 <=? E)%Z
      then float_of_Z s (if s then - (M * 10 ^ E) else M * 10 ^ E)%Z
      else SF2Prim (SFdiv prec emax (S754_finite s m 0)
                          (S754_finite false (Z.to_pos (10 ^ (- E))) 0))
  | _ => SF2Prim (S754_zero s)
  end.

(** ** Characters and strings *)

(** The value of a byte. *)
Definition byte (c : ascii) : N := N_of_ascii c.

(** A continuation byte of UTF-8: [10xxxxxx]. *)
Definition is_cont (c : ascii) : bool := (128 <=? byte c)%N && (byte c <? 192)%N.

(** U+FFFD, which stands for a byte that is part of no character; the
    bytes of a JavaScript string hold none. *)
Definition replacement : N := 65533.

(** The code units of a code point: itself in the basic plane, a surrogate
    pair above it. *)
Definition units_of_code_point (cp : N) : list N :=
  if (cp <? 65536)%N then [cp]
  else [55296 + (cp - 65536) / 1024; 56320 + (cp - 65536) mod 1024]%N.

(** The code units of the string with the bytes [l]: a character of one to
    four bytes, of which the first tells the length, gives one code unit, or
    two when it lies above the basic plane. *)
Fixpoint decode (l : list ascii) : list N :=
  match l with
  | [] => []
  | b0 :: l1 =>
      let n0 := byte b0 in
      if (n0 <? 128)%N then n0 :: decode l1
      else
        let bad := replacement :: decode l1 in
        match l1 with
        | b1 :: l2 =>
            if negb (is_cont b1) then bad
            else if (n0 <? 224)%N then
              if (194 <=? n0)%N then ((n0 - 192) * 64 + (byte b1 - 128))%N :: decode l2
              else bad
            else
              match l2 with
              | b2 :: l3 =>
                  if negb (is_cont b2) then bad
                  else if (n0 <? 240)%N then
                    let cp := ((n0 - 224) * 4096 + (byte b1 - 128) * 64 + (byte b2 - 128))%N in
                    if (2048 <=? cp)%N then cp :: decode l3 else bad
                  else
                    match l3 with
                    | b3 :: l4 =>
                        let cp := ((n0 - 240) * 262144 + (byte b1 - 128) * 4096
                                   + (byte b2 - 128) * 64 + (byte b3 - 128))%N in
                        if is_cont b3 && (n0 <? 248)%N && (65536 <=? cp)%N && (cp <? 1114112)%N
                        then units_of_code_point cp ++ decode l4
                        else bad
                    | [] => bad
                    end
              | [] => bad
              end
        | [] => bad
        end
  end.

(** The code units of a string: what [s.length] counts, what [s[i]] reads
    and what a regular expression matches. *)
Definition code_units (s : string) : list N := decode (list_ascii_of_string s).

(** The bytes of a code point in UTF-8. *)
Definition utf8 (cp : N) : list ascii :=
  List.map ascii_of_N
    (if (cp <? 128)%N then [cp]
     else if (cp <? 2048)%N then [192 + cp / 64; 128 + cp mod 64]
     else if (cp <? 65536)%N then [224 + cp / 4096; 128 + (cp / 64) mod 64; 128 + cp mod 64]
     else [240 + cp / 262144; 128 + (cp / 4096) mod 64; 128 + (cp / 64) mod 64;
           128 + cp mod 64])%N.

Definition is_high_surrogate (u : N) : bool := (55296 <=? u)%N && (u <? 56320)%N.
Definition is_low_surrogate (u : N) : bool := (56320 <=? u)%N && (u <? 57344)%N.

(** The code point of a surrogate pair. *)
Definition pair_code_point (hi lo : N) : N := (65536 + (hi - 55296) * 1024 + (lo - 56320))%N.

(** The bytes of the string with the code units [l]. *)
Fixpoint encode (l : list N) : list ascii :=
  match l with
  | [] => []
  | u :: l1 =>
      match l1 with
      | v :: l2 =>
          if is_high_surrogate u && is_low_surrogate v
          then utf8 (pair_code_point u v) ++ encode l2
          else utf8 u ++ encode l1
      | [] => utf8 u
      end
  end.

Definition string_of_units (l : list N) : string := string_of_list_ascii (encode l).

Definition code (c : ascii) : nat := nat_of_ascii c.

Definition is_digit (c : ascii) : bool := (48 <=? code c)%nat && (code c <=? 57)%nat.

(** [\d] on a code unit. *)
Definition is_digit_unit (u : N) : bool := (48 <=? u)%N && (u <=? 57)%N.

(** White space and line terminators: what [\s] matches and what
    [StringToNumber] trims. *)
Definition is_space (u : N) : bool :=
  ((9 <=? u)%N && (u <=? 13)%N) || (u =? 32)%N || (u =? 160)%N || (u =? 5760)%N
  || ((8192 <=? u)%N && (u <=? 8202)%N) || (u =? 8232)%N || (u =? 8233)%N
  || (u =? 8239)%N || (u =? 8287)%N || (u =? 12288)%N || (u =? 65279)%N.

Definition digit_val (c : ascii) : Z := Z.of_nat (code c) - 48.

(** The value of a hexadecimal digit, if [c] is one. *)
Definition hex_val (c : ascii) : option Z :=
  let n := code c in
  if is_digit c then Some (digit_val c)
  else if (97 <=? n)%nat && (n <=? 102)%nat then Some (Z.of_nat n - 87)%Z
  else if (65 <=? n)%nat && (n <=? 70)%nat then Some (Z.of_nat n - 55)%Z
  else None.

Fixpoint span (p : ascii -> bool) (l : list ascii) : list ascii * list ascii :=
  match l with
  | c :: l' => if p c then let (a, b) := span p l' in (c :: a, b) else ([], l)
  | [] => ([], [])
  end.

Fixpoint drop_while {A : Type} (p : A -> bool) (l : list A) : list A :=
  match l with
  | c :: l' => if p c then drop_while p l' else l
  | [] => []
  end.

Definition trim (l : list N) : list N :=
  rev (drop_while is_space (rev (drop_while is_space l))).

(** The ASCII characters of a sequence of code units that holds no other. *)
Definition ascii_of_units (l : list N) : option (list ascii) :=
  if forallb (fun u => (u <? 128)%N) l then Some (List.map ascii_of_N l) else None.

Definition digits_value (ds : list ascii) : Z :=
  fold_left (fun acc c => acc * 10 + digit_val c)%Z ds 0%Z.

(** An integer literal in base [base] whose digits are all of [ds]. *)
Fixpoint radix_value (base : Z) (ds : list ascii) (acc : Z) : option Z :=
  match ds with
  | [] => Some acc
  | c :: ds' =>
      match hex_val c with
      | Some v => if (v <? base)%Z then radix_value base ds' (acc * base + v)%Z else None
      | None => None
      end
  end.

(** The exponent part of a decimal literal, which must end the input. *)
Definition parse_exponent (l : list ascii) : option Z :=
  match l with
  | [] => Some 0%Z
  | c :: r =>
      if (code c =? 101)%nat || (code c =? 69)%nat then
        let '(neg, r') :=
          match r with
          | s :: r'' =>
              if (code s =? 45)%nat then (true, r'')
              else if (code s =? 43)%nat then (false, r'') else (false, r)
          | [] => (false, r)
          end in
        let (ds, rest) := span is_digit r' in
        match ds, rest with
        | _ :: _, [] => Some (if neg then - digits_value ds else digits_value ds)%Z
        | _, _ => None
        end
      else None
  end.

(** An unsigned decimal literal: [digits], [digits.], [digits.digits] or
    [.digits], each with an optional exponent. *)
Definition parse_decimal (neg : bool) (l : list ascii) : float :=
  let (ip, r1) := span is_digit l in
  let '(fp, r2) :=
    match r1 with
    | c :: r => if (code c =? 46)%nat then span is_digit r else ([], r1)
    | [] => ([], r1)
    end in
  match ip ++ fp with
  | [] => nan
  | ds =>
      match parse_exponent r2 with
      | Some e => dec_to_float neg (digits_value ds) (e - Z.of_nat (length fp))
      | None => nan
      end
  end.

(** [StringToNumber], the conversion [Number(s)] applies to a string: the
    white space around the literal is dropped, and a literal holds ASCII
    characters only. *)
Definition StringToNumber (s : string) : float :=
  match ascii_of_units (trim (code_units s)) with
  | None => nan
  | Some [] => 0%float
  | Some (c :: r) =>
      let radix (base : Z) (ds : list ascii) : float :=
        match ds with
        | [] => nan
        | _ => match radix_value base ds 0 with
               | Some n => float_of_Z false n
               | None => nan
               end
        end in
      let prefixed :=
        match r with
        | p :: ds =>
            if (code c =? 48)%nat then
              if (code p =? 120)%nat || (code p =? 88)%nat then Some (radix 16%Z ds)
              else if (code p =? 111)%nat || (code p =? 79)%nat then Some (radix 8%Z ds)
              else if (code p =? 98)%nat || (code p =? 66)%nat then Some (radix 2%Z ds)
              else None
            else None
        | [] => None
        end in
      match prefixed with
      | Some x => x
      | None =>
          let '(neg, body) :=
            if (code c =? 45)%nat then (true, r)
            else if (code c =? 43)%nat then (false, r) else (false, c :: r) in
          if String.eqb (string_of_list_ascii body) "Infinity"
          then (if neg then neg_infinity else infinity)
          else parse_decimal neg body
      end
  end.

(** ** JavaScript values *)

(** JSON data and the plain objects the handlers build.  An object is the
    list of its fields; where a key is bound twice the last binding stands. *)
Inductive JsValue :=
| JUndefined
| JNull
| JBool (b : bool)
| JNum (x : float)
| JStr (s : string)
| JArr (elems : list JsValue)
| JObj (fields : list (string * JsValue)).

(** Builtins of the host that the properties do not depend on:
    [NumberToString x] is [String(x)] for a number, and [URL_host u] is
    [new URL(u).host], [None] when the constructor throws. *)
Class Host := {
  NumberToString : float -> string;
  URL_host : string -> option string
}.

(** What is thrown: [Thrown m] is [throw new Error(m)] of the source,
    [TypeErr m] and [URIErr m] a TypeError and a URIError raised by the
    engine, and [Rejected m] the rejection of a promise of an external
    provider. *)
Inductive JsError :=
| Thrown (msg : string)
| TypeErr (msg : string)
| URIErr (msg : string)
| Rejected (msg : string).

(** [e.message]. *)
Definition message (e : JsError) : string :=
  match e with Thrown m | TypeErr m | URIErr m | Rejected m => m end.

Inductive Outcome (A : Type) :=
| Ok (a : A)
| Throw (e : JsError).
Arguments Ok {A} a.
Arguments Throw {A} e.

Definition obind {A B : Type} (o : Outcome A) (k : A -> Outcome B) : Outcome B :=
  match o with
  | Ok a => k a
  | Throw e => Throw e
  end.

Notation "'let?' x ':=' o 'in' k" := (obind o (fun x => k))
  (at level 10, x name, o at level 100, k at level 200).

(** ToBoolean. *)
Definition truthy (v : JsValue) : bool :=
  match v with
  | JUndefined | JNull => false
  | JBool b => b
  | JNum x => negb (PrimFloat.eqb x 0 || isNaN x)
  | JStr s => negb (String.eqb s "")
  | JArr _ | JObj _ => true
  end.

(** [a || b] on values. *)
Definition js_or (a b : JsValue) : JsValue := if truthy a then a else b.

(** The last binding of key [k]. *)
Definition field (k : string) (fs : list (string * JsValue)) : option JsValue :=
  fold_left (fun acc kv => if String.eqb (fst kv) k then Some (snd kv) else acc) fs None.

Definition has_field (k : string) (v : JsValue) : bool :=
  match v with
  | JObj fs => match field k fs with Some _ => true | None => false end
  | _ => false
  end.

(** ToString, which a template literal, [RegExp.prototype.test] and
    [encodeURIComponent] apply to a value.  An array is its elements joined by
    commas, [null] and [undefined] elements being empty.  An object is
    converted by the [toString] it inherits, unless a property of its own
    hides it: a property [toString] of these values is data, not a function,
    and the conversion throws a TypeError. *)
Fixpoint ToString {H : Host} (v : JsValue) {struct v} : Outcome string :=
  match v with
  | JUndefined => Ok "undefined"
  | JNull => Ok "null"
  | JBool true => Ok "true"
  | JBool false => Ok "false"
  | JNum x => Ok (NumberToString x)
  | JStr s => Ok s
  | JArr l =>
      (fix join (l : list JsValue) : Outcome string :=
         let item (e : JsValue) : Outcome string :=
           match e with JUndefined | JNull => Ok "" | _ => ToString e end in
         match l with
         | [] => Ok ""
         | [e] => item e
         | e :: l' =>
             let? a := item e in
             let? b := join l' in
             Ok (a +:+ "," +:+ b)
         end) l
  | JObj fs =>
      match field "toString" fs with
      | Some _ => Throw (TypeErr "Cannot convert object to primitive value")
      | None => Ok "[object Object]"
      end
  end.

(** ToNumber, which is [Number(v)]; an array or an object is converted to a
    string first. *)
Definition ToNumber {H : Host} (v : JsValue) : Outcome float :=
  match v with
  | JUndefined => Ok nan
  | JNull => Ok 0%float
  | JBool true => Ok 1%float
  | JBool false => Ok 0%float
  | JNum x => Ok x
  | JStr s => Ok (StringToNumber s)
  | JArr _ | JObj _ => let? s := ToString v in Ok (StringToNumber s)
  end.

(** The number [n], counted up from 0: exact for every [n] up to 2^53,
    which no length of a JavaScript array or string exceeds. *)
Fixpoint float_of_nat (n : nat) : float :=
  match n with
  | O => 0%float
  | S n' => (float_of_nat n' + 1)%float
  end.

Definition ToStringNullish (v : JsValue) : string :=
  match v with JNull => "null" | _ => "undefined" end.

(** [v.k]: a TypeError on [undefined] and [null]; arrays and strings have
    a [length]; a missing property is [undefined]. *)
Definition get_prop (v : JsValue) (k : string) : Outcome JsValue :=
  match v with
  | JUndefined | JNull => Throw (TypeErr ("Cannot read properties of " +:+ ToStringNullish v +:+ " (reading '" +:+ k +:+ "')"))
  | JObj fs => Ok (default JUndefined (field k fs))
  | JArr l => Ok (if String.eqb k "length" then JNum (float_of_nat (length l)) else JUndefined)
  | JStr s => Ok (if String.eqb k "length" then JNum (float_of_nat (length (code_units s)))
                  else JUndefined)
  | JBool _ | JNum _ => Ok JUndefined
  end.

(** [v[0]]. *)
Definition get_first (v : JsValue) : Outcome JsValue :=
  match v with
  | JArr l => Ok (hd JUndefined l)
  | JStr s =>
      match code_units s with
      | u :: _ => Ok (JStr (string_of_units [u]))
      | [] => Ok JUndefined
      end
  | _ => get_prop v "0"
  end.

(** ** Regular expressions

    The fragment the source's literals use, matched on the code units of
    the input by backtracking in the order ECMAScript prescribes: greedy
    quantifiers, leftmost match.  Each of the literals has at most one
    capturing group, so a match carries one capture. *)
Inductive regex :=
| RChar (c : N)
| RClass (p : N -> bool)
| RSeq (r1 r2 : regex)
| RRep (lo : nat) (hi : option nat) (r : regex)
| RGroup (r : regex)
| RBol
| REol.

(** [rmatch start r pos s cap k]: in a match attempt that began at index
    [start] of the input, match [r] at offset [pos] of the attempt, where [s]
    is the rest of the input, then continue with [k]; [None] is failure, on
    which the caller tries its next alternative. *)
Fixpoint rmatch {A : Type} (start : nat) (r : regex) (pos : nat) (s : list N)
    (cap : option (list N))
    (k : nat -> list N -> option (list N) -> option A) {struct r} : option A :=
  match r with
  | RChar c =>
      match s with
      | x :: s' => if (x =? c)%N then k (S pos) s' cap else None
      | [] => None
      end
  | RClass p =>
      match s with
      | x :: s' => if p x then k (S pos) s' cap else None
      | [] => None
      end
  | RSeq r1 r2 =>
      rmatch start r1 pos s cap (fun pos' s' cap' => rmatch start r2 pos' s' cap' k)
  | RRep lo hi r' =>
      (fix rep (fuel lo : nat) (pos : nat) (s : list N)
           (cap : option (list N)) {struct fuel} : option A :=
         let stop := match lo with O => k pos s cap | S _ => None end in
         match fuel with
         | O => stop
         | S fuel' =>
             match rmatch start r' pos s cap
                     (fun pos' s' cap' =>
                        if (pos' =? pos)%nat then None
                        else rep fuel' (Nat.pred lo) pos' s' cap') with
             | Some a => Some a
             | None => stop
             end
         end) (match hi with Some h => h | None => length s end) lo pos s cap
  | RGroup r' =>
      rmatch start r' pos s cap
        (fun pos' s' _ => k pos' s' (Some (firstn (pos' - pos) s)))
  | RBol => if (start + pos =? 0)%nat then k pos s cap else None
  | REol => match s with [] => k pos s cap | _ :: _ => None end
  end.

(** A match: where it starts and ends, its text [m[0]] and its group [m[1]]. *)
Record MatchResult := {
  m_start : nat;
  m_end : nat;
  m_text : list N;
  m_group : option (list N)
}.

(** The match that starts at index [start], where [s] is the input from
    there on. *)
Definition match_at (r : regex) (start : nat) (s : list N) : option MatchResult :=
  rmatch start r 0 s None
    (fun pos' _ cap =>
       Some {| m_start := start; m_end := start + pos';
               m_text := firstn pos' s; m_group := cap |}).

(** The leftmost match at or after offset [pos]; [s] is the input from [pos]. *)
Fixpoint search (r : regex) (pos : nat) (s : list N) : option MatchResult :=
  match match_at r pos s with
  | Some m => Some m
  | None => match s with [] => None | _ :: s' => search r (S pos) s' end
  end.

(** [re.exec(s)] and [s.match(re)] without the [g] flag. *)
Definition regex_exec (r : regex) (s : string) : option MatchResult :=
  search r 0 (code_units s).

(** [re.test(s)]. *)
Definition regex_test (r : regex) (s : string) : bool :=
  match regex_exec r s with Some _ => true | None => false end.

(** [s.matchAll(re)] with the [g] flag: the successive leftmost matches, each
    search starting where the previous match ended (one further after an
    empty match). *)
Fixpoint match_all_from (r : regex) (fuel pos : nat) (s : list N) : list MatchResult :=
  match fuel with
  | O => []
  | S fuel' =>
      match search r pos s with
      | None => []
      | Some m =>
          let next := (m_end m + (if (m_end m =? m_start m)%nat then 1 else 0))%nat in
          m :: match_all_from r fuel' next (skipn (next - pos) s)
      end
  end.

Definition matchAll (r : regex) (s : string) : list MatchResult :=
  let l := code_units s in match_all_from r (S (length l)) 0 l.

Definition rdigit : regex := RClass is_digit_unit.
Definition rspace : regex := RClass is_space.
Definition ropt (r : regex) : regex := RRep 0 (Some 1) r.
Definition rplus (r : regex) : regex := RRep 1 None r.
Definition rchar (s : string) : regex :=
  match s with String c _ => RChar (byte c) | EmptyString => RRep 0 (Some 0) RBol end.
Fixpoint rseq (rs : list regex) : regex :=
  match rs with
  | [] => RRep 0 (Some 0) RBol
  | [r] => r
  | r :: rs' => RSeq r (rseq rs')
  end.

(** [/^-?\d+\.\d+,-?\d+\.\d+$/] *)
Definition coordinate_re : regex :=
  rseq [RBol; ropt (rchar "-"); rplus rdigit; rchar "."; rplus rdigit; rchar ",";
        ropt (rchar "-"); rplus rdigit; rchar "."; rplus rdigit; REol].

(** [/\$\s?([0-9]{1,3}(?:,[0-9]{3})?(?:\.[0-9]{1,2})?)/g] *)
Definition price_re : regex :=
  rseq [rchar "$"; ropt rspace;
        RGroup (rseq [RRep 1 (Some 3) rdigit;
                      ropt (rseq [rchar ","; RRep 3 (Some 3) rdigit]);
                      ropt (rseq [rchar "."; RRep 1 (Some 2) rdigit])])].

(** The letter x in either case. *)
Definition is_x_unit (u : N) : bool := (u =? 120)%N || (u =? 88)%N.

(** [/(\d{1,2}\s?x\s?\d{1,2})/i]: under the [i] flag the letter matches in
    both cases. *)
Definition unit_re : regex :=
  RGroup (rseq [RRep 1 (Some 2) rdigit; ropt rspace; RClass is_x_unit; ropt rspace;
                RRep 1 (Some 2) rdigit]).

(** [s.replace(/,/g, '')] and [s.replace(/\s+/g, '')]: the string without
    its commas, and without its white space. *)
Definition remove_commas (l : list N) : list N :=
  List.filter (fun u => negb (u =? 44)%N) l.
Definition remove_spaces (l : list N) : list N :=
  List.filter (fun u => negb (is_space u)) l.

(** [encodeURIComponent]: the characters it leaves as they are, the letters
    and digits and [-_.!~*'()]. *)
Definition uri_unreserved (u : N) : bool :=
  ((48 <=? u) && (u <=? 57) || (65 <=? u) && (u <=? 90) || (97 <=? u) && (u <=? 122)
   || existsb (N.eqb u) [45; 95; 46; 33; 126; 42; 39; 40; 41])%N.

(** [%XX] for a byte, in upper case. *)
Definition percent (b : ascii) : list ascii :=
  let hex (n : N) : ascii := ascii_of_N (if (n <? 10)%N then 48 + n else 55 + n)%N in
  ["%"%char; hex (byte b / 16)%N; hex (byte b mod 16)%N].

(** [encodeURIComponent] on code units: every other character is replaced
    by the escapes of its bytes in UTF-8.  A surrogate that is not half of a
    pair has no such bytes: the function throws a URIError. *)
Fixpoint encode_uri (l : list N) : Outcome (list ascii) :=
  match l with
  | [] => Ok []
  | u :: l1 =>
      if uri_unreserved u then
        let? r := encode_uri l1 in Ok (ascii_of_N u :: r)
      else if is_low_surrogate u then Throw (URIErr "URI malformed")
      else if is_high_surrogate u then
        match l1 with
        | v :: l2 =>
            if is_low_surrogate v then
              let? r := encode_uri l2 in
              Ok (concat (List.map percent (utf8 (pair_code_point u v))) ++ r)
            else Throw (URIErr "URI malformed")
        | [] => Throw (URIErr "URI malformed")
        end
      else
        let? r := encode_uri l1 in Ok (concat (List.map percent (utf8 u)) ++ r)
  end.

(** [String.prototype.isWellFormed]: no surrogate stands alone. *)
Fixpoint well_formed (l : list N) : bool :=
  match l with
  | [] => true
  | u :: l1 =>
      if is_low_surrogate u then false
      else if is_high_surrogate u then
        match l1 with
        | v :: l2 => is_low_surrogate v && well_formed l2
        | [] => false
        end
      else well_formed l1
  end.

Definition encodeURIComponent (s : string) : Outcome string :=
  let? l := encode_uri (code_units s) in Ok (string_of_list_ascii l).

(** [s.split(',')], on the bytes of [s]: a comma is a byte of its own. *)
Fixpoint split_commas (l : list ascii) (cur : list ascii) : list string :=
  match l with
  | [] => [string_of_list_ascii (rev cur)]
  | c :: l' =>
      if Ascii.eqb c "," then string_of_list_ascii (rev cur) :: split_commas l' []
      else split_commas l' (c :: cur)
  end.

(** ** JSON on the wire

    [res.json(v)] sends [JSON.stringify(v)] and the client reads it back with
    [JSON.parse]: a field whose value is [undefined] is dropped, [undefined]
    inside an array and the non-finite numbers become [null], and -0
    becomes 0. *)
Fixpoint to_json (v : JsValue) {struct v} : JsValue :=
  match v with
  | JUndefined => JNull
  | JNum x =>
      if isNaN x || PrimFloat.is_infinity x then JNull
      else if PrimFloat.eqb x 0 then JNum 0 else JNum x
  | JArr l => JArr (List.map to_json l)
  | JObj fs =>
      JObj ((fix fields (fs : list (string * JsValue)) : list (string * JsValue) :=
               match fs with
               | [] => []
               | (k, JUndefined) :: fs' => fields fs'
               | (k, x) :: fs' => (k, to_json x) :: fields fs'
               end) fs)
  | _ => v
  end.

(** ** State, providers and the monad of the handlers *)

(** An entry of [cache]: [{ value, exp }]. *)
Record CacheEntry := { value : JsValue; exp : Z }.

(** A request to an external provider; a geocoding request carries the
    address as the URL holds it, encoded. *)
Inductive Request :=
| ReqGeocode (address : string)
| ReqNearby (lat lng : JsValue) (radius : float)
| ReqDetails (placeId : string)
| ReqPage (url : string).

(** The process-wide state: the two [Map]s, the clock [Date.now()] reads
    (milliseconds) and the requests issued so far, oldest first. *)
Record St := {
  cache : gmap string CacheEntry;
  hostLock : gmap string Z;
  now : Z;
  log : list Request
}.

(** What a provider answers: a value, or a failure with its message. *)
Inductive Reply (A : Type) :=
| Fulfilled (a : A)
| Failed (msg : string).
Arguments Fulfilled {A} a.
Arguments Failed {A} msg.

Definition await {A : Type} (r : Reply A) : Outcome A :=
  match r with
  | Fulfilled a => Ok a
  | Failed msg => Throw (Rejected msg)
  end.

(** The external world.  [fetch] is the parsed JSON reply to a provider
    request ([fetch(url).then(r => r.json())]); [launch] is
    [chromium.launch()], [browse] what follows in a run of the browser up to
    the rendered HTML of the page (new page, navigation, content) and
    [closing] the [browser.close()] that ends the run; each may depend on the
    requests issued before.  [latency] is the time a request takes,
    [launch_time] and [closing_time] the time the browser takes to start and
    to close, and [timer_lag] how late a timer fires. *)
Record World := {
  fetch : list Request -> Request -> Reply JsValue;
  launch : list Request -> Reply unit;
  browse : list Request -> string -> Reply string;
  closing : list Request -> string -> Reply unit;
  latency : list Request -> Request -> Z;
  launch_time : list Request -> Z;
  closing_time : list Request -> string -> Z;
  timer_lag : Z -> Z -> Z
}.

Definition M (A : Type) : Type := World -> St -> Outcome A * St.

Definition ret {A : Type} (a : A) : M A := fun _ st => (Ok a, st).
Definition throw {A : Type} (e : JsError) : M A := fun _ st => (Throw e, st).
Definition bind {A B : Type} (m : M A) (k : A -> M B) : M B :=
  fun w st =>
    match m w st with
    | (Ok a, st') => k a w st'
    | (Throw e, st') => (Throw e, st')
    end.
(** [try { m } catch (e) { h e }]. *)
Definition try_catch {A : Type} (m : M A) (h : JsError -> M A) : M A :=
  fun w st =>
    match m w st with
    | (Ok a, st') => (Ok a, st')
    | (Throw e, st') => h e w st'
    end.
Definition lift {A : Type} (o : Outcome A) : M A := fun _ st => (o, st).

Notation "'let*' x ':=' m 'in' k" := (bind m (fun x => k))
  (at level 10, x name, m at level 100, k at level 200).

Fixpoint mapM {A B : Type} (f : A -> M B) (l : list A) : M (list B) :=
  match l with
  | [] => ret []
  | x :: l' => let* y := f x in let* ys := mapM f l' in ret (y :: ys)
  end.

(** [Date.now()]. *)
Definition Date_now : M Z := fun _ st => (Ok (now st), st).

(** [await new Promise(r => setTimeout(r, d))]. *)
Definition sleep (d : Z) : M unit :=
  fun w st =>
    (Ok tt, {| cache := cache st; hostLock := hostLock st;
               now := now st + d + timer_lag w (now st) d; log := log st |}).

(** An awaited provider request: it is logged and takes its latency. *)
Definition after_request (w : World) (st : St) (r : Request) : St :=
  {| cache := cache st; hostLock := hostLock st;
     now := now st + latency w (log st) r; log := log st ++ [r] |}.

Definition fetch_json (r : Request) : M JsValue :=
  fun w st => (await (fetch w (log st) r), after_request w st r).

(** The state [st] after [d] more milliseconds. *)
Definition later (d : Z) (st : St) : St :=
  {| cache := cache st; hostLock := hostLock st; now := now st + d; log := log st |}.

(** [await chromium.launch(...)]. *)
Definition browser_launch : M unit :=
  fun w st => (await (launch w (log st)), later (launch_time w (log st)) st).

(** The page of a run: [browser.newPage()], [page.goto(url)] and
    [page.content()], each awaited. *)
Definition page_content (url : string) : M string :=
  fun w st => (await (browse w (log st) url), after_request w st (ReqPage url)).

(** [await browser.close()] at the end of a run on [url]. *)
Definition browser_close (url : string) : M unit :=
  fun w st => (await (closing w (log st) url), later (closing_time w (log st) url) st).

(** [hostLock.get(host) || 0] and [hostLock.set(host, t)]. *)
Definition hostLock_get (host : string) : M Z :=
  fun _ st => (Ok (default 0%Z (hostLock st !! host)), st).
Definition hostLock_set (host : string) (t : Z) : M unit :=
  fun _ st =>
    (Ok tt, {| cache := cache st; hostLock := <[host := t]> (hostLock st);
               now := now st; log := log st |}).

(** ** Cache (source lines 33-43) *)

Definition setCache (key : string) (v : JsValue) (ttlSec : Z) : M unit :=
  fun _ st =>
    (Ok tt, {| cache := <[key := {| value := v; exp := now st + ttlSec * 1000 |}]> (cache st);
               hostLock := hostLock st; now := now st; log := log st |}).

Definition getCache (key : string) : M JsValue :=
  fun _ st =>
    match cache st !! key with
    | None => (Ok JNull, st)
    | Some v =>
        if (exp v <? now st)%Z
        then (Ok JNull, {| cache := delete key (cache st);
                           hostLock := hostLock st; now := now st; log := log st |})
        else (Ok (value v), st)
    end.

(** ** Median (source lines 45-51) *)

(** [arr.sort(cmp)] on numbers: a stable sort in which [x] goes after [y]
    when [cmp x y > 0]; a NaN result of the comparator counts as 0. *)
Fixpoint sort_insert (cmp : float -> float -> float) (x : float) (l : list float) : list float :=
  match l with
  | [] => [x]
  | y :: l' => if PrimFloat.ltb 0 (cmp x y) then y :: sort_insert cmp x l' else x :: l
  end.

Definition sort (cmp : float -> float -> float) (l : list float) : list float :=
  fold_right (sort_insert cmp) [] l.

(** [None] is the [null] the source returns for an empty array. *)
Definition median (arr : list float) : option float :=
  if (length arr =? 0)%nat then None
  else
    let s := sort (fun a b => a - b)%float arr in
    let m := (length s / 2)%nat in
    if (length s mod 2 =? 0)%nat
    then Some ((nth (m - 1) s nan + nth m s nan) / 2)%float
    else Some (nth m s nan).

(** *** Arrays by reference

    JavaScript passes an array by reference, and [sort] sorts in place.  A
    [Heap] maps references to array contents; [median_by_ref] is [median]
    with its argument a reference, the form in which the caller's array could
    be affected. *)
Abbreviation Heap := (gmap positive (list float)).

(** [a.slice()]: a fresh array with the contents of [a]. *)
Definition array_slice (a : positive) (h : Heap) : positive * Heap :=
  let a' := fresh (dom h) in (a', <[a' := default [] (h !! a)]> h).

(** [a.sort(cmp)]: sorts [a] in place and returns [a]. *)
Definition array_sort (cmp : float -> float -> float) (a : positive) (h : Heap) : positive * Heap :=
  (a, alter (sort cmp) a h).

Definition array_length (a : positive) (h : Heap) : nat := length (default [] (h !! a)).
Definition array_get (a : positive) (i : nat) (h : Heap) : float := nth i (default [] (h !! a)) nan.

Definition median_by_ref (arr : positive) (h : Heap) : option float * Heap :=
  if (array_length arr h =? 0)%nat then (None, h)
  else
    let '(c, h1) := array_slice arr h in
    let '(s, h2) := array_sort (fun a b => a - b)%float c h1 in
    let m := (array_length s h2 / 2)%nat in
    if (array_length s h2 mod 2 =? 0)%nat
    then (Some ((array_get s (m - 1) h2 + array_get s m h2) / 2)%float, h2)
    else (Some (array_get s m h2), h2).

(** ** Politeness throttle (source lines 100-110) *)

Definition gap : Z := 2000.

(** Lines 103-107 up to the [await]: the time the call has to wait, if it
    has to. *)
Definition polite_enter (host : string) : M (option Z) :=
  let* last := hostLock_get host in
  let* t := Date_now in
  ret (if (t - last <? gap)%Z then Some (gap - (t - last))%Z else None).

(** Line 109, which runs when the wait is over. *)
Definition polite_leave (host : string) : M unit :=
  let* t' := Date_now in
  hostLock_set host t'.

(** One call, from its start to its end. *)
Definition politeWaitForHost (host : string) : M unit :=
  let* wait := polite_enter host in
  let* _ := match wait with Some d => sleep d | None => ret tt end in
  polite_leave host.

(** *** Calls in flight together

    At the [await] of line 107 a call is suspended until its timer fires,
    and the process runs what else is ready: the handler of another request
    can enter [politeWaitForHost] meanwhile.  The event loop holds the calls
    that are suspended, each with the time its timer is due, and records every
    call that completes with the time at which it does. *)
Record Timer := { timer_host : string; timer_due : Z }.

Record Loop := {
  loop_state : St;
  suspended : list Timer;
  completed : list (string * Z)
}.

(** What happens next: a handler calls [politeWaitForHost host], the timer
    of the suspended call [i] fires, or [d] milliseconds pass. *)
Inductive Event :=
| Enter (host : string)
| Fire (i : nat)
| Pass (d : Z).

(** The call completes: line 109 runs and the caller goes on. *)
Definition complete (host : string) (w : World) (l : Loop) : Loop :=
  let st := snd (polite_leave host w (loop_state l)) in
  {| loop_state := st; suspended := suspended l;
     completed := completed l ++ [(host, now st)] |}.

Definition loop_step (w : World) (l : Loop) (e : Event) : Loop :=
  match e with
  | Enter host =>
      match fst (polite_enter host w (loop_state l)) with
      | Ok (Some d) =>
          {| loop_state := loop_state l;
             suspended := suspended l ++
                          [{| timer_host := host; timer_due := now (loop_state l) + d |}];
             completed := completed l |}
      | _ => complete host w l
      end
  | Fire i =>
      match suspended l !! i with
      | Some tm =>
          if (timer_due tm <=? now (loop_state l))%Z
          then complete (timer_host tm) w
                 {| loop_state := loop_state l; suspended := delete i (suspended l);
                    completed := completed l |}
          else l
      | None => l
      end
  | Pass d =>
      {| loop_state := later (Z.max 0 d) (loop_state l); suspended := suspended l;
         completed := completed l |}
  end.

Definition run_loop (w : World) (events : list Event) (l : Loop) : Loop :=
  fold_left (loop_step w) events l.

(** ** Scraper (source lines 112-148) *)

(** The heuristics of [run]: the price is the first dollar amount, its
    commas removed, and the unit the first NxM token, its spaces removed. *)
Definition extract_price (content : string) : JsValue :=
  let priceMatches :=
    List.map (fun m => StringToNumber
                         (string_of_units (remove_commas (default [] (m_group m)))))
             (matchAll price_re content) in
  match priceMatches with
  | p :: _ => JNum p
  | [] => JNull
  end.

Definition extract_unit (content : string) : JsValue :=
  match regex_exec unit_re content with
  | Some m => JStr (string_of_units (remove_spaces (default [] (m_group m))))
  | None => JNull
  end.

(** Modelled from the spec: [pRetry] is the p-retry package, which is not
    among the sources.  [run] is tried once and, while it fails, once more
    after each of [delays]; when the delays are used up the last failure
    propagates. *)
Fixpoint pRetry {A : Type} (run : M A) (delays : list Z) : M A :=
  match delays with
  | [] => run
  | d :: delays' =>
      try_catch run (fun _ => let* _ := sleep d in pRetry run delays')
  end.

(** [{ retries: 2, factor: 1.5 }] with the package's first delay of one
    second: two retries, after 1000 ms and 1500 ms. *)
Definition retry_delays : list Z := [1000; 1500]%Z.

Section WithHost.
Context {H : Host}.

(** One run of the browser on the page [u] for [scrapeSiteForPrice url]:
    when the page cannot be read the browser is closed, whatever the closing
    does, and the failure is thrown again. *)
Definition run (url : JsValue) (u cacheKey : string) : M JsValue :=
  let* _ := browser_launch in
  try_catch
    (let* content := page_content u in
     let price := extract_price content in
     let unit := extract_unit content in
     let result := JObj [("price", price); ("unit", unit); ("source", url)] in
     let* _ := setCache cacheKey result (12 * 3600) in
     let* _ := browser_close u in
     ret result)
    (fun err =>
       let* _ := try_catch (browser_close u) (fun _ => ret tt) in
       throw err).

(** [u] is the text of [url], which the cache key holds, [new URL] parses
    and the browser loads. *)
Definition scrapeSiteForPrice (url : JsValue) : M JsValue :=
  let* u := lift (ToString url) in
  let cacheKey := "scrape:" +:+ u in
  let* cached := getCache cacheKey in
  if truthy cached then ret cached
  else
    let* _ :=
      match URL_host u with
      | Some host => politeWaitForHost host
      | None => ret tt
      end in
    pRetry (run url u cacheKey) retry_delays.

(** ** Places (source lines 53-98) *)

(** Lines 62-64 of [placesNearby]: the "lat,lng" string read off the
    geocoding reply, or the failure. *)
Definition latlng_of_geocode (geoRes : JsValue) : Outcome JsValue :=
  let? results := get_prop geoRes "results" in
  let? len := (if truthy results then get_prop results "length" else Ok JUndefined) in
  if negb (truthy results) || negb (truthy len) then Throw (Thrown "geocode failed")
  else
    let? first := get_first results in
    let? geometry := get_prop first "geometry" in
    let? loc := get_prop geometry "location" in
    let? lat := get_prop loc "lat" in
    let? lng := get_prop loc "lng" in
    let? slat := ToString lat in
    let? slng := ToString lng in
    Ok (JStr (slat +:+ "," +:+ slng)).

(** Lines 56-65 of [placesNearby]: the value of [latlng] after them.  The
    test and [encodeURIComponent] read the text [s] of the argument; when the
    test succeeds [latlng] is the argument itself. *)
Definition resolveLatLng (addressOrLatLng : JsValue) : M JsValue :=
  let* s := lift (ToString addressOrLatLng) in
  if regex_test coordinate_re s then ret addressOrLatLng
  else
    let* address := lift (encodeURIComponent s) in
    let* geoRes := fetch_json (ReqGeocode address) in
    lift (latlng_of_geocode geoRes).

(** [latlng.split(',')]: a value other than a string has no [split]. *)
Definition split (latlng : JsValue) : Outcome (list string) :=
  match latlng with
  | JStr s => Ok (split_commas (list_ascii_of_string s) [])
  | JUndefined | JNull =>
      Throw (TypeErr ("Cannot read properties of " +:+ ToStringNullish latlng
                      +:+ " (reading 'split')"))
  | _ => Throw (TypeErr "latlng.split is not a function")
  end.

(** [arr.map(f)] for a callback [f] that may throw. *)
Fixpoint map_outcome {A B : Type} (f : A -> Outcome B) (l : list A) : Outcome (list B) :=
  match l with
  | [] => Ok []
  | x :: l' =>
      match f x with
      | Ok y => match map_outcome f l' with Ok ys => Ok (y :: ys) | Throw e => Throw e end
      | Throw e => Throw e
      end
  end.

Definition array_map {B : Type} (v : JsValue) (f : JsValue -> Outcome B) : Outcome (list B) :=
  match v with
  | JArr l => map_outcome f l
  | JUndefined | JNull => Throw (TypeErr ("Cannot read properties of " +:+ ToStringNullish v +:+ " (reading 'map')"))
  | _ => Throw (TypeErr "map is not a function")
  end.

(** The candidate record [placesNearby] builds from a provider result. *)
Definition place_of_result (p : JsValue) : Outcome JsValue :=
  let? place_id := get_prop p "place_id" in
  let? name := get_prop p "name" in
  let? vicinity := get_prop p "vicinity" in
  let? geometry := get_prop p "geometry" in
  let? location := (if truthy geometry then get_prop geometry "location" else Ok geometry) in
  let? types := get_prop p "types" in
  let? rating := get_prop p "rating" in
  Ok (JObj [("place_id", place_id); ("name", name); ("address", vicinity);
            ("location", location); ("types", types); ("rating", rating)]).

(** Line 66, [const [lat, lng] = latlng.split(',').map(Number)]: the
    numbers the first two parts read as; a part that is missing leaves
    [undefined]. *)
Definition coordinates (latlng : JsValue) : Outcome (JsValue * JsValue) :=
  let? parts := split latlng in
  Ok (match parts with p :: _ => JNum (StringToNumber p) | [] => JUndefined end,
      match parts with _ :: p :: _ => JNum (StringToNumber p) | _ => JUndefined end).

Definition placesNearby (addressOrLatLng radiusMiles : JsValue) : M JsValue :=
  let* latlng := resolveLatLng addressOrLatLng in
  let* latlng' := lift (coordinates latlng) in
  let lat := fst latlng' in
  let lng := snd latlng' in
  let* miles := lift (ToNumber radiusMiles) in
  let radiusMeters := Math_min 40000 (miles * 1609.34)%float in
  let* slat := lift (ToString lat) in
  let* slng := lift (ToString lng) in
  let cacheKey := "places:" +:+ slat +:+ ":" +:+ slng +:+ ":"
                  +:+ NumberToString radiusMeters in
  let* cached := getCache cacheKey in
  if truthy cached then ret cached
  else
    let* res := fetch_json (ReqNearby lat lng (Math_round radiusMeters)) in
    let* results := lift (get_prop res "results") in
    if negb (truthy results) then throw (Thrown "places API failed")
    else
      let* places := lift (array_map results place_of_result) in
      let* _ := setCache cacheKey (JArr places) (6 * 3600) in
      ret (JArr places).

Definition placeDetails (placeId : JsValue) : M JsValue :=
  let* id := lift (ToString placeId) in
  let cacheKey := "placedetail:" +:+ id in
  let* cached := getCache cacheKey in
  if truthy cached then ret cached
  else
    let* res := fetch_json (ReqDetails id) in
    let* result := lift (get_prop res "result") in
    if negb (truthy result) then ret JNull
    else
      let* _ := setCache cacheKey result (24 * 3600) in
      ret result.

(** ** The handlers (source lines 150-210) *)

Record Response := { status : Z; body : JsValue }.

(** [res.json(v)] and [res.status(c).json(v)]. *)
Definition res_json (v : JsValue) : Response := {| status := 200; body := to_json v |}.
Definition res_status_json (c : Z) (v : JsValue) : Response := {| status := c; body := to_json v |}.

(** [a && a.k]. *)
Definition and_prop (a : JsValue) (k : string) : M JsValue :=
  if truthy a then lift (get_prop a k) else ret a.

(** The body of the loop of [/api/scan] for the candidate [p]: the entry it
    pushes on [results]. *)
Definition scan_candidate (p : JsValue) : M JsValue :=
  try_catch
    (let* place_id := lift (get_prop p "place_id") in
     let* details := placeDetails place_id in
     let* site := and_prop details "website" in
     let website := js_or site JNull in
     let* scraped :=
       if truthy website
       then try_catch (scrapeSiteForPrice website)
                      (fun _ => ret (JObj [("error", JStr "scrape failed")]))
       else ret JNull in
     let* name := lift (get_prop p "name") in
     let* fa := and_prop details "formatted_address" in
     let* address := if truthy fa then ret fa else lift (get_prop p "address") in
     let* place_id' := lift (get_prop p "place_id") in
     let* unit := and_prop scraped "unit" in
     let* price := and_prop scraped "price" in
     let* availability := and_prop scraped "availability" in
     ret (JObj [("name", name); ("address", address); ("place_id", place_id');
                ("website", website); ("distance", JNull); ("unit", unit);
                ("price", price);
                ("source", JStr (if truthy website then "website" else "places"));
                ("availability", availability)]))
    (fun e =>
       let* name := lift (get_prop p "name") in
       let* address := lift (get_prop p "address") in
       ret (JObj [("name", name); ("address", address); ("error", JStr (message e))])).

(** [places.slice(0, 20)] for the array [placesNearby] returns. *)
Definition slice20 (places : JsValue) : Outcome (list JsValue) :=
  match places with
  | JArr l => Ok (firstn 20 l)
  | _ => Throw (TypeErr "places.slice is not a function or its return value is not iterable")
  end.

(** [app.post('/api/scan', ...)] on the request body [req_body]. *)
Definition api_scan (req_body : JsValue) : M Response :=
  try_catch
    (let* _facilityName := lift (get_prop req_body "facilityName") in
     let* address := lift (get_prop req_body "address") in
     let* radius := lift (get_prop req_body "radius") in
     if negb (truthy address)
     then ret (res_status_json 400 (JObj [("error", JStr "address required")]))
     else
       let* places := placesNearby address (js_or radius (JNum 10)) in
       let* candidates := lift (slice20 places) in
       let* results := mapM scan_candidate candidates in
       ret (res_json (JObj [("competitors", JArr results)])))
    (fun err => ret (res_status_json 500 (JObj [("error", JStr (message err))]))).

(** The prices [/api/suggest] takes the median of:
    [(competitors||[]).map(c => Number(c.price)).filter(p => !Number.isNaN(p))]. *)
Definition suggest_prices (competitors : JsValue) : Outcome (list float) :=
  let? ps := array_map (js_or competitors (JArr []))
                       (fun c => let? p := get_prop c "price" in ToNumber p) in
  Ok (List.filter (fun p => negb (isNaN p)) ps).

Definition alpha : float := 0.06%float.

(** [Math.round((med * (1 - alpha)) * 100) / 100]. *)
Definition recommended_price (med : float) : float :=
  (Math_round ((med * (1 - alpha)) * 100) / 100)%float.

(** [app.post('/api/suggest', ...)] on the request body [req_body]. *)
Definition api_suggest (req_body : JsValue) : Response :=
  match get_prop req_body "facilityName", get_prop req_body "competitors" with
  | Ok _, Ok competitors =>
      match suggest_prices competitors with
      | Ok prices =>
          match median prices with
          | None =>
              res_status_json 400 (JObj [("error", JStr "no competitor prices available")])
          | Some med =>
              res_json (JObj [("recommendedPrice", JNum (recommended_price med));
                              ("rationale",
                               JStr ("Median competitor price is $" +:+ NumberToString med
                                     +:+ ". Undercutting by "
                                     +:+ NumberToString (alpha * 100)%float +:+ "%"));
                              ("confidence", JNum 0.6%float)])
          end
      | Throw err => res_status_json 500 (JObj [("error", JStr (message err))])
      end
  | Throw err, _ | _, Throw err => res_status_json 500 (JObj [("error", JStr (message err))])
  end.

End WithHost.

(** ** Notions used by the statements *)

(** The geocoding provider returned zero results: the reply has no
    [results], or [results] is empty. *)
Definition geocode_zero_results (geoRes : JsValue) : bool :=
  match get_prop geoRes "results" with
  | Ok results =>
      negb (truthy results) ||
      match get_prop results "length" with
      | Ok len => negb (truthy len)
      | Throw _ => false
      end
  | Throw _ => false
  end.

(** A decimal numeral as the coordinate pattern admits it: an optional
    minus sign, digits, a point, digits. *)
Definition decimal_text (l : list ascii) : bool :=
  let body := match l with
              | c :: l' => if Ascii.eqb c "-" then l' else l
              | [] => l
              end in
  let (ip, r) := span is_digit body in
  match ip, r with
  | _ :: _, c :: fp => Ascii.eqb c "." && negb (length fp =? 0)%nat && forallb is_digit fp
  | _, _ => false
  end.

(** A code unit a coordinate is written with, a digit, the minus sign or
    the point: it is ASCII and no comma. *)
Definition coordinate_unit_facts (u : N) : Prop :=
  (u < 128)%N /\ Ascii.eqb (ascii_of_N u) "," = false.

(** Neither [undefined] nor [null]: a value whose properties can be read. *)
Definition is_nullish (v : JsValue) : bool :=
  match v with JUndefined | JNull => true | _ => false end.

(** [v.k] of a value that is not nullish. *)
Definition prop (v : JsValue) (k : string) : JsValue :=
  match get_prop v k with Ok x => x | Throw _ => JUndefined end.

Fixpoint starts_with (p s : string) : bool :=
  match p, s with
  | EmptyString, _ => true
  | String a p', String b s' => Ascii.eqb a b && starts_with p' s'
  | String _ _, EmptyString => false
  end.

(** The keys under which [placesNearby] caches its candidates. *)
Definition places_key (k : string) : bool := starts_with "places:" k.

(** The cache is well formed: what is cached under a key of [placesNearby]
    is an array of records.  It is so when the process starts, and the
    handlers keep it so. *)
Definition cache_wf (st : St) : Prop :=
  forall (k : string) (e : CacheEntry),
    cache st !! k = Some e -> places_key k = true ->
    exists l, value e = JArr l /\ Forall (fun p => is_nullish p = false) l.

(** The computation [m] keeps the cache well formed. *)
Definition preserves {A : Type} (m : M A) : Prop :=
  forall (w : World) (st : St), cache_wf st -> cache_wf (snd (m w st)).

(** The entry [e] is the one the loop of [/api/scan] pushes for the
    candidate [p]: a result of the loop body on [p], carrying its name. *)
Definition entry_of {H : Host} (w : World) (p e : JsValue) : Prop :=
  (exists st st', scan_candidate p w st = (Ok e, st')) /\
  get_prop e "name" = get_prop p "name".

(** The number [Number(v)] returns; NaN stands for a conversion that
    throws. *)
Definition number_of {H : Host} (v : JsValue) : float :=
  match ToNumber v with Ok x => x | Throw _ => nan end.

(** A value that [Number] and a template literal convert without
    throwing. *)
Definition convertible {H : Host} (v : JsValue) : bool :=
  match ToString v with Ok _ => true | Throw _ => false end.

(** [Number(c.price)] of the competitor [c], and the prices [/api/suggest]
    keeps of an array of competitors: those that are not NaN, among them the 0
    of a price [null] or [''] and the 1 of a price [true]. *)
Definition price_number {H : Host} (c : JsValue) : float := number_of (prop c "price").
Definition numeric_prices {H : Host} (cs : list JsValue) : list float :=
  List.filter (fun p => negb (isNaN p)) (List.map price_number cs).

(** The numeric prices in the words of the specification: the prices that
    are numbers other than NaN.  A price that is absent, [null] or a text is
    none of them. *)
Definition spec_numeric_prices (cs : list JsValue) : list float :=
  flat_map (fun c => match prop c "price" with
                     | JNum x => if isNaN x then [] else [x]
                     | _ => []
                     end) cs.

(** A price on which the code and the specification agree: a number, or a
    value that [Number] turns into NaN without throwing. *)
Definition plain_price {H : Host} (p : JsValue) : Prop :=
  (exists x, p = JNum x) \/ (convertible p = true /\ isNaN (number_of p) = true).

(** The state [st] at the later time [t]. *)
Definition at_time (t : Z) (st : St) : St :=
  {| cache := cache st; hostLock := hostLock st; now := t; log := log st |}.

(** The sentence of the specification's extraction example. *)
Definition sample_text : string := "Starting at $89.99 for a 10x10 unit".

(** The first match of [r] in the code units [s] is [m], at the index [i]:
    [r] matches there and at no index before.  [no_match]: [r] matches at no
    index of [s]. *)
Definition first_match (r : regex) (s : list N) (i : nat) (m : MatchResult) : Prop :=
  (i <= length s)%nat /\
  match_at r i (skipn i s) = Some m /\
  forall j, (j < i)%nat -> match_at r j (skipn j s) = None.

Definition no_match (r : regex) (s : list N) : Prop :=
  forall j, (j <= length s)%nat -> match_at r j (skipn j s) = None.

(** Between [lo] and [hi] code units, each of which [q] admits. *)
Definition run_of (q : N -> bool) (lo hi : nat) (d : list N) : Prop :=
  Forall (fun u => q u = true) d /\ (lo <= length d <= hi)%nat.

(** A regular expression that matches one code unit, those that [q]
    admits. *)
Definition single (r : regex) (q : N -> bool) : Prop :=
  forall (A : Type) (start pos : nat) (s : list N) (cap : option (list N))
         (k : nat -> list N -> option (list N) -> option A),
    rmatch start r pos s cap k =
    match s with
    | x :: s' => if q x then k (S pos) s' cap else None
    | [] => None
    end.

(** The comparator [(a, b) => a - b] of [median]. *)
Definition cmp_sub : float -> float -> float := fun a b => (a - b)%float.

(** [x <= y] on numbers, and being a number other than NaN. *)
Definition fle (x y : float) : Prop := PrimFloat.leb x y = true.
Definition not_nan (x : float) : Prop := isNaN x = false.

(** The integer a finite binary64 value with sign [s], mantissa [m] and
    exponent [e] stands for, in units of [2 ^ ez]. *)
Definition scaled (s : bool) (m : positive) (e ez : Z) : Z :=
  cond_Zopp s (Z.pos (fst (shl_align m e ez))).

(** A key that orders the values other than NaN as [<=] does: the class
    (negative infinity, negative, zero, positive, positive infinity), then
    the exponent and the mantissa, both negated for a negative value. *)
Definition skey (x : spec_float) : Z * Z * Z :=
  match x with
  | S754_zero _ | S754_nan => (0, 0, 0)%Z
  | S754_infinity s => (if s then -2 else 2, 0, 0)%Z
  | S754_finite s m e => if s then (-1, - e, Z.neg m)%Z else (1, e, Z.pos m)%Z
  end.

Definition lexcmp (a b : Z * Z * Z) : comparison :=
  match (fst (fst a) ?= fst (fst b))%Z with
  | Eq => match (snd (fst a) ?= snd (fst b))%Z with
          | Eq => (snd a ?= snd b)%Z
          | c => c
          end
  | c => c
  end.

Definition lexle (a b : Z * Z * Z) : Prop :=
  (fst (fst a) < fst (fst b) \/
   fst (fst a) = fst (fst b) /\
   (snd (fst a) < snd (fst b) \/ snd (fst a) = snd (fst b) /\ snd a <= snd b))%Z.

Definition lexlt (a b : Z * Z * Z) : Prop :=
  (fst (fst a) < fst (fst b) \/
   fst (fst a) = fst (fst b) /\
   (snd (fst a) < snd (fst b) \/ snd (fst a) = snd (fst b) /\ snd a < snd b))%Z.

Definition fkey (x : float) : Z * Z * Z := skey (Prim2SF x).

(** A positive value: finite and above zero, or positive infinity. *)
Definition positive_class (x : spec_float) : Prop :=
  match x with
  | S754_finite false _ _ | S754_infinity false => True
  | _ => False
  end.

(** ** Data of the examples *)

(** A host for the examples: every number prints as ["n"] and a URL is its
    own host. *)
Definition stub_host : Host :=
  {| NumberToString := fun _ => "n"; URL_host := fun u => Some u |}.

(** The state of a process that has just started. *)
Definition fresh_state : St :=
  {| cache := ∅; hostLock := ∅; now := 1700000000000; log := [] |}.

(** A world with two candidates, A and B, each with a website; the site of
    A cannot be loaded, the site of B shows a price and a unit.  A request
    takes 100 ms, the browser 300 ms to start and 50 ms to close, and timers
    are exact. *)
Definition one_site_down : World :=
  {| fetch := fun _ r =>
       match r with
       | ReqNearby _ _ _ =>
           Fulfilled (JObj [("results",
             JArr [JObj [("place_id", JStr "a"); ("name", JStr "A Storage");
                         ("vicinity", JStr "1 Main St")];
                   JObj [("place_id", JStr "b"); ("name", JStr "B Storage");
                         ("vicinity", JStr "2 Main St")]])])
       | ReqDetails "a" =>
           Fulfilled (JObj [("result", JObj [("website", JStr "https://a.example")])])
       | ReqDetails "b" =>
           Fulfilled (JObj [("result", JObj [("website", JStr "https://b.example")])])
       | _ => Failed "unreachable"
       end;
     browse := fun _ url =>
       if String.eqb url "https://b.example"
       then Fulfilled "Units from $75 for a 5x10"
       else Failed "net::ERR_TIMED_OUT";
     launch := fun _ => Fulfilled tt;
     closing := fun _ _ => Fulfilled tt;
     latency := fun _ _ => 100%Z;
     launch_time := fun _ => 300%Z;
     closing_time := fun _ _ => 50%Z;
     timer_lag := fun _ _ => 0%Z |}.

(** A scan request whose address is a coordinate pair. *)
Definition scan_request : JsValue :=
  JObj [("facilityName", JStr "My Storage"); ("address", JStr "35.1495,-90.0490");
        ("radius", JNum 10)].

(** The string that the JSON text ["\ud800"] denotes: one code unit, a
    high surrogate with no low surrogate after it. *)
Definition unpaired_surrogate : string :=
  string_of_list_ascii (List.map ascii_of_N [237; 160; 128]%N).

(** A competitor record with the given price. *)
Definition competitor (price : JsValue) : JsValue :=
  JObj [("name", JStr "A Storage"); ("address", JStr "1 Main St"); ("price", price)].

Definition suggest_request (competitors : list JsValue) : JsValue :=
  JObj [("facilityName", JStr "My Storage"); ("competitors", JArr competitors)].

(** ** Notions used by the further properties *)

(** The keys under which [scrapeSiteForPrice] caches its results. *)
Definition scrape_key (k : string) : bool := starts_with "scrape:" k.

(** What [scrapeSiteForPrice] builds: [{ price, unit, source }] with a
    number or [null] for the price and a string or [null] for the unit. *)
Definition scrape_result (v : JsValue) : Prop :=
  exists price unit source : JsValue,
    v = JObj [("price", price); ("unit", unit); ("source", source)] /\
    (price = JNull \/ exists x, price = JNum x) /\
    (unit = JNull \/ exists u, unit = JStr u).

(** Every cached value satisfies [P] for its key, and a computation that
    keeps a property of the state. *)
Definition cache_all (P : string -> JsValue -> Prop) (st : St) : Prop :=
  forall (k : string) (e : CacheEntry), cache st !! k = Some e -> P k (value e).

Definition keeps {A : Type} (I : St -> Prop) (m : M A) : Prop :=
  forall (w : World) (st : St), I st -> I (snd (m w st)).

(** What is cached under a key of the scraper is a scrape result. *)
Definition scrape_wf : St -> Prop :=
  cache_all (fun k v => scrape_key k = true -> scrape_result v).

(** The types of the scraped fields of a competitor entry. *)
Definition entry_typed (e : JsValue) : Prop :=
  (prop e "price" = JUndefined \/ prop e "price" = JNull \/ exists x, prop e "price" = JNum x) /\
  (prop e "unit" = JUndefined \/ prop e "unit" = JNull \/ exists u, prop e "unit" = JStr u) /\
  (prop e "availability" = JUndefined \/ prop e "availability" = JNull).

(** Nothing falsy is cached: a read that returns a falsy value found no
    live entry. *)
Definition cache_truthy : St -> Prop := cache_all (fun _ v => truthy v = true).

(** The letter x in either case, as the [i] flag of the unit pattern
    admits it. *)
Definition is_x (c : ascii) : bool := Ascii.eqb c "x" || Ascii.eqb c "X".


(** A unit as the scraper reports it: one or two digits, the letter x, one
    or two digits, and nothing else. *)
Definition unit_form (u : string) : bool :=
  match list_ascii_of_string u with
  | [a; x; b] => is_digit a && is_x x && is_digit b
  | [a; b; c; d] =>
      (is_digit a && is_digit b && is_x c && is_digit d) ||
      (is_digit a && is_x b && is_digit c && is_digit d)
  | [a; b; x; c; d] => is_digit a && is_digit b && is_x x && is_digit c && is_digit d
  | _ => false
  end.

(** The kinds of request, the number of requests of a kind issued so far,
    and a computation that issues at most [n] more of them. *)
Definition is_geocode (r : Request) : bool := match r with ReqGeocode _ => true | _ => false end.
Definition is_nearby (r : Request) : bool := match r with ReqNearby _ _ _ => true | _ => false end.
Definition is_details (r : Request) : bool := match r with ReqDetails _ => true | _ => false end.
Definition is_page (r : Request) : bool := match r with ReqPage _ => true | _ => false end.

Definition issued (c : Request -> bool) (st : St) : nat := length (List.filter c (log st)).

Definition grows {A : Type} (c : Request -> bool) (n : nat) (m : M A) : Prop :=
  forall (w : World) (st : St), (issued c (snd (m w st)) <= issued c st + n)%nat.

(** A radius the nearby search may carry: at most 40000 metres, or NaN
    when the radius of the request is not a number. *)
Definition capped (rad : float) : Prop :=
  isNaN rad = true \/ PrimFloat.leb rad 40000 = true.

(** The radius in metres that [placesNearby] sends for [radiusMiles]. *)
Definition search_radius {H : Host} (radiusMiles : JsValue) : float :=
  Math_round (Math_min 40000 (number_of radiusMiles * 1609.34)%float).

(** A computation all of whose requests satisfy [Q]. *)
Definition emits {A : Type} (Q : Request -> Prop) (m : M A) : Prop :=
  forall (w : World) (st : St),
    exists l : list Request, log (snd (m w st)) = log st ++ l /\ Forall Q l.

(** Equal as numbers: the same value, or two zeros (0 and -0 are equal in
    JavaScript, and JSON writes both as 0). *)
Definition same_number (x y : float) : Prop :=
  x = y \/ (PrimFloat.eqb x 0 = true /\ PrimFloat.eqb y 0 = true).

(** ** The frontend (src/frontend/src/App.jsx)

    The component [App] keeps seven pieces of state; its two handlers talk
    to the backend with [fetch].  A handler is modelled by the state it
    leaves when it has completed, together with the requests it sent. *)

Record AppState := {
  facilityName : string;
  address : string;
  radius : JsValue;
  competitors : JsValue;
  suggestion : JsValue;
  loading : bool;
  error : JsValue
}.

(** The state of the component when it is mounted. *)
Definition initial_state : AppState :=
  {| facilityName := ""; address := ""; radius := JNum 10; competitors := JArr [];
     suggestion := JNull; loading := false; error := JNull |}.

Definition setCompetitors (v : JsValue) (s : AppState) : AppState :=
  {| facilityName := facilityName s; address := address s; radius := radius s;
     competitors := v; suggestion := suggestion s; loading := loading s; error := error s |}.
Definition setSuggestion (v : JsValue) (s : AppState) : AppState :=
  {| facilityName := facilityName s; address := address s; radius := radius s;
     competitors := competitors s; suggestion := v; loading := loading s; error := error s |}.
Definition setLoading (b : bool) (s : AppState) : AppState :=
  {| facilityName := facilityName s; address := address s; radius := radius s;
     competitors := competitors s; suggestion := suggestion s; loading := b; error := error s |}.
Definition setError (v : JsValue) (s : AppState) : AppState :=
  {| facilityName := facilityName s; address := address s; radius := radius s;
     competitors := competitors s; suggestion := suggestion s; loading := loading s; error := v |}.

(** What [fetch] resolves to: the status of the response and its body as
    [res.json()] parses it, which fails on a body that is not JSON. *)
Record HttpResponse := { http_status : Z; http_json : Reply JsValue }.

(** [res.ok]: the status is in the range 200-299. *)
Definition res_ok (res : HttpResponse) : bool :=
  (200 <=? http_status res)%Z && (http_status res <=? 299)%Z.

(** The server as the browser sees it: the reply to a POST of a JSON body
    to a URL, or a network failure. *)
Definition Server : Type := string -> JsValue -> Reply HttpResponse.

(** [import.meta.env.VITE_API_URL || '/api']. *)
Definition API_BASE (VITE_API_URL : option string) : string :=
  match VITE_API_URL with
  | Some url => if String.eqb url "" then "/api" else url
  | None => "/api"
  end.

(** The bodies the handlers send: [JSON.stringify({facilityName, address,
    radius})] and [JSON.stringify({facilityName, competitors})]. *)
Definition scan_body (s : AppState) : JsValue :=
  to_json (JObj [("facilityName", JStr (facilityName s)); ("address", JStr (address s));
                 ("radius", radius s)]).
Definition suggest_body (s : AppState) : JsValue :=
  to_json (JObj [("facilityName", JStr (facilityName s)); ("competitors", competitors s)]).

(** [findCompetitors]: the state it leaves and the requests it sent. *)
Definition findCompetitors (base : string) (server : Server) (s : AppState)
    : AppState * list (string * JsValue) :=
  let s := setError JNull s in
  let s := setCompetitors (JArr []) s in
  let s := setSuggestion JNull s in
  if String.eqb (facilityName s) "" || String.eqb (address s) ""
  then (setError (JStr "Provide facility name and address/lat,lng") s, [])
  else
    let s := setLoading true s in
    let url := base +:+ "/scan" in
    let payload := scan_body s in
    let attempt : Outcome JsValue :=
      let? res := await (server url payload) in
      if negb (res_ok res) then Throw (Thrown "scan failed")
      else
        let? data := await (http_json res) in
        let? cs := get_prop data "competitors" in
        Ok (js_or cs (JArr [])) in
    let s :=
      match attempt with
      | Ok cs => setCompetitors cs s
      | Throw err => setError (JStr (message err)) s
      end in
    (setLoading false s, [(url, payload)]).

(** [suggestPrice]: the state it leaves and the requests it sent. *)
Definition suggestPrice (base : string) (server : Server) (s : AppState)
    : AppState * list (string * JsValue) :=
  let s := setLoading true s in
  let s := setError JNull s in
  let url := base +:+ "/suggest" in
  let payload := suggest_body s in
  let attempt : Outcome JsValue :=
    let? res := await (server url payload) in
    if negb (res_ok res) then Throw (Thrown "suggest failed")
    else await (http_json res) in
  let s :=
    match attempt with
    | Ok data => setSuggestion data s
    | Throw err => setError (JStr (message err)) s
    end in
  (setLoading false s, [(url, payload)]).

(** The response of a handler of the backend as the browser receives it. *)
Definition served (r : Response) : Reply HttpResponse :=
  Fulfilled {| http_status := status r; http_json := Fulfilled (body r) |}.

(** ** Further data of the examples *)

(** A world in which no place has a website: the details of every place
    hold a postal address only, and no other request is answered. *)
Definition no_website : World :=
  {| fetch := fun _ r =>
       match r with
       | ReqDetails _ =>
           Fulfilled (JObj [("result", JObj [("formatted_address", JStr "9 Oak Ave")])])
       | _ => Failed "unreachable"
       end;
     launch := fun _ => Fulfilled tt;
     browse := fun _ _ => Failed "unreachable";
     closing := fun _ _ => Fulfilled tt;
     latency := fun _ _ => 100%Z;
     launch_time := fun _ => 300%Z;
     closing_time := fun _ _ => 50%Z;
     timer_lag := fun _ _ => 0%Z |}.

(** A candidate as [placesNearby] returns it. *)
Definition candidate (place_id : string) : JsValue :=
  JObj [("place_id", JStr place_id); ("name", JStr "A Storage"); ("address", JStr "1 Main St");
        ("location", JUndefined); ("types", JUndefined); ("rating", JUndefined)].

(** The form filled in with a facility name and a coordinate pair. *)
Definition filled_form : AppState :=
  {| facilityName := "My Storage"; address := "35.1495,-90.0490"; radius := JNum 10;
     competitors := JArr []; suggestion := JNull; loading := false; error := JNull |}.

(** The backend behind the frontend, in the world [one_site_down] and in a
    process that has just started. *)
Definition backend {H : Host} : Server :=
  fun url payload =>
    if String.eqb url "/api/scan" then
      match fst (api_scan payload one_site_down fresh_state) with
      | Ok r => served r
      | Throw e => Failed (message e)
      end
    else if String.eqb url "/api/suggest" then served (api_suggest payload)
    else Failed "not found".


(* ===================================================================== *)
(** * Part II: lemmas and theorems                                        *)
(* ===================================================================== *)

(** ** The builtins on concrete inputs

    Each line is what a JavaScript engine answers for the same input. *)

Section Builtins.

Example StringToNumber_decimal :
  StringToNumber "89.99" = 89.99%float /\ StringToNumber " 12 " = 12%float /\
  StringToNumber "1e3" = 1000%float /\ StringToNumber "-.5" = (-0.5)%float /\
  StringToNumber "0x1F" = 31%float /\ StringToNumber "" = 0%float.
Proof. repeat split; vm_compute; reflexivity. Qed.

(** The bytes 226, 128, 137 are the thin space U+2009 and 194, 160 the
    no-break space U+00A0; 240, 159, 152, 128 are one character above the basic
    plane, two code units, and 237, 160, 128 the unpaired surrogate U+D800. *)
Example code_units_examples :
  code_units "a$ 9" = [97; 36; 32; 57]%N /\
  code_units (string_of_list_ascii (List.map ascii_of_N [226; 128; 137; 194; 160]%N)) =
    [8201; 160]%N /\
  code_units (string_of_list_ascii (List.map ascii_of_N [240; 159; 152; 128]%N)) =
    [55357; 56832]%N /\
  code_units (string_of_list_ascii (List.map ascii_of_N [237; 160; 128]%N)) = [55296]%N /\
  List.map byte (encode [97; 233; 8201; 55357; 56832; 55296; 65]%N) =
    [97; 195; 169; 226; 128; 137; 240; 159; 152; 128; 237; 160; 128; 65]%N /\
  decode (encode [97; 233; 8201; 55357; 56832; 55296; 65]%N) =
    [97; 233; 8201; 55357; 56832; 55296; 65]%N.
Proof. repeat split; vm_compute; reflexivity. Qed.

Example StringToNumber_trims :
  StringToNumber (string_of_list_ascii (List.map ascii_of_N [194; 160; 49; 50; 226; 128; 137]%N))
    = 12%float /\
  isNaN (StringToNumber (string_of_list_ascii (List.map ascii_of_N [49; 195; 169]%N))) = true.
Proof. split; vm_compute; reflexivity. Qed.

Example encodeURIComponent_examples :
  encodeURIComponent "12 Elm St, Memphis" = Ok "12%20Elm%20St%2C%20Memphis" /\
  encodeURIComponent (string_of_list_ascii (List.map ascii_of_N [99; 97; 102; 195; 169]%N))
    = Ok "caf%C3%A9" /\
  encodeURIComponent (string_of_list_ascii (List.map ascii_of_N [240; 159; 152; 128]%N))
    = Ok "%F0%9F%98%80" /\
  encodeURIComponent (string_of_list_ascii (List.map ascii_of_N [237; 160; 128]%N))
    = Throw (URIErr "URI malformed").
Proof. repeat split; vm_compute; reflexivity. Qed.

Example StringToNumber_not_numeric :
  List.map (fun s => isNaN (StringToNumber s)) ["abc"; "1,200"; "12px"; "."; "1e"; "$5"]
  = [true; true; true; true; true; true].
Proof. vm_compute. reflexivity. Qed.

Example Math_round_ties :
  Math_round 2.5 = 3%float /\ Math_round (-2.5) = (-2)%float /\
  Math_round 0.49999999999999994 = 0%float /\ Math_round 10339.999999999998 = 10340%float.
Proof. repeat split; vm_compute; reflexivity. Qed.

Example coordinate_re_examples :
  List.map (regex_test coordinate_re)
           ["35.1495,-90.0490"; "-1.0,2.0"; "35,-90"; "123 Main St"; " 1.0,2.0"; "1.0,2.0 "]
  = [true; true; false; false; false; false].
Proof. vm_compute. reflexivity. Qed.

Example price_re_examples :
  List.map (fun m => string_of_units (m_text m))
           (matchAll price_re "a $1,200.5 b $ 75 c $1234 d $12,34")
  = ["$1,200.5"; "$ 75"; "$123"; "$12"].
Proof. vm_compute. reflexivity. Qed.

Example unit_re_examples :
  option_map (fun m => string_of_units (m_text m)) (regex_exec unit_re "size 5 X 10ft")
  = Some "5 X 10" /\
  option_map (fun m => string_of_units (m_text m)) (regex_exec unit_re "abc 123x456")
  = Some "23x45".
Proof. split; vm_compute; reflexivity. Qed.

End Builtins.

(** ** The order of binary64 values *)

Section FloatOrder.
Local Open Scope Z_scope.

Lemma SFcompare_key (x y : spec_float) :
  x <> S754_nan -> y <> S754_nan ->
  SFcompare x y = Some (lexcmp (skey x) (skey y)).
Proof.
  intros Hx Hy.
  destruct x as [sx|sx| |sx mx ex], y as [sy|sy| |sy my ey]; try congruence;
    try solve [repeat match goal with b : bool |- _ => destruct b end; reflexivity].
  unfold SFcompare, skey, lexcmp. f_equal.
  destruct sx, sy; cbn [fst snd]; try reflexivity.
  change (-1 ?= -1) with Eq. cbv iota.
    rewrite Z.compare_opp, (Z.compare_antisym ex ey).
    destruct (ex ?= ey); reflexivity.
Qed.

Lemma lexcmp_le a b : lexcmp a b <> Gt <-> lexle a b.
Proof.
  unfold lexcmp, lexle.
  destruct (Z.compare_spec (fst (fst a)) (fst (fst b)));
    destruct (Z.compare_spec (snd (fst a)) (snd (fst b)));
    destruct (Z.compare_spec (snd a) (snd b));
    split; intros; try congruence; try lia.
Qed.

Lemma lexcmp_lt a b : lexcmp a b = Lt <-> lexlt a b.
Proof.
  unfold lexcmp, lexlt.
  destruct (Z.compare_spec (fst (fst a)) (fst (fst b)));
    destruct (Z.compare_spec (snd (fst a)) (snd (fst b)));
    destruct (Z.compare_spec (snd a) (snd b));
    split; intros; try congruence; try lia.
Qed.

Lemma SFcompare_refl (x : spec_float) : x <> S754_nan -> SFcompare x x = Some Eq.
Proof.
  intros Hx. rewrite SFcompare_key by assumption. f_equal.
  unfold lexcmp. rewrite !Z.compare_refl. reflexivity.
Qed.

Lemma isNaN_spec (x : float) :
  isNaN x = match Prim2SF x with S754_nan => true | _ => false end.
Proof.
  unfold isNaN, is_nan. rewrite FloatAxioms.eqb_spec. unfold SFeqb.
  destruct (Prim2SF x) eqn:E; try reflexivity;
    rewrite SFcompare_refl by congruence; reflexivity.
Qed.

Lemma not_nan_spec (x : float) : not_nan x <-> Prim2SF x <> S754_nan.
Proof.
  unfold not_nan. rewrite isNaN_spec. destruct (Prim2SF x); split; congruence.
Qed.

Lemma leb_key (x y : float) :
  fle x y <-> not_nan x /\ not_nan y /\ lexle (fkey x) (fkey y).
Proof.
  unfold fle, fkey. rewrite FloatAxioms.leb_spec, !not_nan_spec. unfold SFleb.
  destruct (Prim2SF x) eqn:Ex, (Prim2SF y) eqn:Ey;
    try (split; [discriminate | intros (? & ? & ?); congruence]).
  all: rewrite SFcompare_key by congruence; rewrite <- lexcmp_le.
  all: destruct (lexcmp _ _); intuition congruence.
Qed.

Lemma ltb_key (x y : float) :
  PrimFloat.ltb x y = true <-> not_nan x /\ not_nan y /\ lexlt (fkey x) (fkey y).
Proof.
  unfold fkey. rewrite FloatAxioms.ltb_spec, !not_nan_spec. unfold SFltb.
  destruct (Prim2SF x) eqn:Ex, (Prim2SF y) eqn:Ey;
    try (split; [discriminate | intros (? & ? & ?); congruence]).
  all: rewrite SFcompare_key by congruence; rewrite <- lexcmp_lt.
  all: destruct (lexcmp _ _); intuition congruence.
Qed.

Lemma fle_trans (x y z : float) : fle x y -> fle y z -> fle x z.
Proof.
  rewrite !leb_key. unfold lexle. intros (? & ? & ?) (? & ? & ?).
  repeat split; try assumption. lia.
Qed.

Lemma fle_total (x y : float) :
  not_nan x -> not_nan y -> PrimFloat.ltb y x = false -> fle x y.
Proof.
  intros Hx Hy Hlt. apply leb_key. repeat split; try assumption.
  destruct (PrimFloat.ltb y x) eqn:E; [discriminate|].
  assert (Hn : ~ lexlt (fkey y) (fkey x)).
  { intros Hl. assert (PrimFloat.ltb y x = true) by (apply ltb_key; auto). congruence. }
  unfold lexlt, lexle in *. lia.
Qed.

Lemma ltb_fle (x y : float) : PrimFloat.ltb x y = true -> fle x y.
Proof.
  rewrite ltb_key, leb_key. unfold lexlt, lexle. intros (? & ? & ?).
  repeat split; try assumption. lia.
Qed.

End FloatOrder.


(** ** The sign of a difference

    [a - b > 0] exactly when [a > b]: a difference of two binary64 values
    is never rounded to zero, and rounding keeps its sign. *)

Section FloatSub.
Local Open Scope Z_scope.

Lemma digits2_size p : digits2_pos p = Pos.size p.
Proof. induction p; simpl; congruence. Qed.

Lemma digits2_bounds p : 2 ^ (Z.pos (digits2_pos p) - 1) <= Z.pos p < 2 ^ Z.pos (digits2_pos p).
Proof.
  rewrite digits2_size. split.
  - pose proof (Pos.size_le p) as H.
    assert (Hs: Z.pos (2 ^ Pos.size p) = 2 ^ Z.pos (Pos.size p)) by (rewrite Pos2Z.inj_pow; reflexivity).
    assert (2 ^ Z.pos (Pos.size p) = 2 * 2 ^ (Z.pos (Pos.size p) - 1)).
    { rewrite <- Z.pow_succ_r by lia. f_equal. lia. }
    lia.
  - pose proof (Pos.size_gt p) as H.
    assert (Hs: Z.pos (2 ^ Pos.size p) = 2 ^ Z.pos (Pos.size p)) by (rewrite Pos2Z.inj_pow; reflexivity).
    lia.
Qed.

Lemma shr_1_m r : 0 <= shr_m r -> shr_m (shr_1 r) = shr_m r / 2.
Proof.
  destruct r as [m r s]; simpl. destruct m as [|[p|p|]|p]; simpl; intros H; try lia; try reflexivity.
  - apply Z.div_unique with 1; lia.
  - apply Z.div_unique with 0; lia.
Qed.

Lemma iter_pos_shr_m p : forall r, 0 <= shr_m r -> shr_m (SpecFloat.iter_pos shr_1 p r) = shr_m r / 2 ^ Z.pos p.
Proof.
  induction p as [p IH|p IH|]; intros r Hr; simpl SpecFloat.iter_pos.
  - assert (H1 : 0 <= shr_m (shr_1 r)) by (rewrite shr_1_m by lia; apply Z.div_pos; lia).
    rewrite IH, IH, shr_1_m; try lia.
    2: { rewrite IH by lia. apply Z.div_pos; lia. }
    rewrite !Z.div_div by lia. f_equal.
    rewrite Pos2Z.inj_xI. rewrite <- Z.pow_add_r by lia. rewrite <- (Z.pow_1_r 2) at 1.
    rewrite <- Z.pow_add_r by lia. f_equal. lia.
  - rewrite IH, IH; try lia.
    2: { rewrite IH by lia. apply Z.div_pos; lia. }
    rewrite !Z.div_div by lia. f_equal.
    rewrite Pos2Z.inj_xO. rewrite <- Z.pow_add_r by lia. f_equal. lia.
  - rewrite shr_1_m by lia. reflexivity.
Qed.

Lemma shr_fexp_pos m e l :
  0 < m -> emin <= e ->
  0 < shr_m (fst (shr_fexp prec emax m e l)) /\ emin <= snd (shr_fexp prec emax m e l).
Proof.
  intros Hm He. unfold shr_fexp, shr.
  destruct m as [|p|p]; try lia. simpl Zdigits2.
  pose proof (digits2_bounds p) as [Hlo Hhi].
  set (d := Z.pos (digits2_pos p)) in *.
  assert (Hd : 0 < d) by (unfold d; lia).
  unfold fexp, SpecFloat.emin, prec, emax in *.
  destruct (Z.max (d + e - 53) (3 - 1024 - 53) - e) as [|n|n] eqn:En; simpl.
  - split; [destruct l as [|[]]; simpl; lia | lia].
  - split; [|lia].
    rewrite iter_pos_shr_m by (destruct l as [|[]]; simpl; lia).
    assert (Hn : Z.pos n = d - 53) by lia.
    replace (shr_m (shr_record_of_loc (Z.pos p) l)) with (Z.pos p) by (destruct l as [|[]]; reflexivity).
    apply Z.div_str_pos. split; [apply Z.pow_pos_nonneg; lia|].
    transitivity (2 ^ (d - 1)); [|lia]. apply Z.pow_le_mono_r; lia.
  - split; [destruct l as [|[]]; simpl; lia | lia].
Qed.

Lemma round_nearest_even_ge m l : m <= round_nearest_even m l.
Proof. destruct l as [|[]]; simpl; try lia. destruct (Z.even m); lia. Qed.

Lemma binary_round_aux_sign s m e l :
  0 < m -> emin <= e ->
  (exists m' e', binary_round_aux prec emax s m e l = S754_finite s m' e') \/
  binary_round_aux prec emax s m e l = S754_infinity s.
Proof.
  intros Hm He. unfold binary_round_aux.
  pose proof (shr_fexp_pos m e l Hm He) as [H1 H2].
  destruct (shr_fexp prec emax m e l) as [r1 e1]. simpl in H1, H2.
  pose proof (round_nearest_even_ge (shr_m r1) (loc_of_shr_record r1)) as Hr.
  pose proof (shr_fexp_pos (round_nearest_even (shr_m r1) (loc_of_shr_record r1)) e1 loc_Exact ltac:(lia) H2) as [H3 H4].
  destruct (shr_fexp prec emax _ e1 loc_Exact) as [r2 e2]. simpl in H3, H4.
  destruct (shr_m r2) as [|q|q]; try lia.
  destruct (e2 <=? emax - prec); [left; eauto | right; reflexivity].
Qed.

Lemma Pos_iter_xO m d : Z.pos (Pos.iter xO m d) = Z.pos m * 2 ^ Z.pos d.
Proof.
  apply (Pos.iter_ind _ xO m (fun p a => Z.pos a = Z.pos m * 2 ^ Z.pos p)).
  - rewrite Pos2Z.inj_xO. rewrite Z.pow_1_r. lia.
  - intros p a' IH. rewrite Pos2Z.inj_xO, IH, Pos2Z.inj_succ, Z.pow_succ_r by lia. lia.
Qed.

Lemma shl_align_fst m e e' :
  e' <= e -> Z.pos (fst (shl_align m e e')) = Z.pos m * 2 ^ (e - e').
Proof.
  intros H. unfold shl_align. destruct (e' - e) as [|d|d] eqn:E; simpl.
  - replace (e - e') with 0 by lia. rewrite Z.pow_0_r. lia.
  - lia.
  - rewrite Pos_iter_xO. replace (e - e') with (Z.pos d) by lia. reflexivity.
Qed.

Lemma shl_align_snd m e e' : emin <= e -> emin <= e' -> emin <= snd (shl_align m e e').
Proof. intros. unfold shl_align. destruct (e' - e); simpl; lia. Qed.

Lemma binary_round_sign s m e :
  emin <= e ->
  (exists m' e', binary_round prec emax s m e = S754_finite s m' e') \/
  binary_round prec emax s m e = S754_infinity s.
Proof.
  intros He. unfold binary_round.
  pose proof (shl_align_snd m e (fexp prec emax (Z.pos (digits2_pos m) + e)) He) as H.
  destruct (shl_align m e _) as [mz ez]. simpl in H.
  apply binary_round_aux_sign; [lia|]. apply H.
  unfold fexp, SpecFloat.emin in *. lia.
Qed.

Lemma bounded_inv m e :
  bounded prec emax m e = true ->
  emin <= e /\ Z.pos m < 2 ^ 53 /\ (emin < e -> 2 ^ 52 <= Z.pos m).
Proof.
  unfold bounded, canonical_mantissa, fexp, SpecFloat.emin, prec, emax.
  intros H. apply andb_prop in H as [H1 H2]. apply Z.eqb_eq in H1. apply Z.leb_le in H2.
  pose proof (digits2_bounds m) as [Hlo Hhi].
  set (d := Z.pos (digits2_pos m)) in *. 
  assert (Hd : d <= 53) by lia.
  split; [lia|]. split.
  - eapply Z.lt_le_trans; [apply Hhi|]. apply Z.pow_le_mono_r; lia.
  - intros He. assert (d = 53) by lia. subst d. rewrite H in Hlo. exact Hlo.
Qed.

Lemma magnitude_compare mx ex my ey :
  bounded prec emax mx ex = true -> bounded prec emax my ey = true ->
  (Z.pos mx * 2 ^ (ex - Z.min ex ey) ?= Z.pos my * 2 ^ (ey - Z.min ex ey)) =
  match ex ?= ey with
  | Lt => Lt
  | Gt => Gt
  | Eq => Pos.compare_cont Eq mx my
  end.
Proof.
  intros Hx Hy.
  apply bounded_inv in Hx as (Hx1 & Hx2 & Hx3), Hy as (Hy1 & Hy2 & Hy3).
  destruct (Z.compare_spec ex ey) as [E|E|E].
  - subst. rewrite Z.min_id, Z.sub_diag. simpl. rewrite !Pos.mul_1_r. reflexivity.
  - rewrite Z.min_l, Z.sub_diag by lia. rewrite Z.pow_0_r, Z.mul_1_r.
    apply Z.compare_lt_iff.
    assert (2 ^ 1 <= 2 ^ (ey - ex)) by (apply Z.pow_le_mono_r; lia).
    specialize (Hy3 ltac:(lia)). nia.
  - rewrite Z.min_r, Z.sub_diag by lia. rewrite Z.pow_0_r, Z.mul_1_r.
    apply Z.compare_gt_iff.
    assert (2 ^ 1 <= 2 ^ (ex - ey)) by (apply Z.pow_le_mono_r; lia).
    specialize (Hx3 ltac:(lia)). nia.
Qed.

Lemma SFcompare_finite sx mx ex sy my ey :
  bounded prec emax mx ex = true -> bounded prec emax my ey = true ->
  SFcompare (S754_finite sx mx ex) (S754_finite sy my ey) =
  Some (scaled sx mx ex (Z.min ex ey) ?= scaled sy my ey (Z.min ex ey)).
Proof.
  intros Hx Hy. unfold scaled. rewrite !shl_align_fst by lia.
  pose proof (magnitude_compare mx ex my ey Hx Hy) as H.
  assert (Px : 0 < Z.pos mx * 2 ^ (ex - Z.min ex ey)) by (apply Z.mul_pos_pos; [lia|apply Z.pow_pos_nonneg; lia]).
  assert (Py : 0 < Z.pos my * 2 ^ (ey - Z.min ex ey)) by (apply Z.mul_pos_pos; [lia|apply Z.pow_pos_nonneg; lia]).
  set (X := Z.pos mx * 2 ^ (ex - Z.min ex ey)) in *.
  set (Y := Z.pos my * 2 ^ (ey - Z.min ex ey)) in *.
  unfold SFcompare. f_equal. destruct sx, sy; unfold cond_Zopp.
  - rewrite Z.compare_opp, (Z.compare_antisym X Y), H.
    destruct (ex ?= ey); reflexivity.
  - symmetry. apply Z.compare_lt_iff. lia.
  - symmetry. apply Z.compare_gt_iff. lia.
  - rewrite H. reflexivity.
Qed.

Lemma SFsub_positive x y :
  valid_binary x = true -> valid_binary y = true ->
  SFltb (S754_zero false) (SF64sub x y) = SFltb y x.
Proof.
  intros Vx Vy. unfold SF64sub.
  destruct x as [sx|sx| |sx mx ex], y as [sy|sy| |sy my ey];
    try solve [repeat match goal with b : bool |- _ => destruct b end; reflexivity].
  simpl in Vx, Vy. unfold SFltb at 2.
  rewrite (SFcompare_finite sy my ey sx mx ex Vy Vx).
  unfold SFsub. rewrite (Z.min_comm ey ex). fold (scaled sx mx ex (Z.min ex ey)). fold (scaled sy my ey (Z.min ex ey)).
  set (X := scaled sx mx ex (Z.min ex ey)). set (Y := scaled sy my ey (Z.min ex ey)).
  assert (Hz : emin <= Z.min ex ey).
  { apply bounded_inv in Vx, Vy. lia. }
  unfold binary_normalize.
  destruct (X - Y) as [|d|d] eqn:E.
  - assert ((Y ?= X) = Eq) by (apply Z.compare_eq_iff; lia). rewrite H. reflexivity.
  - assert ((Y ?= X) = Lt) by (apply Z.compare_lt_iff; lia). rewrite H.
    destruct (binary_round_sign false d (Z.min ex ey) Hz) as [(m' & e' & R)|R]; rewrite R; reflexivity.
  - assert ((Y ?= X) = Gt) by (apply Z.compare_gt_iff; lia). rewrite H.
    destruct (binary_round_sign true d (Z.min ex ey) Hz) as [(m' & e' & R)|R]; rewrite R; reflexivity.
Qed.

Lemma sub_positive (x y : float) : (0 <? x - y)%float = (y <? x)%float.
Proof.
  rewrite !FloatAxioms.ltb_spec, FloatAxioms.sub_spec. change (Prim2SF 0) with (S754_zero false).
  apply SFsub_positive; apply Prim2SF_valid.
Qed.

End FloatSub.


(** ** Sorting and the median (source lines 45-51) *)

Section Median.

Lemma sort_insert_perm cmp x l : Permutation (x :: l) (sort_insert cmp x l).
Proof.
  induction l as [|y l IH]; simpl; [reflexivity|].
  destruct (PrimFloat.ltb 0 (cmp x y)); [|reflexivity].
  rewrite perm_swap. apply perm_skip, IH.
Qed.

Lemma sort_perm cmp l : Permutation l (sort cmp l).
Proof.
  induction l as [|x l IH]; simpl; [reflexivity|].
  rewrite <- sort_insert_perm. apply perm_skip, IH.
Qed.

Lemma sort_length cmp l : length (sort cmp l) = length l.
Proof. symmetry. apply Permutation_length, sort_perm. Qed.

Lemma sort_insert_sorted x l :
  not_nan x -> Forall not_nan l -> StronglySorted fle l ->
  StronglySorted fle (sort_insert cmp_sub x l).
Proof.
  intros Hx Hl Hs. induction Hs as [|y l Hs IH Hy]; simpl.
  - repeat constructor.
  - apply Forall_cons_1 in Hl as [Hny Hl].
    unfold cmp_sub at 1. rewrite sub_positive.
    destruct (PrimFloat.ltb y x) eqn:E.
    + constructor; [apply IH, Hl|].
      rewrite <- sort_insert_perm. constructor; [apply ltb_fle, E | exact Hy].
    + assert (Hxy : fle x y) by (apply fle_total; assumption).
      constructor; [constructor; assumption|].
      constructor; [exact Hxy|].
      eapply Forall_impl; [exact Hy|]. intros z Hz. eapply fle_trans; eassumption.
Qed.

Lemma nth_lookup_lt (l : list float) (i : nat) :
  (i < length l)%nat -> l !! i = Some (nth i l nan).
Proof.
  intros Hi. destruct (nth_lookup_or_length l i nan) as [E|E]; [exact E | lia].
Qed.

Lemma sort_sorted l : Forall not_nan l -> StronglySorted fle (sort cmp_sub l).
Proof.
  induction l as [|x l IH]; intros Hl; simpl; [constructor|].
  apply Forall_cons_1 in Hl as [Hx Hl].
  apply sort_insert_sorted; [assumption| |apply IH, Hl].
  rewrite <- sort_perm. exact Hl.
Qed.

Lemma median_unfold arr :
  arr <> [] ->
  median arr =
  let s := sort cmp_sub arr in
  let n := length arr in
  Some (if Nat.even n then (nth (n / 2 - 1) s nan + nth (n / 2) s nan) / 2
        else nth (n / 2) s nan)%float.
Proof.
  intros Hne. unfold median. fold cmp_sub. rewrite sort_length.
  destruct arr as [|x arr]; [congruence|]. set (l := x :: arr).
  change (length l =? 0)%nat with false. cbv iota zeta.
  replace (length l mod 2 =? 0)%nat with (Nat.even (length l)); [destruct (Nat.even _); reflexivity|].
  destruct (Nat.even (length l)) eqn:E; symmetry.
  - apply Nat.eqb_eq. apply Nat.even_spec in E. destruct E as [k ->].
    rewrite Nat.mul_comm. apply Nat.Div0.mod_mul.
  - apply Nat.eqb_neq. intros Hm.
    assert (Nat.even (length l) = true); [|congruence].
    apply Nat.even_spec. exists (length l / 2)%nat.
    rewrite (Nat.div_mod_eq (length l) 2) at 1. lia.
Qed.

(** C3. [median] of the empty list is absent; [median [5] = 5],
    [median [1,3] = 2], [median [1,2,3] = 2], [median [1,2,3,4] = 2.5]; and
    for every non-empty list [arr] the list [s] that [median] sorts is a
    permutation of [arr], is in ascending order when no element is NaN, and
    [median arr] is the middle element of [s] when the count is odd, the
    arithmetic mean of the two middle elements when it is even. *)
Theorem median_spec :
  median [] = None /\
  median [5%float] = Some 5%float /\
  median [1%float; 3%float] = Some 2%float /\
  median [1%float; 2%float; 3%float] = Some 2%float /\
  median [1%float; 2%float; 3%float; 4%float] = Some 2.5%float /\
  forall arr : list float, arr <> [] ->
    let s := sort (fun a b => a - b)%float arr in
    let n := length arr in
    Permutation arr s /\
    (Forall not_nan arr -> StronglySorted fle s) /\
    (Nat.odd n = true ->
       exists a, s !! (n / 2)%nat = Some a /\ median arr = Some a) /\
    (Nat.even n = true ->
       exists a b, s !! (n / 2 - 1)%nat = Some a /\ s !! (n / 2)%nat = Some b /\
                   median arr = Some ((a + b) / 2)%float).
Proof.
  repeat (split; [vm_compute; reflexivity|]).
  intros arr Hne s n.
  assert (Hlen : length s = n) by apply sort_length.
  assert (Hn : (0 < n)%nat) by (subst n; destruct arr; simpl; [congruence | lia]).
  assert (Hhalf : (n / 2 < n)%nat) by (apply Nat.div_lt; lia).
  pose proof (median_unfold arr Hne) as Hm. cbv zeta in Hm. fold s n in Hm.
  split; [apply sort_perm|]. split; [apply sort_sorted|]. split.
  - intros Hodd. exists (nth (n / 2) s nan). split.
    + apply nth_lookup_lt. rewrite Hlen. exact Hhalf.
    + rewrite Hm. rewrite <- Nat.negb_odd, Hodd. reflexivity.
  - intros Heven. exists (nth (n / 2 - 1) s nan), (nth (n / 2) s nan).
    split; [apply nth_lookup_lt; rewrite Hlen; clearbody n; lia|].
    split; [apply nth_lookup_lt; rewrite Hlen; exact Hhalf|].
    rewrite Hm, Heven. reflexivity.
Qed.

(** The median of [4, 1, 3, 2]: a non-empty list without NaN, of even
    count. *)
Lemma median_spec_witness :
  [4%float; 1%float; 3%float; 2%float] <> [] /\
  StronglySorted fle (sort (fun a b => a - b)%float [4%float; 1%float; 3%float; 2%float]) /\
  median [4%float; 1%float; 3%float; 2%float] = Some 2.5%float.
Proof.
  destruct median_spec as (_ & _ & _ & _ & _ & H).
  specialize (H [4%float; 1%float; 3%float; 2%float] ltac:(discriminate)).
  cbv zeta in H. destruct H as (_ & Hs & _ & He).
  split; [discriminate|]. split.
  - apply Hs. repeat constructor.
  - destruct (He eq_refl) as (a & b & Ha & Hb & ->).
    vm_compute in Ha, Hb. injection Ha as <-. injection Hb as <-.
    vm_compute. reflexivity.
Defined.

End Median.


(** ** [median] does not touch its argument *)

Section MedianByRef.

Lemma fresh_not_allocated (h : Heap) (a : positive) (l : list float) :
  h !! a = Some l -> a <> fresh (dom h).
Proof.
  intros Ha ->. apply (is_fresh (dom h)). eapply elem_of_dom_2, Ha.
Qed.

(** Run on a reference to [l], [median_by_ref] returns [median l] and
    leaves the heap as it was, but for the sorted copy it allocates. *)
Lemma median_by_ref_run (h : Heap) (arr : positive) (l : list float) :
  h !! arr = Some l ->
  median_by_ref arr h =
  (median l, if (length l =? 0)%nat then h else <[fresh (dom h) := sort cmp_sub l]> h).
Proof.
  intros Ha. unfold median_by_ref, median, array_length, array_slice, array_sort, array_get.
  rewrite Ha. change (default [] (Some l)) with l.
  destruct (length l =? 0)%nat eqn:E; [reflexivity|].
  cbv beta iota zeta. fold cmp_sub. rewrite alter_insert_eq, lookup_insert_eq.
  change (default [] (Some (sort cmp_sub l))) with (sort cmp_sub l).
  destruct (length (sort cmp_sub l) mod 2 =? 0)%nat; reflexivity.
Qed.

(** C10. [median] leaves its argument unchanged: after the call the
    caller's array, and every other array that existed before the call,
    holds the same elements in the same order; the value returned is the
    median of those elements. *)
Theorem median_leaves_argument_unchanged (h : Heap) (arr : positive) (l : list float) :
  h !! arr = Some l ->
  snd (median_by_ref arr h) !! arr = Some l /\
  fst (median_by_ref arr h) = median l /\
  forall (a : positive) (l' : list float),
    h !! a = Some l' -> snd (median_by_ref arr h) !! a = Some l'.
Proof.
  intros Ha. rewrite (median_by_ref_run h arr l Ha). cbn [fst snd].
  assert (Hframe : forall a l', h !! a = Some l' ->
            (if (length l =? 0)%nat then h else <[fresh (dom h) := sort cmp_sub l]> h) !! a = Some l').
  { intros a l' Hl'. destruct (length l =? 0)%nat; [exact Hl'|].
    rewrite lookup_insert_ne; [exact Hl'|].
    intros E. symmetry in E. revert E. eapply fresh_not_allocated, Hl'. }
  split; [apply Hframe, Ha|]. split; [reflexivity|]. exact Hframe.
Qed.

(** The caller's array [3, 1, 2] at reference 1, beside another array. *)
Lemma median_leaves_argument_unchanged_witness :
  let h : Heap := <[1%positive := [3%float; 1%float; 2%float]]> (<[2%positive := [9%float]]> ∅) in
  snd (median_by_ref 1 h) !! 1%positive = Some [3%float; 1%float; 2%float] /\
  fst (median_by_ref 1 h) = Some 2%float.
Proof.
  intros h.
  destruct (median_leaves_argument_unchanged h 1 [3%float; 1%float; 2%float] eq_refl)
    as (H1 & H2 & _).
  split; [exact H1|]. rewrite H2. vm_compute. reflexivity.
Defined.

End MedianByRef.


(** ** The cache (source lines 33-43) *)

Section Cache.
Local Open Scope Z_scope.

Lemma getCache_fresh (w : World) (st : St) (k : string) (e : CacheEntry) :
  cache st !! k = Some e -> now st <= exp e ->
  getCache k w st = (Ok (value e), st).
Proof.
  intros He Hle. unfold getCache. rewrite He.
  destruct (exp e <? now st) eqn:E; [apply Z.ltb_lt in E; lia | reflexivity].
Qed.

Lemma getCache_expired (w : World) (st : St) (k : string) (e : CacheEntry) :
  cache st !! k = Some e -> exp e < now st ->
  getCache k w st =
  (Ok JNull, {| cache := delete k (cache st); hostLock := hostLock st;
                now := now st; log := log st |}).
Proof.
  intros He Hlt. unfold getCache. rewrite He.
  destruct (exp e <? now st) eqn:E; [reflexivity | apply Z.ltb_ge in E; lia].
Qed.

(** C5. After [setCache k v ttl] at time [now st], a [getCache k] at time
    [now st2], the entry being the one that was set: when at most [ttl]
    seconds have elapsed it returns [v] and changes nothing; when more have
    elapsed it returns [null] and removes the entry, which no longer counts
    in the size of the cache.  In any state, an entry past its expiry is not
    returned. *)
Theorem cache_entry_lifetime (w : World) (st st2 : St) (k : string) (v : JsValue) (ttl : Z) :
  cache st2 !! k = cache (snd (setCache k v ttl w st)) !! k ->
  (now st2 - now st <= ttl * 1000 -> getCache k w st2 = (Ok v, st2)) /\
  (ttl * 1000 < now st2 - now st ->
     fst (getCache k w st2) = Ok JNull /\
     cache (snd (getCache k w st2)) !! k = None /\
     cache (snd (getCache k w st2)) = delete k (cache st2) /\
     S (size (cache (snd (getCache k w st2)))) = size (cache st2)) /\
  (forall (st' : St) (e : CacheEntry),
     cache st' !! k = Some e -> exp e < now st' -> fst (getCache k w st') = Ok JNull).
Proof.
  intros Hk. cbn [setCache snd cache] in Hk. rewrite lookup_insert_eq in Hk.
  split; [|split].
  - intros Hle. rewrite (getCache_fresh w st2 k _ Hk); [reflexivity|]. cbn [exp]. lia.
  - intros Hgt. rewrite (getCache_expired w st2 k _ Hk) by (cbn [exp]; lia).
    cbn [fst snd cache]. split; [reflexivity|]. split; [apply lookup_delete_eq|].
    split; [reflexivity|].
    assert (Hs : is_Some (cache st2 !! k)) by (rewrite Hk; eauto).
    rewrite (map_size_delete_Some k (cache st2) Hs).
    pose proof (map_size_ne_0_lookup_2 (cache st2) k Hs). lia.
  - intros st' e He Hlt. rewrite (getCache_expired w st' k e He Hlt). reflexivity.
Qed.

End Cache.

(** ** The politeness throttle (source lines 100-110) *)

Section Throttle.
Local Open Scope Z_scope.

Lemma politeWaitForHost_run (w : World) (h : string) (st : St) :
  let last := default 0 (hostLock st !! h) in
  let t := now st in
  let t' := if t - last <? gap
            then t + (gap - (t - last)) + timer_lag w t (gap - (t - last)) else t in
  politeWaitForHost h w st =
  (Ok tt, {| cache := cache st; hostLock := <[h := t']> (hostLock st);
             now := t'; log := log st |}).
Proof.
  cbv zeta. unfold politeWaitForHost, polite_enter, polite_leave, bind, hostLock_get,
    hostLock_set, Date_now, sleep, ret.
  destruct (now st - default 0 (hostLock st !! h) <? gap); reflexivity.
Qed.

(** Calls that run one after another.  When the timer does not fire early:
    a call of [politeWaitForHost h] that starts once the previous call for [h]
    has completed, and sees the time stamp that call recorded, completes at
    least 2000 ms after it completed.  A call for another host [h'] is not
    affected by the time stamp of [h], and does not wait at all when [h'] has
    no recent request. *)
Lemma polite_wait_spacing (w : World) (h : string) (st st' : St) :
  (forall t d, 0 <= timer_lag w t d) ->
  hostLock st' !! h = hostLock (snd (politeWaitForHost h w st)) !! h ->
  now (snd (politeWaitForHost h w st)) <= now st' ->
  now (snd (politeWaitForHost h w st)) + 2000 <= now (snd (politeWaitForHost h w st')) /\
  (forall (h' : string) (t : Z) (s : St), h' <> h ->
     now (snd (politeWaitForHost h' w
                 {| cache := cache s; hostLock := <[h := t]> (hostLock s);
                    now := now s; log := log s |})) =
     now (snd (politeWaitForHost h' w s))) /\
  (forall (h' : string) (s : St),
     gap <= now s - default 0 (hostLock s !! h') ->
     now (snd (politeWaitForHost h' w s)) = now s).
Proof.
  intros Hlag Hlock Hnow. split; [|split].
  - revert Hlock Hnow. rewrite (politeWaitForHost_run w h st).
    rewrite (politeWaitForHost_run w h st'). cbv zeta. cbn [snd now hostLock].
    rewrite lookup_insert_eq. intros -> Hnow. cbn [default from_option id].
    set (c1 := if _ <? gap then _ else now st) in *.
    change (default 0 (Some c1)) with c1.
    unfold gap. destruct (now st' - c1 <? 2000) eqn:E.
    + specialize (Hlag (now st') (2000 - (now st' - c1))). lia.
    + apply Z.ltb_ge in E. lia.
  - intros h' t s Hne. rewrite !politeWaitForHost_run. cbv zeta. cbn [snd now hostLock].
    rewrite lookup_insert_ne by congruence. reflexivity.
  - intros h' s Hold. rewrite politeWaitForHost_run. cbv zeta. cbn [snd now].
    destruct (now s - default 0 (hostLock s !! h') <? gap) eqn:E; [|reflexivity].
    apply Z.ltb_lt in E. lia.
Qed.

(** A call that is alone in the event loop is [politeWaitForHost]: it
    enters, and when it has to wait its timer fires after the wait and the
    lag of the timer. *)
Lemma run_loop_one_call (w : World) (h : string) (st : St) :
  (forall t d, 0 <= timer_lag w t d) ->
  let l0 := {| loop_state := st; suspended := []; completed := [] |} in
  let l1 := match fst (polite_enter h w st) with
            | Ok (Some d) => run_loop w [Enter h; Pass (d + timer_lag w (now st) d); Fire 0] l0
            | _ => run_loop w [Enter h] l0
            end in
  loop_state l1 = snd (politeWaitForHost h w st) /\
  suspended l1 = [] /\
  completed l1 = [(h, now (snd (politeWaitForHost h w st)))].
Proof.
  intros Hlag. cbv zeta. rewrite politeWaitForHost_run. cbv zeta.
  unfold polite_enter, bind, hostLock_get, Date_now, ret. cbn [fst snd].
  destruct (now st - default 0 (hostLock st !! h) <? gap) eqn:E.
  - pose proof (proj1 (Z.ltb_lt _ _) E) as Elt.
    set (d := gap - (now st - default 0 (hostLock st !! h))) in *.
    assert (Hd : 0 <= d + timer_lag w (now st) d).
    { specialize (Hlag (now st) d). unfold d, gap in *. lia. }
    unfold run_loop. cbn [fold_left loop_step].
    unfold polite_enter, bind, hostLock_get, Date_now, ret. cbn [fst snd loop_state].
    fold d. rewrite E. cbn [loop_state suspended completed app].
    cbn [lookup list_lookup timer_due timer_host later now].
    rewrite Z.max_r by exact Hd.
    assert (Hdue : (now st + d <=? now st + (d + timer_lag w (now st) d)) = true).
    { apply Z.leb_le. specialize (Hlag (now st) d). lia. }
    rewrite Hdue. unfold complete, polite_leave, bind, Date_now, hostLock_set.
    cbn [fst snd loop_state suspended completed now hostLock cache log later app delete
         list_delete].
    rewrite Z.add_assoc. repeat split.
  - unfold run_loop. cbn [fold_left loop_step].
    unfold polite_enter, bind, hostLock_get, Date_now, ret. cbn [fst snd loop_state].
    rewrite E. unfold complete, polite_leave, bind, Date_now, hostLock_set.
    cbn [fst snd loop_state suspended completed now hostLock cache log app].
    repeat split.
Qed.

(** C9 on the code: the time stamp of a host is written when a call
    completes (line 109), not when it starts to wait.  Three calls for one
    host that are in flight together, as those of overlapping scan requests,
    do not keep the interval: the first completes at once, the second and the
    third both read the time stamp of the first, wait for the same moment and
    complete together, 0 ms apart.  So it is when the third call starts half a
    second after the second, and when two calls find a time stamp that is one
    second old.  Two calls issued back to back are 2000 ms apart. *)
Theorem polite_wait_overlapping_calls :
  completed (run_loop one_site_down
               [Enter "example.com"; Enter "example.com"; Enter "example.com";
                Pass 2000; Fire 0; Fire 0]
               {| loop_state := fresh_state; suspended := []; completed := [] |}) =
    [("example.com", 1700000000000); ("example.com", 1700000002000);
     ("example.com", 1700000002000)] /\
  completed (run_loop one_site_down
               [Enter "example.com"; Enter "example.com"; Pass 500; Enter "example.com";
                Pass 1500; Fire 0; Fire 0]
               {| loop_state := fresh_state; suspended := []; completed := [] |}) =
    [("example.com", 1700000000000); ("example.com", 1700000002000);
     ("example.com", 1700000002000)] /\
  completed (run_loop one_site_down
               [Enter "example.com"; Enter "example.com"; Pass 1000; Fire 0; Fire 0]
               {| loop_state :=
                    {| cache := ∅; hostLock := {["example.com" := 1699999999000]};
                       now := 1700000000000; log := [] |};
                  suspended := []; completed := [] |}) =
    [("example.com", 1700000001000); ("example.com", 1700000001000)] /\
  completed (run_loop one_site_down
               [Enter "example.com"; Enter "example.com"; Pass 2000; Fire 0]
               {| loop_state := fresh_state; suspended := []; completed := [] |}) =
    [("example.com", 1700000000000); ("example.com", 1700000002000)].
Proof. repeat split; vm_compute; reflexivity. Qed.

End Throttle.


(** ** Strings and their code units *)

Section Units.
Local Open Scope N_scope.

Lemma ascii_not_cont (c : ascii) : byte c < 128 -> is_cont c = false.
Proof. intros H. unfold is_cont. apply andb_false_iff. left. apply N.leb_gt. exact H. Qed.

(** An ASCII byte is a code unit of its own wherever it stands. *)
Lemma decode_app_ascii (c : ascii) (t : list ascii) :
  byte c < 128 ->
  forall l, decode (l ++ c :: t) = decode l ++ byte c :: decode t.
Proof.
  intros Hc l. pose proof (ascii_not_cont c Hc) as Hn. apply N.ltb_lt in Hc.
  remember (length l) as n eqn:Hlen. revert l Hlen.
  induction n as [n IH] using lt_wf_ind. intros l Hlen.
  assert (IH' : forall l', (length l' < length l)%nat ->
                           decode (l' ++ c :: t) = decode l' ++ byte c :: decode t).
  { intros l' Hl'. apply (IH (length l')); [lia | reflexivity]. }
  clear IH Hlen.
  destruct l as [|b0 l1]; [cbn [app decode]; rewrite Hc; reflexivity|].
  cbn [app decode]. cbv zeta.
  destruct (byte b0 <? 128); [rewrite IH' by (cbn; lia); reflexivity|].
  rewrite (IH' l1) by (cbn; lia).
  destruct l1 as [|b1 l2]; [cbn [app decode]; rewrite ?Hn, ?Hc; reflexivity|].
  cbn [app]. destruct (is_cont b1); cbn [negb]; [|reflexivity].
  destruct (byte b0 <? 224).
  { destruct (194 <=? byte b0); [rewrite IH' by (cbn; lia)|]; reflexivity. }
  destruct l2 as [|b2 l3]; [cbn [app]; rewrite Hn; reflexivity|].
  cbn [app]. destruct (is_cont b2); cbn [negb]; [|reflexivity].
  destruct (byte b0 <? 240).
  { destruct (2048 <=? _); [rewrite IH' by (cbn; lia)|]; reflexivity. }
  destruct l3 as [|b3 l4]; [cbn [app]; rewrite Hn; reflexivity|].
  cbn [app]. destruct (is_cont b3 && _ && _ && _); [|reflexivity].
  rewrite IH' by (cbn; lia). rewrite <- app_assoc. reflexivity.
Qed.

(** The code units of a string are its ASCII bytes and code units from
    128 on. *)
Lemma decode_Forall (P : N -> Prop) (l : list ascii) :
  (forall u, 128 <= u -> P u) ->
  Forall (fun c => P (byte c)) l -> Forall P (decode l).
Proof.
  intros Hhigh. remember (length l) as n eqn:Hlen. revert l Hlen.
  induction n as [n IH] using lt_wf_ind. intros l Hlen Hl.
  assert (IH' : forall l', (length l' < length l)%nat ->
                           Forall (fun c => P (byte c)) l' -> Forall P (decode l')).
  { intros l' Hl'. apply (IH (length l')); [lia | reflexivity]. }
  clear IH Hlen.
  destruct l as [|b0 l1]; [constructor|].
  apply Forall_cons_1 in Hl as [H0 H1]. cbn [decode]. cbv zeta.
  assert (Hbad : Forall P (replacement :: decode l1)).
  { constructor; [apply Hhigh; unfold replacement; lia | apply IH'; [cbn; lia | exact H1]]. }
  destruct (byte b0 <? 128) eqn:E0.
  { constructor; [exact H0 | apply IH'; [cbn; lia | exact H1]]. }
  apply N.ltb_ge in E0.
  destruct l1 as [|b1 l2]; [exact Hbad|].
  apply Forall_cons_1 in H1 as [_ H2].
  destruct (is_cont b1) eqn:C1; cbn [negb]; [|exact Hbad].
  destruct (byte b0 <? 224).
  { destruct (194 <=? byte b0) eqn:E1; [|exact Hbad]. apply N.leb_le in E1.
    constructor; [apply Hhigh; lia | apply IH'; [cbn; lia | exact H2]]. }
  destruct l2 as [|b2 l3]; [exact Hbad|].
  apply Forall_cons_1 in H2 as [_ H3].
  destruct (is_cont b2); cbn [negb]; [|exact Hbad].
  destruct (byte b0 <? 240).
  { destruct (2048 <=? _) eqn:E2; [|exact Hbad]. apply N.leb_le in E2.
    constructor; [apply Hhigh; lia | apply IH'; [cbn; lia | exact H3]]. }
  destruct l3 as [|b3 l4]; [exact Hbad|].
  apply Forall_cons_1 in H3 as [_ H4].
  destruct (is_cont b3 && _ && _ && _) eqn:E3; [|exact Hbad].
  apply andb_true_iff in E3 as [E3 _]. apply andb_true_iff in E3 as [_ E3].
  apply N.leb_le in E3.
  apply Forall_app. split; [|apply IH'; [cbn; lia | exact H4]].
  unfold units_of_code_point. destruct (_ <? 65536) eqn:E4.
  - apply N.ltb_lt in E4. lia.
  - constructor; [apply Hhigh, N.le_trans with 55296; [lia | apply N.le_add_r]|].
    constructor; [apply Hhigh, N.le_trans with 56320; [lia | apply N.le_add_r] | constructor].
Qed.

Lemma byte_ascii_of_N (u : N) : u < 256 -> byte (ascii_of_N u) = u.
Proof. intros H. unfold byte. apply N_ascii_embedding. exact H. Qed.

Lemma ascii_of_N_byte (c : ascii) : ascii_of_N (byte c) = c.
Proof. apply ascii_N_embedding. Qed.

(** A string of ASCII code units is the string of these bytes. *)
Lemma encode_ascii (l : list N) :
  Forall (fun u => u < 128) l -> encode l = List.map ascii_of_N l.
Proof.
  induction 1 as [|u l Hu Hl IH]; [reflexivity|].
  cbn [encode List.map]. rewrite IH.
  assert (Hh : is_high_surrogate u = false).
  { unfold is_high_surrogate. apply andb_false_iff. left. apply N.leb_gt. lia. }
  assert (H8 : utf8 u = [ascii_of_N u]).
  { unfold utf8. apply N.ltb_lt in Hu. rewrite Hu. reflexivity. }
  rewrite Hh, H8. destruct l; reflexivity.
Qed.

Lemma decode_ascii_app (l t : list ascii) :
  Forall (fun c => byte c < 128) l -> decode (l ++ t) = List.map byte l ++ decode t.
Proof.
  induction 1 as [|c l Hc Hl IH]; [reflexivity|].
  cbn [app decode List.map]. cbv zeta. apply N.ltb_lt in Hc. rewrite Hc, IH. reflexivity.
Qed.

Lemma list_ascii_of_string_app (a b : string) :
  list_ascii_of_string (a +:+ b) = list_ascii_of_string a ++ list_ascii_of_string b.
Proof. induction a as [|c a IH]; simpl; [reflexivity | rewrite IH; reflexivity]. Qed.

(** The code units of a text that goes on with an ASCII character. *)
Lemma code_units_app_ascii (a b : string) (c : ascii) :
  byte c < 128 ->
  code_units (a +:+ String c b) = code_units a ++ byte c :: code_units b.
Proof.
  intros Hc. unfold code_units. rewrite list_ascii_of_string_app. cbn [list_ascii_of_string].
  apply decode_app_ascii, Hc.
Qed.

Lemma code_units_cons_ascii (c : ascii) (b : string) :
  byte c < 128 -> code_units (String c b) = byte c :: code_units b.
Proof. intros Hc. apply (code_units_app_ascii "" b c Hc). Qed.

(** A property of the ASCII bytes of a string holds of its code units. *)
Lemma code_units_Forall (P : N -> Prop) (s : string) :
  (forall u, 128 <= u -> P u) ->
  Forall (fun c => P (byte c)) (list_ascii_of_string s) -> Forall P (code_units s).
Proof. apply decode_Forall. Qed.

Lemma is_digit_byte (c : ascii) : is_digit c = is_digit_unit (byte c).
Proof.
  unfold is_digit, is_digit_unit, code, byte.
  rewrite <- (Nnat.N2Nat.id (N_of_ascii c)). fold (nat_of_ascii c).
  change 48 with (N.of_nat 48). change 57 with (N.of_nat 57).
  generalize (nat_of_ascii c). intros n.
  destruct (Nat.leb_spec 48 n), (N.leb_spec (N.of_nat 48) (N.of_nat n)); try lia;
    destruct (Nat.leb_spec n 57), (N.leb_spec (N.of_nat n) (N.of_nat 57)); try lia; reflexivity.
Qed.

Lemma digit_unit_ascii (u : N) : is_digit_unit u = true -> u < 128.
Proof. unfold is_digit_unit. intros H. apply andb_true_iff in H as [_ H]. apply N.leb_le in H. lia. Qed.

Lemma digit_not_space (u : N) : is_digit_unit u = true -> is_space u = false.
Proof.
  unfold is_digit_unit, is_space. intros H. apply andb_true_iff in H as [H1 H2].
  apply N.leb_le in H1, H2.
  repeat match goal with
         | |- context [?a <=? ?b] => destruct (N.leb_spec a b); try lia
         | |- context [?a =? ?b] => destruct (N.eqb_spec a b); try lia
         end.
  all: reflexivity.
Qed.

Lemma x_not_space (u : N) : is_x_unit u = true -> is_space u = false.
Proof.
  unfold is_x_unit, is_space. intros H. apply orb_true_iff in H as [H|H]; apply N.eqb_eq in H; subst u;
    reflexivity.
Qed.

Lemma digit_not_comma (u : N) : is_digit_unit u = true -> (u =? 44) = false.
Proof.
  unfold is_digit_unit. intros H. apply andb_true_iff in H as [H1 _].
  apply N.leb_le in H1. apply N.eqb_neq. lia.
Qed.

Lemma digit_not_dot (u : N) : is_digit_unit u = true -> (u =? 46) = false.
Proof.
  unfold is_digit_unit. intros H. apply andb_true_iff in H as [H1 _].
  apply N.leb_le in H1. apply N.eqb_neq. lia.
Qed.

End Units.


(** ** Regular expressions: the leftmost match *)

Section RegexFacts.

Lemma rmatch_RSeq {A : Type} (start : nat) (r1 r2 : regex) (pos : nat) (s : list N)
    (cap : option (list N)) (k : nat -> list N -> option (list N) -> option A) :
  rmatch start (RSeq r1 r2) pos s cap k =
  rmatch start r1 pos s cap (fun pos' s' cap' => rmatch start r2 pos' s' cap' k).
Proof. reflexivity. Qed.

Lemma rmatch_RGroup {A : Type} (start : nat) (r : regex) (pos : nat) (s : list N)
    (cap : option (list N)) (k : nat -> list N -> option (list N) -> option A) :
  rmatch start (RGroup r) pos s cap k =
  rmatch start r pos s cap (fun pos' s' _ => k pos' s' (Some (firstn (pos' - pos) s))).
Proof. reflexivity. Qed.

(** A successful match has consumed some [n] code units and gone on with
    its continuation from there. *)
Lemma rmatch_consumes {A : Type} (start : nat) (r : regex) :
  forall pos s cap (k : nat -> list N -> option (list N) -> option A) (a : A),
    rmatch start r pos s cap k = Some a ->
    exists n cap', (n <= length s)%nat /\ k (pos + n)%nat (skipn n s) cap' = Some a.
Proof.
  induction r as [c|p|r1 IH1 r2 IH2|lo hi r IH|r IH| |]; intros pos s cap k a H; simpl in H.
  - destruct s as [|x s]; [discriminate|]. destruct (x =? c)%N; [|discriminate].
    exists 1%nat, cap. rewrite Nat.add_1_r. split; [simpl; lia | exact H].
  - destruct s as [|x s]; [discriminate|]. destruct (p x); [|discriminate].
    exists 1%nat, cap. rewrite Nat.add_1_r. split; [simpl; lia | exact H].
  - apply IH1 in H as (n1 & c1 & L1 & H). apply IH2 in H as (n2 & c2 & L2 & H).
    exists (n1 + n2)%nat, c2. rewrite length_skipn in L2. split; [lia|].
    rewrite Nat.add_assoc, (Nat.add_comm n1 n2), <- skipn_skipn. exact H.
  - revert H. generalize (match hi with Some h => h | None => length s end). intros fuel.
    revert lo pos s cap. induction fuel as [|fuel IHf]; intros lo pos s cap H.
    + destruct lo; [|discriminate]. exists 0%nat, cap. rewrite Nat.add_0_r. split; [lia | exact H].
    + match type of H with
      | match ?X with _ => _ end = _ => destruct X as [a'|] eqn:E
      end.
      * injection H as ->. apply IH in E as (n1 & c1 & L1 & E).
        destruct (pos + n1 =? pos)%nat; [discriminate|]. apply IHf in E as (n2 & c2 & L2 & E).
        exists (n1 + n2)%nat, c2. rewrite length_skipn in L2. split; [lia|].
        rewrite Nat.add_assoc, (Nat.add_comm n1 n2), <- skipn_skipn. exact E.
      * destruct lo; [|discriminate]. exists 0%nat, cap. rewrite Nat.add_0_r.
        split; [lia | exact H].
  - apply IH in H as (n & c1 & L & H). eexists n, _. split; [exact L | exact H].
  - destruct (start + pos =? 0)%nat; [|discriminate].
    exists 0%nat, cap. rewrite Nat.add_0_r. split; [lia | exact H].
  - destruct s; [|discriminate].
    exists 0%nat, cap. rewrite Nat.add_0_r. split; [simpl; lia | exact H].
Qed.

(** A group captures what it has consumed. *)
Lemma rmatch_group {A : Type} (start : nat) (r : regex) (pos : nat) (s : list N)
    (cap : option (list N)) (k : nat -> list N -> option (list N) -> option A) (a : A) :
  rmatch start (RGroup r) pos s cap k = Some a ->
  exists n, (n <= length s)%nat /\ k (pos + n)%nat (skipn n s) (Some (firstn n s)) = Some a.
Proof.
  rewrite rmatch_RGroup. intros H. apply rmatch_consumes in H as (n & _ & L & H).
  exists n. split; [exact L|]. replace (pos + n - pos)%nat with n in H by lia. exact H.
Qed.

Lemma match_at_start (r : regex) (start : nat) (s : list N) (m : MatchResult) :
  match_at r start s = Some m -> m_start m = start.
Proof.
  unfold match_at. intros H. apply rmatch_consumes in H as (n & c & _ & H).
  injection H as <-. reflexivity.
Qed.

Lemma single_RChar (c : N) : single (RChar c) (fun x => (x =? c)%N).
Proof. intros A start pos s cap k. reflexivity. Qed.

Lemma single_RClass (p : N -> bool) : single (RClass p) p.
Proof. intros A start pos s cap k. reflexivity. Qed.

Lemma rmatch_single {A : Type} (r : regex) (q : N -> bool) (start pos : nat) (s : list N)
    (cap : option (list N)) (k : nat -> list N -> option (list N) -> option A) (a : A) :
  single r q ->
  rmatch start r pos s cap k = Some a ->
  exists x s', s = x :: s' /\ q x = true /\ k (S pos) s' cap = Some a.
Proof.
  intros Hs H. rewrite Hs in H. destruct s as [|x s']; [discriminate|].
  destruct (q x) eqn:Q; [|discriminate]. eauto.
Qed.

(** A repetition of a pattern that matches one code unit has consumed a
    run of such code units, within its bounds. *)
Lemma rmatch_rep {A : Type} (r : regex) (q : N -> bool) (lo : nat) (hi : option nat)
    (start pos : nat) (s : list N) (cap : option (list N))
    (k : nat -> list N -> option (list N) -> option A) (a : A) :
  single r q ->
  rmatch start (RRep lo hi r) pos s cap k = Some a ->
  exists d rest,
    s = d ++ rest /\ Forall (fun u => q u = true) d /\ (lo <= length d)%nat /\
    (forall h, hi = Some h -> (length d <= h)%nat) /\
    k (pos + length d)%nat rest cap = Some a.
Proof.
  intros Hs H. simpl in H.
  assert (G : forall fuel lo pos s cap,
            (fix rep (fuel lo pos : nat) (s : list N) (cap : option (list N)) {struct fuel}
               : option A :=
               let stop := match lo with O => k pos s cap | S _ => None end in
               match fuel with
               | O => stop
               | S fuel' =>
                   match rmatch start r pos s cap
                           (fun pos' s' cap' =>
                              if (pos' =? pos)%nat then None
                              else rep fuel' (Nat.pred lo) pos' s' cap') with
                   | Some a => Some a
                   | None => stop
                   end
               end) fuel lo pos s cap = Some a ->
            exists d rest,
              s = d ++ rest /\ Forall (fun u => q u = true) d /\ (lo <= length d)%nat /\
              (length d <= fuel)%nat /\ k (pos + length d)%nat rest cap = Some a).
  { clear H. induction fuel as [|fuel IHf]; intros lo0 pos0 s0 cap0 H.
    - destruct lo0; [|discriminate]. exists [], s0. rewrite Nat.add_0_r.
      repeat split; [constructor | simpl; lia | simpl; lia | exact H].
    - rewrite Hs in H. destruct s0 as [|x s'].
      + destruct lo0; [|discriminate]. exists [], []. rewrite Nat.add_0_r.
        repeat split; [constructor | simpl; lia | simpl; lia | exact H].
      + destruct (q x) eqn:Q.
        * replace (S pos0 =? pos0)%nat with false in H by (symmetry; apply Nat.eqb_neq; lia).
          cbv zeta iota in H.
          match type of H with
          | match ?X with _ => _ end = _ => destruct X as [a'|] eqn:E
          end.
          -- injection H as ->. apply IHf in E as (d & rest & -> & Hd & Hlo & Hhi & E).
             exists (x :: d), rest. cbn [length]. rewrite Nat.add_succ_r.
             repeat split; [constructor; assumption | lia | lia | exact E].
          -- destruct lo0; [|discriminate]. exists [], (x :: s'). rewrite Nat.add_0_r.
             repeat split; [constructor | simpl; lia | simpl; lia | exact H].
        * destruct lo0; [|discriminate]. exists [], (x :: s'). rewrite Nat.add_0_r.
          repeat split; [constructor | simpl; lia | simpl; lia | exact H]. }
  apply G in H as (d & rest & -> & Hd & Hlo & Hfuel & H).
  exists d, rest. repeat split; try assumption.
  intros h ->. exact Hfuel.
Qed.

(** [search] returns the match at the first index that has one. *)
Lemma search_leftmost (r : regex) :
  forall (s : list N) (pos : nat) (m : MatchResult),
    search r pos s = Some m ->
    exists i, m_start m = (pos + i)%nat /\ (i <= length s)%nat /\
              match_at r (pos + i) (skipn i s) = Some m /\
              forall j, (j < i)%nat -> match_at r (pos + j) (skipn j s) = None.
Proof.
  induction s as [|c s IH]; intros pos m H; simpl in H.
  - destruct (match_at r pos []) as [m'|] eqn:E; [|discriminate].
    injection H as ->. exists 0%nat. rewrite Nat.add_0_r.
    split; [eapply match_at_start, E|]. split; [lia|]. split; [exact E|]. intros j Hj. lia.
  - destruct (match_at r pos (c :: s)) as [m'|] eqn:E.
    + injection H as ->. exists 0%nat. rewrite Nat.add_0_r.
      split; [eapply match_at_start, E|]. split; [lia|]. split; [exact E|]. intros j Hj. lia.
    + apply IH in H as (i & Hs & Hl & Hm & Hnone). exists (S i).
      rewrite Nat.add_succ_r. split; [exact Hs|]. split; [simpl; lia|]. split; [exact Hm|].
      intros [|j] Hj; [rewrite Nat.add_0_r; exact E|].
      rewrite Nat.add_succ_r. apply Hnone. lia.
Qed.

(** Conversely, a match at an index before which there is none is the one
    [search] returns. *)
Lemma search_first (r : regex) :
  forall (s : list N) (pos i : nat) (m : MatchResult),
    (i <= length s)%nat ->
    match_at r (pos + i) (skipn i s) = Some m ->
    (forall j, (j < i)%nat -> match_at r (pos + j) (skipn j s) = None) ->
    search r pos s = Some m.
Proof.
  induction s as [|c s IH]; intros pos i m Hi Hm Hnone.
  - assert (i = 0)%nat as -> by (simpl in Hi; lia). rewrite Nat.add_0_r in Hm.
    simpl in Hm |- *. rewrite Hm. reflexivity.
  - destruct i as [|i].
    + rewrite Nat.add_0_r in Hm. simpl in Hm |- *. rewrite Hm. reflexivity.
    + simpl. pose proof (Hnone 0%nat ltac:(lia)) as H0. rewrite Nat.add_0_r in H0.
      simpl in H0. rewrite H0. apply (IH (S pos) i).
      * simpl in Hi. lia.
      * rewrite Nat.add_succ_r in Hm. exact Hm.
      * intros j Hj. specialize (Hnone (S j) ltac:(lia)).
        rewrite Nat.add_succ_r in Hnone. exact Hnone.
Qed.

Lemma search_nowhere (r : regex) :
  forall (s : list N) (pos : nat),
    (forall j, (j <= length s)%nat -> match_at r (pos + j) (skipn j s) = None) ->
    search r pos s = None.
Proof.
  induction s as [|c s IH]; intros pos Hnone.
  - pose proof (Hnone 0%nat ltac:(lia)) as H0. rewrite Nat.add_0_r in H0.
    simpl in H0 |- *. rewrite H0. reflexivity.
  - pose proof (Hnone 0%nat ltac:(lia)) as H0. rewrite Nat.add_0_r in H0.
    simpl in H0 |- *. rewrite H0. apply IH. intros j Hj.
    specialize (Hnone (S j) ltac:(simpl; lia)). rewrite Nat.add_succ_r in Hnone. exact Hnone.
Qed.

Lemma first_match_search (r : regex) (s : list N) (i : nat) (m : MatchResult) :
  first_match r s i m <-> search r 0 s = Some m /\ m_start m = i.
Proof.
  split.
  - intros (Hi & Hm & Hnone). split; [apply (search_first r s 0 i m Hi Hm Hnone)|].
    eapply match_at_start, Hm.
  - intros (H & Hs). apply search_leftmost in H as (i' & Hs' & Hi & Hm & Hnone).
    simpl in Hs', Hm, Hnone. assert (i' = i) as -> by congruence.
    split; [exact Hi|]. split; [exact Hm | exact Hnone].
Qed.

Lemma no_match_search (r : regex) (s : list N) : no_match r s -> search r 0 s = None.
Proof. intros H. apply search_nowhere. exact H. Qed.

(** The search skips a part of the text in which no match begins. *)
Lemma search_skip_from (r : regex) (s1 s2 : list N) (pos : nat) :
  (forall j, (j < length s1)%nat -> match_at r (pos + j) (skipn j (s1 ++ s2)) = None) ->
  search r pos (s1 ++ s2) = search r (pos + length s1) s2.
Proof.
  revert pos. induction s1 as [|c s1 IH]; intros pos Hnone.
  - simpl. rewrite Nat.add_0_r. reflexivity.
  - pose proof (Hnone 0%nat ltac:(simpl; lia)) as H0. rewrite Nat.add_0_r in H0.
    simpl in H0 |- *. rewrite H0, IH.
    + f_equal. lia.
    + intros j Hj. specialize (Hnone (S j) ltac:(simpl; lia)).
      rewrite Nat.add_succ_r in Hnone. exact Hnone.
Qed.

Lemma search_skip (r : regex) (pre s : list N) (pos : nat) :
  Forall (fun c => forall start t, match_at r start (c :: t) = None) pre ->
  search r pos (pre ++ s) = search r (pos + length pre) s.
Proof.
  intros Hpre. revert pos. induction Hpre as [|c pre Hc Hpre IH]; intros pos; simpl.
  - rewrite Nat.add_0_r. reflexivity.
  - rewrite Hc, IH. f_equal. lia.
Qed.

Lemma matchAll_head (r : regex) (s : string) :
  head (matchAll r s) = regex_exec r s.
Proof.
  unfold matchAll, regex_exec. simpl.
  destruct (search r 0 (code_units s)); reflexivity.
Qed.

Lemma price_re_needs_dollar (c : N) :
  (c =? 36)%N = false -> forall start t, match_at price_re start (c :: t) = None.
Proof.
  intros Hc start t. unfold match_at, price_re. cbn [rseq rchar rmatch].
  change (byte "$") with 36%N. rewrite Hc. reflexivity.
Qed.

Lemma unit_re_needs_digit (c : N) :
  is_digit_unit c = false -> forall start t, match_at unit_re start (c :: t) = None.
Proof.
  intros Hc start t. unfold match_at, unit_re, rdigit. cbn [rseq rmatch]. rewrite Hc. reflexivity.
Qed.

End RegexFacts.


(** ** Extraction of price and unit (source lines 129-137) *)

Section Extraction.

Lemma extract_price_first (content : string) :
  extract_price content =
  match regex_exec price_re content with
  | Some m => JNum (StringToNumber
                      (string_of_units (remove_commas (default [] (m_group m)))))
  | None => JNull
  end.
Proof.
  unfold extract_price. pose proof (matchAll_head price_re content) as H.
  destruct (matchAll price_re content) as [|m ms]; simpl in H; rewrite <- H; reflexivity.
Qed.

Lemma firstn_length_app {A : Type} (l r : list A) (n : nat) :
  n = length l -> firstn n (l ++ r) = l.
Proof. intros ->. rewrite firstn_app, Nat.sub_diag, firstn_all. simpl. apply app_nil_r. Qed.

(** A match of the price pattern: a dollar sign, at most one white space,
    and the amount, which the group holds. *)
Lemma price_re_match (start : nat) (s : list N) (m : MatchResult) :
  match_at price_re start s = Some m ->
  exists sp amount : list N,
    m_text m = 36%N :: sp ++ amount /\ run_of is_space 0 1 sp /\ m_group m = Some amount.
Proof.
  unfold match_at, price_re. cbn [rseq]. rewrite rmatch_RSeq. intros H.
  apply (rmatch_single _ _ _ _ _ _ _ _ (single_RChar _)) in H as (x & s1 & -> & Hx & H).
  apply N.eqb_eq in Hx. change (byte "$") with 36%N in Hx. subst x.
  rewrite rmatch_RSeq in H.
  apply (rmatch_rep _ _ _ _ _ _ _ _ _ _ (single_RClass _)) in H
    as (sp & rest & -> & Hsp & _ & Hhi & H).
  specialize (Hhi 1%nat eq_refl).
  apply rmatch_group in H as (n & Hn & H). injection H as <-.
  exists sp, (firstn n rest). cbn [m_text m_group]. split; [|split; [|reflexivity]].
  - cbn [firstn Nat.add]. f_equal. rewrite firstn_app.
    replace (length sp + n - length sp)%nat with n by lia.
    rewrite firstn_all2 by lia. reflexivity.
  - split; [exact Hsp | lia].
Qed.

(** A match of the unit pattern: one or two digits, at most one white
    space, the letter x, at most one white space, one or two digits; the
    group holds all of it. *)
Lemma unit_re_match (start : nat) (s : list N) (m : MatchResult) :
  match_at unit_re start s = Some m ->
  exists (d1 s1 : list N) (x : N) (s2 d2 : list N),
    m_text m = d1 ++ s1 ++ x :: s2 ++ d2 /\ m_group m = Some (m_text m) /\
    run_of is_digit_unit 1 2 d1 /\ run_of is_space 0 1 s1 /\ is_x_unit x = true /\
    run_of is_space 0 1 s2 /\ run_of is_digit_unit 1 2 d2.
Proof.
  unfold match_at, unit_re. cbn [rseq]. rewrite rmatch_RGroup, rmatch_RSeq. intros H.
  apply (rmatch_rep _ _ _ _ _ _ _ _ _ _ (single_RClass _)) in H
    as (d1 & r1 & E1 & Hd1 & Hlo1 & Hhi1 & H).
  specialize (Hhi1 2%nat eq_refl). rewrite rmatch_RSeq in H.
  apply (rmatch_rep _ _ _ _ _ _ _ _ _ _ (single_RClass _)) in H
    as (s1 & r2 & E2 & Hs1 & _ & Hhi2 & H).
  specialize (Hhi2 1%nat eq_refl). rewrite rmatch_RSeq in H.
  apply (rmatch_single _ _ _ _ _ _ _ _ (single_RClass _)) in H as (x & r3 & E3 & Hx & H).
  rewrite rmatch_RSeq in H.
  apply (rmatch_rep _ _ _ _ _ _ _ _ _ _ (single_RClass _)) in H
    as (s2 & r4 & E4 & Hs2 & _ & Hhi4 & H).
  specialize (Hhi4 1%nat eq_refl).
  apply (rmatch_rep _ _ _ _ _ _ _ _ _ _ (single_RClass _)) in H
    as (d2 & r5 & E5 & Hd2 & Hlo5 & Hhi5 & H).
  specialize (Hhi5 2%nat eq_refl). injection H as <-.
  subst r4 r3 r2 r1 s. exists d1, s1, x, s2, d2. cbn [m_text m_group].
  assert (T : forall n, n = length (d1 ++ s1 ++ x :: s2 ++ d2) ->
                        firstn n (d1 ++ s1 ++ x :: s2 ++ d2 ++ r5) = d1 ++ s1 ++ x :: s2 ++ d2).
  { intros n Hn.
    replace (d1 ++ s1 ++ x :: s2 ++ d2 ++ r5) with ((d1 ++ s1 ++ x :: s2 ++ d2) ++ r5).
    - apply firstn_length_app, Hn.
    - rewrite <- !app_assoc. cbn [app]. rewrite <- !app_assoc. reflexivity. }
  rewrite !T by (rewrite !length_app; cbn [length]; rewrite !length_app; lia).
  repeat split; try assumption; lia.
Qed.

Lemma remove_spaces_app (a b : list N) :
  remove_spaces (a ++ b) = remove_spaces a ++ remove_spaces b.
Proof. apply List.filter_app. Qed.

Lemma remove_spaces_spaces (l : list N) :
  Forall (fun u => is_space u = true) l -> remove_spaces l = [].
Proof.
  induction 1 as [|u l Hu _ IH]; [reflexivity|].
  cbn [remove_spaces List.filter]. rewrite Hu. exact IH.
Qed.

Lemma remove_spaces_digits (l : list N) :
  Forall (fun u => is_digit_unit u = true) l -> remove_spaces l = l.
Proof.
  induction 1 as [|u l Hu _ IH]; [reflexivity|].
  cbn [remove_spaces List.filter]. rewrite (digit_not_space u Hu). cbn [negb].
  f_equal. exact IH.
Qed.

(** What is left of a match of the unit pattern without its white space. *)
Lemma remove_spaces_unit (d1 s1 : list N) (x : N) (s2 d2 : list N) :
  run_of is_digit_unit 1 2 d1 -> run_of is_space 0 1 s1 -> is_x_unit x = true ->
  run_of is_space 0 1 s2 -> run_of is_digit_unit 1 2 d2 ->
  remove_spaces (d1 ++ s1 ++ x :: s2 ++ d2) = d1 ++ x :: d2.
Proof.
  intros [Hd1 _] [Hs1 _] Hx [Hs2 _] [Hd2 _].
  rewrite !remove_spaces_app. change (x :: s2 ++ d2) with ([x] ++ s2 ++ d2).
  rewrite !remove_spaces_app, (remove_spaces_digits d1 Hd1), (remove_spaces_spaces s1 Hs1),
    (remove_spaces_spaces s2 Hs2), (remove_spaces_digits d2 Hd2).
  cbn [remove_spaces List.filter]. rewrite (x_not_space x Hx). reflexivity.
Qed.

(** The code units of a text around an ASCII text. *)
Lemma code_units_around (pre a post : string) :
  a <> "" -> Forall (fun c => (byte c < 128)%N) (list_ascii_of_string a) ->
  code_units (pre +:+ a +:+ post) = code_units pre ++ code_units a ++ code_units post.
Proof.
  intros Hne Ha. destruct a as [|c a]; [congruence|].
  cbn [list_ascii_of_string] in Ha. apply Forall_cons_1 in Ha as [Hc Ha].
  change (String c a +:+ post) with (String c (a +:+ post)).
  rewrite code_units_app_ascii by exact Hc.
  rewrite (code_units_cons_ascii c a Hc). unfold code_units at 2 3 4.
  rewrite list_ascii_of_string_app, (decode_ascii_app _ _ Ha).
  rewrite <- (app_nil_r (list_ascii_of_string a)) at 2.
  rewrite (decode_ascii_app _ [] Ha). cbn [decode]. rewrite app_nil_r. reflexivity.
Qed.

Lemma sample_text_ascii :
  sample_text <> "" /\ Forall (fun c => (byte c < 128)%N) (list_ascii_of_string sample_text).
Proof. split; [discriminate|]. repeat constructor. Qed.

Lemma sample_price (n : nat) (t : list N) :
  option_map m_group (search price_re n (code_units sample_text ++ t)) =
  Some (Some (code_units "89.99")).
Proof. vm_compute. reflexivity. Qed.

Lemma sample_unit (n : nat) (t : list N) :
  option_map m_group (search unit_re n (code_units sample_text ++ t)) =
  Some (Some (code_units "10x10")).
Proof. vm_compute. reflexivity. Qed.

(** C6. The price is taken from the first match of the dollar-amount
    pattern, the match at the least index of the text at which the pattern
    matches: it is the number its amount reads as, the commas left out.  The
    unit is taken from the first match of the NxM pattern: the match is one or
    two digits, at most one white space, the letter x, at most one white space
    and one or two digits, and the unit is these digits around the letter,
    with no white space.  A text without a match gives [null].  On ["Starting
    at $89.99 for a 10x10 unit"], alone or inside any text in which no match
    begins before it, the price is 89.99 and the unit ["10x10"]; ["$1,200.50"]
    gives 1200.5, and ["5 X 10"] gives ["5X10"], also when the spaces are the
    thin space U+2009 and the no-break space U+00A0. *)
Theorem extraction_takes_first_match :
  (forall (content : string) (i : nat) (m : MatchResult),
     first_match price_re (code_units content) i m ->
     exists sp amount : list N,
       m_text m = 36%N :: sp ++ amount /\ run_of is_space 0 1 sp /\
       extract_price content =
         JNum (StringToNumber (string_of_units (remove_commas amount)))) /\
  (forall content : string,
     no_match price_re (code_units content) -> extract_price content = JNull) /\
  (forall (content : string) (i : nat) (m : MatchResult),
     first_match unit_re (code_units content) i m ->
     exists (d1 s1 : list N) (x : N) (s2 d2 : list N),
       m_text m = d1 ++ s1 ++ x :: s2 ++ d2 /\
       run_of is_digit_unit 1 2 d1 /\ run_of is_space 0 1 s1 /\ is_x_unit x = true /\
       run_of is_space 0 1 s2 /\ run_of is_digit_unit 1 2 d2 /\
       extract_unit content = JStr (string_of_units (d1 ++ x :: d2))) /\
  (forall content : string,
     no_match unit_re (code_units content) -> extract_unit content = JNull) /\
  extract_price sample_text = JNum 89.99%float /\
  extract_unit sample_text = JStr "10x10" /\
  (forall pre post : string,
     (forall j, (j < length (code_units pre))%nat ->
        match_at price_re j (skipn j (code_units (pre +:+ sample_text +:+ post))) = None) ->
     extract_price (pre +:+ sample_text +:+ post) = JNum 89.99%float) /\
  (forall pre post : string,
     (forall j, (j < length (code_units pre))%nat ->
        match_at unit_re j (skipn j (code_units (pre +:+ sample_text +:+ post))) = None) ->
     extract_unit (pre +:+ sample_text +:+ post) = JStr "10x10") /\
  extract_price "From $1,200.50 a month" = JNum 1200.5%float /\
  extract_unit "Size 5 X 10 ft" = JStr "5X10" /\
  extract_unit (string_of_list_ascii
                  (List.map ascii_of_N [53; 226; 128; 137; 88; 194; 160; 49; 48]%N)) = JStr "5X10".
Proof.
  split; [|split; [|split; [|split]]].
  - intros content i m Hm. apply first_match_search in Hm as [Hs _].
    pose proof Hs as Hs'. apply search_leftmost in Hs' as (i' & _ & _ & Hm & _).
    destruct (price_re_match _ _ _ Hm) as (sp & amount & Ht & Hsp & Hg).
    exists sp, amount. split; [exact Ht|]. split; [exact Hsp|].
    rewrite extract_price_first. unfold regex_exec. rewrite Hs, Hg. reflexivity.
  - intros content Hn. rewrite extract_price_first. unfold regex_exec.
    rewrite (no_match_search _ _ Hn). reflexivity.
  - intros content i m Hm. apply first_match_search in Hm as [Hs _].
    pose proof Hs as Hs'. apply search_leftmost in Hs' as (i' & _ & _ & Hm & _).
    destruct (unit_re_match _ _ _ Hm) as (d1 & s1 & x & s2 & d2 & Ht & Hg & H1 & H2 & H3 & H4 & H5).
    exists d1, s1, x, s2, d2. repeat (split; [assumption|]).
    unfold extract_unit, regex_exec. rewrite Hs, Hg, Ht. cbn [default from_option id].
    rewrite remove_spaces_unit by assumption. reflexivity.
  - intros content Hn. unfold extract_unit, regex_exec.
    rewrite (no_match_search _ _ Hn). reflexivity.
  - split; [vm_compute; reflexivity|]. split; [vm_compute; reflexivity|].
    destruct sample_text_ascii as [Hne Ha].
    split; [|split; [|repeat split; vm_compute; reflexivity]].
    + intros pre post Hpre. rewrite extract_price_first. unfold regex_exec.
      rewrite (code_units_around pre sample_text post Hne Ha) in Hpre |- *.
      rewrite (search_skip_from _ _ _ 0 Hpre).
      pose proof (sample_price (0 + length (code_units pre)) (code_units post)) as H.
      destruct (search price_re _ _) as [m|]; [|discriminate].
      injection H as ->. vm_compute. reflexivity.
    + intros pre post Hpre. unfold extract_unit, regex_exec.
      rewrite (code_units_around pre sample_text post Hne Ha) in Hpre |- *.
      rewrite (search_skip_from _ _ _ 0 Hpre).
      pose proof (sample_unit (0 + length (code_units pre)) (code_units post)) as H.
      destruct (search unit_re _ _) as [m|]; [|discriminate].
      injection H as ->. vm_compute. reflexivity.
Qed.

(** The sample sentence inside a page, after a dollar sign and digits that
    are no dollar amount and no unit. *)
Lemma extraction_takes_first_match_witness :
  extract_price ("<p>$ave on 2 sizes. " +:+ sample_text +:+ " Call $5 now, 5x5!</p>")
    = JNum 89.99%float /\
  extract_unit ("<p>$ave on 2 sizes. " +:+ sample_text +:+ " Call $5 now, 5x5!</p>")
    = JStr "10x10".
Proof.
  destruct extraction_takes_first_match as (_ & _ & _ & _ & _ & _ & Hp & Hu & _).
  split; [apply Hp | apply Hu].
  all: intros j Hj; do 20 (destruct j as [|j]; [vm_compute; reflexivity|]).
  all: vm_compute in Hj; lia.
Defined.

End Extraction.


(** ** Lengths are truthy exactly when positive *)

Section Lengths.

Lemma float_of_nat_class (n : nat) :
  match n with
  | O => Prim2SF (float_of_nat n) = S754_zero false
  | S _ => positive_class (Prim2SF (float_of_nat n))
  end.
Proof.
  induction n as [|n IH]; [reflexivity|].
  cbn [float_of_nat]. rewrite FloatAxioms.add_spec.
  change (Prim2SF 1) with (S754_finite false 4503599627370496 (-52)).
  destruct n as [|n].
  - rewrite IH. exact I.
  - pose proof (Prim2SF_valid (float_of_nat (S n))) as V.
    destruct (Prim2SF (float_of_nat (S n))) as [s|s| |s m e]; cbn in IH; try contradiction.
    + destruct s; [contradiction|exact I].
    + destruct s; [contradiction|]. simpl in V. apply bounded_inv in V as (Hmin & _ & _).
      unfold SF64add, SFadd. cbn [cond_Zopp].
      set (ez := Z.min e (-52)).
      assert (Hez : (SpecFloat.emin prec emax <= ez)%Z) by (unfold SpecFloat.emin, prec, emax in *; lia).
      change (Z.pos (fst (shl_align m e ez)) + Z.pos (fst (shl_align 4503599627370496 (-52) ez)))%Z
        with (Z.pos (fst (shl_align m e ez) + fst (shl_align 4503599627370496 (-52) ez))).
      cbn [binary_normalize].
      destruct (binary_round_sign false (fst (shl_align m e ez) + fst (shl_align 4503599627370496 (-52) ez)) ez Hez)
        as [(m' & e' & R)|R]; rewrite R; exact I.
Qed.

Lemma positive_class_truthy (x : float) :
  positive_class (Prim2SF x) -> truthy (JNum x) = true.
Proof.
  intros Hx. cbn [truthy]. rewrite isNaN_spec, FloatAxioms.eqb_spec.
  change (Prim2SF 0) with (S754_zero false).
  destruct (Prim2SF x) as [s|s| |s m e]; try contradiction; destruct s; try contradiction; reflexivity.
Qed.

Lemma float_of_nat_truthy (n : nat) :
  truthy (JNum (float_of_nat n)) = negb (n =? 0)%nat.
Proof.
  pose proof (float_of_nat_class n) as H. destruct n as [|n]; [reflexivity|].
  apply positive_class_truthy, H.
Qed.

End Lengths.

(** ** The monad of the handlers *)

Section MonadFacts.

Lemma bind_Ok {A B : Type} (m : M A) (k : A -> M B) (w : World) (st st1 : St) (a : A) :
  m w st = (Ok a, st1) -> bind m k w st = k a w st1.
Proof. intros E. unfold bind. rewrite E. reflexivity. Qed.

Lemma bind_Throw {A B : Type} (m : M A) (k : A -> M B) (w : World) (st st1 : St) (e : JsError) :
  m w st = (Throw e, st1) -> bind m k w st = (Throw e, st1).
Proof. intros E. unfold bind. rewrite E. reflexivity. Qed.

Lemma get_prop_Throw (v : JsValue) (k : string) (e : JsError) :
  get_prop v k = Throw e -> is_nullish v = true /\ exists msg, e = TypeErr msg.
Proof.
  destruct v; cbn; intros E; try discriminate; injection E as <-; eauto.
Qed.

Lemma get_prop_Ok (v : JsValue) (k : string) :
  is_nullish v = false -> get_prop v k = Ok (prop v k).
Proof. unfold prop. destruct v; cbn; intros E; try discriminate; reflexivity. Qed.

Lemma truthy_not_nullish (v : JsValue) : truthy v = true -> is_nullish v = false.
Proof. destruct v; cbn; congruence. Qed.

Lemma get_first_Throw (v : JsValue) (e : JsError) :
  get_first v = Throw e -> exists msg, e = TypeErr msg.
Proof.
  destruct v as [| | | |s| |]; cbn; intros E; try discriminate;
    try (injection E as <-; eauto).
  destruct (code_units s); discriminate.
Qed.

End MonadFacts.

(** ** Conversions *)

Section Conversions.
Context {H : Host}.

(** A conversion to a string that throws throws a TypeError. *)
Lemma ToString_Throw :
  forall (v : JsValue) (e : JsError), ToString v = Throw e -> exists msg, e = TypeErr msg.
Proof.
  fix IH 1. intros v e. destruct v as [| |b|x|s|l|fs]; cbn [ToString]; try discriminate.
  - destruct b; discriminate.
  - induction l as [|a l IHl]; [discriminate|].
    assert (Ha : forall e', match a with JUndefined | JNull => Ok ""%string | _ => ToString a end
                            = Throw e' -> exists msg, e' = TypeErr msg).
    { pose proof (IH a) as Ha0. intros e'. destruct a; try discriminate; apply Ha0. }
    destruct l as [|b l'].
    + apply Ha.
    + intros E. unfold obind in E.
      destruct (match a with JUndefined | JNull => Ok ""%string | _ => ToString a end) eqn:Ea.
      * match type of E with
        | match ?X with _ => _ end = _ => destruct X eqn:El; [discriminate|]
        end.
        injection E as <-. apply IHl. exact El.
      * injection E as <-. eapply Ha. reflexivity.
  - destruct (field "toString" fs); intros E; [injection E as <-; eauto | discriminate].
Qed.

Lemma ToNumber_Throw (v : JsValue) (e : JsError) :
  ToNumber v = Throw e -> exists msg, e = TypeErr msg.
Proof.
  destruct v as [| |b|x|s|l|fs]; cbn [ToNumber]; try discriminate.
  - destruct b; discriminate.
  - unfold obind. destruct (ToString (JArr l)) eqn:E; [discriminate|].
    intros E'. injection E' as <-. eapply ToString_Throw, E.
  - unfold obind. destruct (ToString (JObj fs)) eqn:E; [discriminate|].
    intros E'. injection E' as <-. eapply ToString_Throw, E.
Qed.

(** [Number] throws exactly when the conversion to a string does. *)
Lemma ToNumber_convertible (v : JsValue) :
  convertible v = true -> ToNumber v = Ok (number_of v).
Proof.
  unfold convertible, number_of.
  destruct v as [| |b|x|s|l|fs]; cbn [ToNumber]; try reflexivity.
  - destruct b; reflexivity.
  - destruct (ToString (JArr l)); [reflexivity | discriminate].
  - destruct (ToString (JObj fs)); [reflexivity | discriminate].
Qed.

Lemma ToNumber_not_convertible (v : JsValue) :
  convertible v = false -> exists e, ToNumber v = Throw e.
Proof.
  unfold convertible. intros C.
  assert (E : exists e, ToString v = Throw e) by (destruct (ToString v); [discriminate | eauto]).
  clear C. destruct E as (e & E). exists e.
  destruct v as [| |b|x|s|l|fs]; try discriminate E.
  - destruct b; discriminate E.
  - unfold ToNumber. rewrite E. reflexivity.
  - unfold ToNumber. rewrite E. reflexivity.
Qed.

End Conversions.


(** ** Location resolution (source lines 54-66) *)

Section CoordinateText.
Local Open Scope N_scope.

(** A string whose first byte is not ASCII has a first code unit from 128
    on. *)
Lemma decode_head_high (b0 : ascii) (l1 : list ascii) :
  128 <= byte b0 -> exists u rest, decode (b0 :: l1) = u :: rest /\ 128 <= u.
Proof.
  intros H0. cbn [decode]. cbv zeta.
  assert (Hbad : exists u rest, replacement :: decode l1 = u :: rest /\ 128 <= u).
  { eexists _, _. split; [reflexivity | unfold replacement; lia]. }
  destruct (byte b0 <? 128) eqn:E0; [apply N.ltb_lt in E0; lia|].
  destruct l1 as [|b1 l2]; [exact Hbad|].
  destruct (is_cont b1); cbn [negb]; [|exact Hbad].
  destruct (byte b0 <? 224).
  { destruct (194 <=? byte b0) eqn:E1; [|exact Hbad]. apply N.leb_le in E1.
    eexists _, _. split; [reflexivity | lia]. }
  destruct l2 as [|b2 l3]; [exact Hbad|].
  destruct (is_cont b2); cbn [negb]; [|exact Hbad].
  destruct (byte b0 <? 240).
  { destruct (2048 <=? _) eqn:E2; [|exact Hbad]. apply N.leb_le in E2.
    eexists _, _. split; [reflexivity | lia]. }
  destruct l3 as [|b3 l4]; [exact Hbad|].
  destruct (is_cont b3 && _ && _ && _) eqn:E3; [|exact Hbad].
  apply andb_true_iff in E3 as [E3 _]. apply andb_true_iff in E3 as [_ E3].
  apply N.leb_le in E3.
  unfold units_of_code_point. destruct (_ <? 65536) eqn:E4; [apply N.ltb_lt in E4; lia|].
  eexists _, _. split; [reflexivity|]. apply N.le_trans with 55296; [lia | apply N.le_add_r].
Qed.

(** A string of ASCII code units is a string of ASCII bytes, the same. *)
Lemma decode_all_ascii (l : list ascii) :
  Forall (fun u => u < 128) (decode l) -> l = List.map ascii_of_N (decode l).
Proof.
  induction l as [|b0 l1 IH]; [reflexivity|]. intros Hl.
  destruct (N.lt_ge_cases (byte b0) 128) as [H0|H0].
  - revert Hl. cbn [decode]. cbv zeta. apply N.ltb_lt in H0. rewrite H0. intros Hl.
    apply Forall_cons_1 in Hl as [_ Hl]. cbn [List.map].
    rewrite ascii_of_N_byte. f_equal. apply IH, Hl.
  - destruct (decode_head_high b0 l1 H0) as (u & rest & E & Hu). rewrite E in Hl.
    apply Forall_cons_1 in Hl as [Hl _]. lia.
Qed.

Lemma string_of_list_ascii_app (a b : list ascii) :
  string_of_list_ascii (a ++ b) = string_of_list_ascii a +:+ string_of_list_ascii b.
Proof. induction a as [|c a IH]; simpl; [reflexivity | rewrite IH; reflexivity]. Qed.

Lemma split_commas_last (l cur : list ascii) :
  Forall (fun c => Ascii.eqb c "," = false) l ->
  split_commas l cur = [string_of_list_ascii (rev cur ++ l)].
Proof.
  intros Hl. revert cur. induction Hl as [|c l Hc _ IH]; intros cur; cbn [split_commas].
  - rewrite app_nil_r. reflexivity.
  - rewrite Hc, IH. cbn [rev]. rewrite <- app_assoc. reflexivity.
Qed.

Lemma split_commas_first (l1 l2 cur : list ascii) :
  Forall (fun c => Ascii.eqb c "," = false) l1 ->
  split_commas (l1 ++ ","%char :: l2) cur =
  string_of_list_ascii (rev cur ++ l1) :: split_commas l2 [].
Proof.
  intros Hl. revert cur. induction Hl as [|c l Hc _ IH]; intros cur; cbn [split_commas app].
  - rewrite app_nil_r. reflexivity.
  - rewrite Hc, IH. cbn [rev]. rewrite <- app_assoc. reflexivity.
Qed.

Lemma span_run (p : ascii -> bool) (l r : list ascii) (c : ascii) :
  Forall (fun x => p x = true) l -> p c = false -> span p (l ++ c :: r) = (l, c :: r).
Proof.
  intros Hl Hc. induction Hl as [|x l Hx _ IH]; cbn [span app].
  - rewrite Hc. reflexivity.
  - rewrite Hx, IH. reflexivity.
Qed.

Lemma coordinate_unit_small (u : N) :
  u < 128 -> u <> 44 -> coordinate_unit_facts u.
Proof.
  intros Hu Hne. split; [exact Hu|]. apply Ascii.eqb_neq. intros E.
  apply (f_equal byte) in E. rewrite byte_ascii_of_N in E by lia. apply Hne. exact E.
Qed.

Lemma digit_unit_facts (u : N) : is_digit_unit u = true -> coordinate_unit_facts u.
Proof.
  intros Hd. pose proof (digit_unit_ascii u Hd). apply coordinate_unit_small; [assumption|].
  intros ->. discriminate.
Qed.

Lemma is_digit_ascii_of_N (u : N) : u < 256 -> is_digit (ascii_of_N u) = is_digit_unit u.
Proof. intros Hu. rewrite is_digit_byte, byte_ascii_of_N by exact Hu. reflexivity. Qed.

(** The text of a numeral that the coordinate pattern has matched. *)
Lemma decimal_text_of_match (m1 d1 d2 : list N) :
  Forall (fun u => (u =? 45) = true) m1 -> (length m1 <= 1)%nat ->
  Forall (fun u => is_digit_unit u = true) d1 -> (1 <= length d1)%nat ->
  Forall (fun u => is_digit_unit u = true) d2 -> (1 <= length d2)%nat ->
  decimal_text (List.map ascii_of_N (m1 ++ d1 ++ 46 :: d2)) = true /\
  Forall coordinate_unit_facts (m1 ++ d1 ++ 46 :: d2).
Proof.
  intros Hm1 Lm1 Hd1 Ld1 Hd2 Ld2.
  assert (Da : forall d, Forall (fun u => is_digit_unit u = true) d ->
                         Forall (fun x => is_digit x = true) (List.map ascii_of_N d)).
  { intros d Hd. apply List.Forall_map. eapply Forall_impl; [exact Hd|].
    intros u Hu. cbv beta. rewrite is_digit_ascii_of_N; [exact Hu|].
    pose proof (digit_unit_ascii u Hu). lia. }
  assert (Df : forall d, Forall (fun u => is_digit_unit u = true) d ->
                         Forall coordinate_unit_facts d).
  { intros d Hd. eapply Forall_impl; [exact Hd|]. apply digit_unit_facts. }
  assert (Body : decimal_text (List.map ascii_of_N (d1 ++ 46 :: d2)) = true /\
                 (forall c l, List.map ascii_of_N (d1 ++ 46 :: d2) = c :: l ->
                              Ascii.eqb c "-" = false)).
  { split.
    - unfold decimal_text. rewrite List.map_app. cbn [List.map].
      destruct d1 as [|u d1']; [simpl in Ld1; lia|].
      apply Forall_cons_1 in Hd1 as [Hu Hd1']. cbn [List.map app].
      assert (Hu' : Ascii.eqb (ascii_of_N u) "-" = false).
      { apply Ascii.eqb_neq. intros E. apply (f_equal byte) in E.
        pose proof (digit_unit_ascii u Hu). rewrite byte_ascii_of_N in E by lia.
        subst u. discriminate. }
      rewrite Hu'.
      change (ascii_of_N u :: List.map ascii_of_N d1' ++ ascii_of_N 46 :: List.map ascii_of_N d2)
        with ((ascii_of_N u :: List.map ascii_of_N d1') ++ ascii_of_N 46 :: List.map ascii_of_N d2).
      rewrite span_run.
      + change (ascii_of_N 46) with "."%char. cbn [Ascii.eqb Bool.eqb andb].
        rewrite length_map. destruct d2 as [|v d2']; [simpl in Ld2; lia|].
        cbn [length Nat.eqb negb andb]. apply forallb_forall. apply List.Forall_forall.
        apply (Da (v :: d2')). exact Hd2.
      + apply (Da (u :: d1')). constructor; assumption.
      + reflexivity.
    - intros c l E. destruct d1 as [|u d1']; [simpl in Ld1; lia|].
      apply Forall_cons_1 in Hd1 as [Hu _]. cbn [List.map app] in E. injection E as <- _.
      apply Ascii.eqb_neq. intros E. apply (f_equal byte) in E.
      pose proof (digit_unit_ascii u Hu). rewrite byte_ascii_of_N in E by lia.
      subst u. discriminate. }
  destruct Body as [Body Hfirst].
  assert (Facts : Forall coordinate_unit_facts (d1 ++ 46 :: d2)).
  { apply Forall_app. split; [apply Df, Hd1|]. constructor; [|apply Df, Hd2].
    apply coordinate_unit_small; lia. }
  destruct m1 as [|x m1'].
  - cbn [app]. split; [exact Body | exact Facts].
  - destruct m1' as [|y m1'']; [|simpl in Lm1; lia].
    apply Forall_cons_1 in Hm1 as [Hx _]. apply N.eqb_eq in Hx. subst x.
    cbn [app]. split.
    + destruct d1 as [|u d1']; [simpl in Ld1; lia|].
      pose proof (Hfirst _ _ eq_refl) as Hu'.
      unfold decimal_text in Body |- *. cbn [List.map app] in Body |- *.
      rewrite Hu' in Body. change (ascii_of_N 45) with "-"%char.
      change (Ascii.eqb "-" "-") with true. cbv iota. exact Body.
    + constructor; [apply coordinate_unit_small; lia | exact Facts].
Qed.

(** What the coordinate pattern matches: the whole text, two numerals with
    a comma between them. *)
Lemma coordinate_re_match (start : nat) (s : list N) (m : MatchResult) :
  match_at coordinate_re start s = Some m ->
  start = 0%nat /\
  exists a b : list N,
    s = a ++ 44 :: b /\
    decimal_text (List.map ascii_of_N a) = true /\ Forall coordinate_unit_facts a /\
    decimal_text (List.map ascii_of_N b) = true /\ Forall coordinate_unit_facts b.
Proof.
  unfold match_at, coordinate_re. cbn [rseq]. rewrite rmatch_RSeq. cbn [rmatch]. intros H.
  destruct (start + 0 =? 0)%nat eqn:E0; [|discriminate].
  apply Nat.eqb_eq in E0. split; [lia|].
  repeat rewrite <- ?rmatch_RSeq in H.
  change (rmatch start (RSeq (ropt (rchar "-"))
            (RSeq (rplus rdigit) (RSeq (rchar ".") (RSeq (rplus rdigit) (RSeq (rchar ",")
            (RSeq (ropt (rchar "-")) (RSeq (rplus rdigit) (RSeq (rchar ".")
            (RSeq (rplus rdigit) REol))))))))) 0 s None
            (fun pos' _ cap => Some {| m_start := start; m_end := start + pos';
                                       m_text := firstn pos' s; m_group := cap |}) = Some m) in H.
  rewrite rmatch_RSeq in H.
  apply (rmatch_rep _ _ _ _ _ _ _ _ _ _ (single_RChar _)) in H
    as (m1 & r1 & -> & Hm1 & _ & Lm1 & H).
  specialize (Lm1 1%nat eq_refl). rewrite rmatch_RSeq in H.
  apply (rmatch_rep _ _ _ _ _ _ _ _ _ _ (single_RClass _)) in H
    as (d1 & r2 & -> & Hd1 & Ld1 & _ & H).
  rewrite rmatch_RSeq in H.
  apply (rmatch_single _ _ _ _ _ _ _ _ (single_RChar _)) in H as (p1 & r3 & -> & Hp1 & H).
  apply N.eqb_eq in Hp1. change (byte ".") with 46 in Hp1. subst p1.
  rewrite rmatch_RSeq in H.
  apply (rmatch_rep _ _ _ _ _ _ _ _ _ _ (single_RClass _)) in H
    as (d2 & r4 & -> & Hd2 & Ld2 & _ & H).
  rewrite rmatch_RSeq in H.
  apply (rmatch_single _ _ _ _ _ _ _ _ (single_RChar _)) in H as (c1 & r5 & -> & Hc1 & H).
  apply N.eqb_eq in Hc1. change (byte ",") with 44 in Hc1. subst c1.
  rewrite rmatch_RSeq in H.
  apply (rmatch_rep _ _ _ _ _ _ _ _ _ _ (single_RChar _)) in H
    as (m2 & r6 & -> & Hm2 & _ & Lm2 & H).
  specialize (Lm2 1%nat eq_refl). rewrite rmatch_RSeq in H.
  apply (rmatch_rep _ _ _ _ _ _ _ _ _ _ (single_RClass _)) in H
    as (d3 & r7 & -> & Hd3 & Ld3 & _ & H).
  rewrite rmatch_RSeq in H.
  apply (rmatch_single _ _ _ _ _ _ _ _ (single_RChar _)) in H as (p2 & r8 & -> & Hp2 & H).
  apply N.eqb_eq in Hp2. change (byte ".") with 46 in Hp2. subst p2.
  rewrite rmatch_RSeq in H.
  apply (rmatch_rep _ _ _ _ _ _ _ _ _ _ (single_RClass _)) in H
    as (d4 & r9 & -> & Hd4 & Ld4 & _ & H).
  cbn [rmatch] in H. destruct r9 as [|z r9]; [|discriminate]. clear H.
  change (byte "-") with 45 in Hm1, Hm2.
  destruct (decimal_text_of_match m1 d1 d2 Hm1 Lm1 Hd1 Ld1 Hd2 Ld2) as [Ta Fa].
  destruct (decimal_text_of_match m2 d3 d4 Hm2 Lm2 Hd3 Ld3 Hd4 Ld4) as [Tb Fb].
  exists (m1 ++ d1 ++ 46 :: d2), (m2 ++ d3 ++ 46 :: d4).
  split; [|repeat split; assumption].
  rewrite ?app_nil_r. repeat (rewrite <- ?app_assoc; cbn [app]). reflexivity.
Qed.

End CoordinateText.


Section Resolution.
Context {H : Host}.

(** A text that matches the coordinate pattern is two numerals around a
    comma, and line 66 reads the two numbers off them. *)
Lemma coordinate_text_parsed (s : string) :
  regex_test coordinate_re s = true ->
  Forall (fun u => (u < 128)%N) (code_units s) /\
  exists a b : string,
    s = a +:+ "," +:+ b /\
    decimal_text (list_ascii_of_string a) = true /\
    decimal_text (list_ascii_of_string b) = true /\
    coordinates (JStr s) = Ok (JNum (StringToNumber a), JNum (StringToNumber b)).
Proof.
  unfold regex_test, regex_exec. destruct (search coordinate_re 0 (code_units s)) as [m|] eqn:E;
    [intros _ | discriminate].
  apply search_leftmost in E as (i & _ & _ & E & _).
  apply coordinate_re_match in E as (Hi & a & b & Hs & Ta & Fa & Tb & Fb).
  assert (i = 0)%nat as -> by lia. rewrite skipn_O in Hs.
  assert (Hascii : Forall (fun u => (u < 128)%N) (code_units s)).
  { rewrite Hs. apply Forall_app. split; [|constructor; [reflexivity|]].
    - eapply Forall_impl; [exact Fa|]. intros u [Hu _]. exact Hu.
    - eapply Forall_impl; [exact Fb|]. intros u [Hu _]. exact Hu. }
  split; [exact Hascii|].
  pose proof (decode_all_ascii _ Hascii) as Hb. fold (code_units s) in Hb.
  rewrite Hs, List.map_app in Hb. cbn [List.map] in Hb. change (ascii_of_N 44) with ","%char in Hb.
  set (la := List.map ascii_of_N a) in *. set (lb := List.map ascii_of_N b) in *.
  assert (Ca : Forall (fun c => Ascii.eqb c "," = false) la).
  { apply List.Forall_map. eapply Forall_impl; [exact Fa|]. intros u [_ Hu]. exact Hu. }
  assert (Cb : Forall (fun c => Ascii.eqb c "," = false) lb).
  { apply List.Forall_map. eapply Forall_impl; [exact Fb|]. intros u [_ Hu]. exact Hu. }
  exists (string_of_list_ascii la), (string_of_list_ascii lb).
  rewrite !list_ascii_of_string_of_list_ascii. split; [|split; [exact Ta|split; [exact Tb|]]].
  - rewrite <- (string_of_list_ascii_of_string s), Hb, string_of_list_ascii_app. reflexivity.
  - unfold coordinates, split, obind. rewrite Hb, (split_commas_first la lb [] Ca),
      (split_commas_last lb [] Cb). reflexivity.
Qed.

(** ASCII text is encoded without fail. *)
Lemma encode_uri_ascii (l : list N) :
  Forall (fun u => (u < 128)%N) l -> exists r, encode_uri l = Ok r.
Proof.
  induction 1 as [|u l Hu _ (r & IH)]; [eexists; reflexivity|].
  cbn [encode_uri]. rewrite IH. cbn [obind].
  assert (Hlo : is_low_surrogate u = false).
  { unfold is_low_surrogate. apply andb_false_iff. left. apply N.leb_gt. lia. }
  assert (Hhi : is_high_surrogate u = false).
  { unfold is_high_surrogate. apply andb_false_iff. left. apply N.leb_gt. lia. }
  rewrite Hlo, Hhi. destruct (uri_unreserved u); eexists; reflexivity.
Qed.

Lemma encode_uri_Throw (l : list N) (e : JsError) :
  encode_uri l = Throw e -> e = URIErr "URI malformed".
Proof.
  remember (length l) as n eqn:Hlen. revert l Hlen.
  induction n as [n IH] using lt_wf_ind. intros l Hlen.
  assert (IH' : forall l', (length l' < length l)%nat ->
                           encode_uri l' = Throw e -> e = URIErr "URI malformed").
  { intros l' Hl'. apply (IH (length l')); [lia | reflexivity]. }
  clear IH Hlen. destruct l as [|u l1]; cbn [encode_uri]; [discriminate|].
  unfold obind. destruct (uri_unreserved u).
  { destruct (encode_uri l1) eqn:E1; [discriminate|]. intros E. injection E as <-.
    apply (IH' l1); [simpl; lia | exact E1]. }
  destruct (is_low_surrogate u); [intros E; injection E as <-; reflexivity|].
  destruct (is_high_surrogate u).
  - destruct l1 as [|v l2]; [intros E; injection E as <-; reflexivity|].
    destruct (is_low_surrogate v); [|intros E; injection E as <-; reflexivity].
    destruct (encode_uri l2) eqn:E2; [discriminate|]. intros E. injection E as <-.
    apply (IH' l2); [simpl; lia | exact E2].
  - destruct (encode_uri l1) eqn:E1; [discriminate|]. intros E. injection E as <-.
    apply (IH' l1); [simpl; lia | exact E1].
Qed.

Lemma unreserved_no_surrogate (u : N) :
  uri_unreserved u = true -> is_low_surrogate u = false /\ is_high_surrogate u = false.
Proof.
  intros Hu.
  assert (Hlt : (u < 128)%N).
  { unfold uri_unreserved in Hu. cbn [existsb] in Hu.
    repeat match type of Hu with
           | (_ || _)%bool = true => apply orb_true_iff in Hu as [Hu|Hu]
           | (_ && _)%bool = true => apply andb_true_iff in Hu as [_ Hu]
           end;
      first [ apply N.leb_le in Hu; lia | apply N.eqb_eq in Hu; subst u; reflexivity
            | discriminate ]. }
  unfold is_low_surrogate, is_high_surrogate.
  split; apply andb_false_iff; left; apply N.leb_gt; lia.
Qed.

(** [encodeURIComponent] returns exactly on the well-formed strings. *)
Lemma encode_uri_well_formed (l : list N) :
  well_formed l = true <-> exists r, encode_uri l = Ok r.
Proof.
  remember (length l) as n eqn:Hlen. revert l Hlen.
  induction n as [n IH] using lt_wf_ind. intros l Hlen.
  assert (IH' : forall l', (length l' < length l)%nat ->
                           (well_formed l' = true <-> exists r, encode_uri l' = Ok r)).
  { intros l' Hl'. apply (IH (length l')); [lia | reflexivity]. }
  clear IH Hlen. destruct l as [|u l1]; cbn [encode_uri well_formed].
  { split; [eauto | reflexivity]. }
  assert (Step : forall (l' : list N) (f : list ascii -> list ascii),
            (length l' < length (u :: l1))%nat ->
            (well_formed l' = true <->
             exists r, (let? r' := encode_uri l' in Ok (f r')) = Ok r)).
  { intros l' f Hl'. rewrite (IH' l' Hl'). unfold obind.
    destruct (encode_uri l') as [r'|e]; split; eauto; intros (r & E); discriminate. }
  destruct (uri_unreserved u) eqn:Hu.
  { destruct (unreserved_no_surrogate u Hu) as [-> ->]. apply Step. simpl. lia. }
  destruct (is_low_surrogate u).
  { split; [discriminate | intros (r & E); discriminate]. }
  destruct (is_high_surrogate u).
  - destruct l1 as [|v l2]; [split; [discriminate | intros (r & E); discriminate]|].
    destruct (is_low_surrogate v); cbn [andb].
    + apply Step. simpl. lia.
    + split; [discriminate | intros (r & E); discriminate].
  - apply Step. simpl. lia.
Qed.

Lemma encodeURIComponent_well_formed (s : string) :
  well_formed (code_units s) = true <-> exists address, encodeURIComponent s = Ok address.
Proof.
  rewrite encode_uri_well_formed. unfold encodeURIComponent, obind.
  destruct (encode_uri (code_units s)) as [r|e]; split; eauto; intros (r & E); discriminate.
Qed.

Lemma encodeURIComponent_Throw (s : string) (e : JsError) :
  encodeURIComponent s = Throw e -> e = URIErr "URI malformed".
Proof.
  unfold encodeURIComponent, obind. destruct (encode_uri (code_units s)) eqn:E; [discriminate|].
  intros E'. injection E' as <-. eapply encode_uri_Throw, E.
Qed.

(** A text that cannot be encoded is no coordinate text. *)
Lemma not_encodable_no_coordinate (s : string) (e : JsError) :
  encodeURIComponent s = Throw e -> regex_test coordinate_re s = false.
Proof.
  intros E. destruct (regex_test coordinate_re s) eqn:T; [|reflexivity].
  apply coordinate_text_parsed in T as [Ha _].
  destruct (encode_uri_ascii _ Ha) as (r & Hr).
  unfold encodeURIComponent in E. rewrite Hr in E. discriminate.
Qed.

(** The reply decides the outcome: the resolution error when there are zero
    results, otherwise the coordinates or a TypeError on a malformed
    reply. *)
Lemma latlng_of_geocode_failed (geoRes : JsValue) :
  latlng_of_geocode geoRes = Throw (Thrown "geocode failed") <->
  geocode_zero_results geoRes = true.
Proof.
  unfold latlng_of_geocode, geocode_zero_results, obind.
  destruct (get_prop geoRes "results") as [results|e] eqn:E1.
  2: { apply get_prop_Throw in E1 as (_ & msg & ->). split; discriminate. }
  destruct (truthy results) eqn:T; cbn [negb orb].
  2: { split; reflexivity. }
  rewrite (get_prop_Ok results "length") by (apply truthy_not_nullish, T).
  destruct (truthy (prop results "length")); cbn [negb].
  2: { split; reflexivity. }
  split; [|discriminate]. intros E.
  repeat match type of E with
         | match ?X with _ => _ end = _ =>
             let Ex := fresh "Ex" in
             destruct X eqn:Ex;
             [| first [ apply get_first_Throw in Ex as (? & ->)
                      | apply get_prop_Throw in Ex as (_ & ? & ->)
                      | apply ToString_Throw in Ex as (? & ->) ]; discriminate ]
         end.
  discriminate.
Qed.

Lemma geocode_zero_results_array (fs : list (string * JsValue)) (l : list JsValue) :
  field "results" fs = Some (JArr l) ->
  geocode_zero_results (JObj fs) = (length l =? 0)%nat.
Proof.
  intros F. unfold geocode_zero_results. cbn [get_prop]. rewrite F.
  change (default JUndefined (Some (JArr l))) with (JArr l).
  cbn [get_prop]. change (String.eqb "length" "length") with true. cbv iota.
  rewrite float_of_nat_truthy, negb_involutive. reflexivity.
Qed.

Lemma resolveLatLng_value (w : World) (st : St) (a : JsValue) (s : string) :
  ToString a = Ok s -> regex_test coordinate_re s = true -> resolveLatLng a w st = (Ok a, st).
Proof. intros S T. unfold resolveLatLng, bind, lift. rewrite S, T. reflexivity. Qed.

Lemma resolveLatLng_coordinate (w : World) (st : St) (s : string) :
  regex_test coordinate_re s = true -> resolveLatLng (JStr s) w st = (Ok (JStr s), st).
Proof. apply resolveLatLng_value. reflexivity. Qed.

Lemma resolveLatLng_geocode (w : World) (st : St) (s address : string) :
  regex_test coordinate_re s = false ->
  encodeURIComponent s = Ok address ->
  resolveLatLng (JStr s) w st =
  (obind (await (fetch w (log st) (ReqGeocode address))) latlng_of_geocode,
   after_request w st (ReqGeocode address)).
Proof.
  intros T E. unfold resolveLatLng, bind, lift. cbn [ToString]. rewrite T, E.
  unfold fetch_json. destruct (fetch w (log st) (ReqGeocode address)); reflexivity.
Qed.

Lemma resolveLatLng_not_encodable (w : World) (st : St) (s : string) (e : JsError) :
  encodeURIComponent s = Throw e ->
  resolveLatLng (JStr s) w st = (Throw (URIErr "URI malformed"), st).
Proof.
  intros E. pose proof (not_encodable_no_coordinate s e E) as T.
  pose proof (encodeURIComponent_Throw s e E) as ->.
  unfold resolveLatLng, bind, lift. cbn [ToString]. rewrite T, E. reflexivity.
Qed.

End Resolution.


(** ** The scan handler (source lines 150-190) *)

Section Scan.
Context {H : Host}.

Lemma bind_Ok_inv {A B : Type} (m : M A) (k : A -> M B) (w : World) (st st' : St) (b : B) :
  bind m k w st = (Ok b, st') ->
  exists a st1, m w st = (Ok a, st1) /\ k a w st1 = (Ok b, st').
Proof.
  unfold bind. destruct (m w st) as [[a|e] st1]; [eauto|discriminate].
Qed.

Lemma lift_Ok_inv {A : Type} (o : Outcome A) (w : World) (st st' : St) (a : A) :
  lift o w st = (Ok a, st') -> o = Ok a /\ st' = st.
Proof. unfold lift. intros E. injection E as -> ->. auto. Qed.

Lemma ret_Ok_inv {A : Type} (x a : A) (w : World) (st st' : St) :
  ret x w st = (Ok a, st') -> a = x /\ st' = st.
Proof. unfold ret. intros E. injection E as -> ->. auto. Qed.

(** What [/api/scan] does once the address is there. *)
Lemma api_scan_run (fs : list (string * JsValue)) (w : World) (st : St) :
  truthy (prop (JObj fs) "address") = true ->
  api_scan (JObj fs) w st =
  match placesNearby (prop (JObj fs) "address")
                     (js_or (prop (JObj fs) "radius") (JNum 10)) w st with
  | (Ok places, st1) =>
      match slice20 places with
      | Ok candidates =>
          match mapM scan_candidate candidates w st1 with
          | (Ok results, st2) => (Ok (res_json (JObj [("competitors", JArr results)])), st2)
          | (Throw e, st2) =>
              (Ok (res_status_json 500 (JObj [("error", JStr (message e))])), st2)
          end
      | Throw e => (Ok (res_status_json 500 (JObj [("error", JStr (message e))])), st1)
      end
  | (Throw e, st1) => (Ok (res_status_json 500 (JObj [("error", JStr (message e))])), st1)
  end.
Proof.
  intros T. unfold api_scan, try_catch, bind, lift, ret, prop in *. cbn [get_prop] in *.
  rewrite T. cbn [negb].
  destruct (placesNearby _ _ w st) as [[places|e] st1]; [|reflexivity].
  destruct (slice20 places) as [candidates|e]; [|reflexivity].
  destruct (mapM scan_candidate candidates w st1) as [[results|e] st2]; reflexivity.
Qed.

Lemma placesNearby_resolution_failure (a r : JsValue) (w : World) (st st1 : St) (e : JsError) :
  resolveLatLng a w st = (Throw e, st1) -> placesNearby a r w st = (Throw e, st1).
Proof. intros E. unfold placesNearby. apply bind_Throw, E. Qed.

(** The entry pushed for a candidate carries the candidate's name; the
    loop body never throws for a candidate whose properties can be read. *)
Lemma scan_candidate_total (p : JsValue) (w : World) (st : St) :
  is_nullish p = false ->
  exists e st', scan_candidate p w st = (Ok e, st') /\ get_prop e "name" = get_prop p "name".
Proof.
  intros Hp. unfold scan_candidate, try_catch.
  match goal with |- context [match ?X with _ => _ end] => destruct X as [[e|err] st'] eqn:E end.
  - exists e, st'. split; [reflexivity|].
    repeat (apply bind_Ok_inv in E as (? & ? & ? & E)).
    apply ret_Ok_inv in E as (-> & _).
    repeat match goal with
           | Hl : lift (get_prop p _) _ _ = _ |- _ =>
               rewrite get_prop_Ok in Hl by exact Hp; apply lift_Ok_inv in Hl as (Hl & _);
               injection Hl as <-
           end.
    rewrite (get_prop_Ok p) by exact Hp. reflexivity.
  - unfold bind, lift, ret. rewrite !(get_prop_Ok p) by exact Hp.
    eexists _, _. split; reflexivity.
Qed.

Lemma mapM_scan_candidate (w : World) (candidates : list JsValue) :
  forall st : St,
    Forall (fun p => is_nullish p = false) candidates ->
    exists results st',
      mapM scan_candidate candidates w st = (Ok results, st') /\
      Forall2 (entry_of w) candidates results.
Proof.
  induction candidates as [|p ps IH]; intros st Hps.
  - exists [], st. split; [reflexivity | constructor].
  - apply Forall_cons_1 in Hps as [Hp Hps].
    destruct (scan_candidate_total p w st Hp) as (e & st1 & E & Hname).
    destruct (IH st1 Hps) as (es & st2 & Es & Hes).
    exists (e :: es), st2. split.
    + cbn [mapM]. rewrite (bind_Ok _ _ _ _ _ _ E), (bind_Ok _ _ _ _ _ _ Es). reflexivity.
    + constructor; [|exact Hes]. split; [eauto | exact Hname].
Qed.

End Scan.


(** ** The cache stays well formed *)

Section CacheInvariant.
Context {H : Host}.

Lemma cache_wf_same (st st' : St) : cache st' = cache st -> cache_wf st -> cache_wf st'.
Proof. unfold cache_wf. intros ->. auto. Qed.

Lemma cache_wf_fresh_state : cache_wf fresh_state.
Proof. intros k e E. cbn in E. rewrite lookup_empty in E. discriminate. Qed.

Lemma preserves_ret {A : Type} (a : A) : preserves (ret a).
Proof. intros w st Hwf. exact Hwf. Qed.

Lemma preserves_throw {A : Type} (e : JsError) : preserves (@throw A e).
Proof. intros w st Hwf. exact Hwf. Qed.

Lemma preserves_lift {A : Type} (o : Outcome A) : preserves (lift o).
Proof. intros w st Hwf. exact Hwf. Qed.

Lemma preserves_bind {A B : Type} (m : M A) (k : A -> M B) :
  preserves m -> (forall a, preserves (k a)) -> preserves (bind m k).
Proof.
  intros Hm Hk w st Hwf. specialize (Hm w st Hwf). unfold bind.
  destruct (m w st) as [[a|e] st1]; [apply Hk, Hm | exact Hm].
Qed.

Lemma preserves_try_catch {A : Type} (m : M A) (h : JsError -> M A) :
  preserves m -> (forall e, preserves (h e)) -> preserves (try_catch m h).
Proof.
  intros Hm Hh w st Hwf. specialize (Hm w st Hwf). unfold try_catch.
  destruct (m w st) as [[a|e] st1]; [exact Hm | apply Hh, Hm].
Qed.

Lemma preserves_sleep (d : Z) : preserves (sleep d).
Proof. intros w st Hwf. exact Hwf. Qed.

Lemma preserves_fetch_json (r : Request) : preserves (fetch_json r).
Proof. intros w st Hwf. exact Hwf. Qed.

Lemma preserves_page_content (url : string) : preserves (page_content url).
Proof. intros w st Hwf. exact Hwf. Qed.

Lemma preserves_browser_launch : preserves browser_launch.
Proof. intros w st Hwf. exact Hwf. Qed.

Lemma preserves_browser_close (url : string) : preserves (browser_close url).
Proof. intros w st Hwf. exact Hwf. Qed.

Lemma preserves_politeWaitForHost (host : string) : preserves (politeWaitForHost host).
Proof. intros w st Hwf. rewrite politeWaitForHost_run. exact Hwf. Qed.

Lemma preserves_getCache (key : string) : preserves (getCache key).
Proof.
  intros w st Hwf. unfold getCache. destruct (cache st !! key) as [v|]; [|exact Hwf].
  destruct (exp v <? now st)%Z; [|exact Hwf].
  intros k e E. cbn in E. apply lookup_delete_Some in E as [_ E]. apply (Hwf k e E).
Qed.

Lemma preserves_setCache (key : string) (v : JsValue) (ttl : Z) :
  (places_key key = true ->
   exists l, v = JArr l /\ Forall (fun p => is_nullish p = false) l) ->
  preserves (setCache key v ttl).
Proof.
  intros Hv w st Hwf k e E. cbn in E.
  apply lookup_insert_Some in E as [[<- <-]|[_ E]]; [exact Hv | apply (Hwf k e E)].
Qed.

Lemma preserves_pRetry {A : Type} (run : M A) (delays : list Z) :
  preserves run -> preserves (pRetry run delays).
Proof.
  intros Hrun. induction delays as [|d ds IH]; [exact Hrun|].
  cbn [pRetry]. apply preserves_try_catch; [exact Hrun|].
  intros _. apply preserves_bind; [apply preserves_sleep | intros _; exact IH].
Qed.

Lemma preserves_mapM {A B : Type} (f : A -> M B) (l : list A) :
  (forall a, preserves (f a)) -> preserves (mapM f l).
Proof.
  intros Hf. induction l as [|x l IH]; [apply preserves_ret|].
  cbn [mapM]. apply preserves_bind; [apply Hf|]. intros y.
  apply preserves_bind; [exact IH|]. intros ys. apply preserves_ret.
Qed.

Create HintDb preserves discriminated.
#[local] Hint Resolve preserves_ret preserves_throw preserves_lift preserves_sleep
  preserves_fetch_json preserves_page_content preserves_browser_launch
  preserves_browser_close preserves_politeWaitForHost preserves_getCache : preserves.

(** One step through a computation: a bind, a [try], a branch. *)
Ltac preserves_step :=
  first [ apply preserves_bind; [|intros ?]
        | apply preserves_try_catch; [|intros ?]
        | apply preserves_pRetry
        | match goal with |- preserves (if ?b then _ else _) => destruct b end
        | match goal with |- preserves (match ?x with _ => _ end) => destruct x end ].

Ltac preserves_auto :=
  repeat first [ solve [auto with preserves]
               | solve [apply preserves_setCache; discriminate]
               | preserves_step ].

Lemma preserves_scrapeSiteForPrice (url : JsValue) : preserves (scrapeSiteForPrice url).
Proof. unfold scrapeSiteForPrice, run. preserves_auto. Qed.

Lemma preserves_placeDetails (placeId : JsValue) : preserves (placeDetails placeId).
Proof. unfold placeDetails. preserves_auto. Qed.

Lemma place_of_result_record (p q : JsValue) :
  place_of_result p = Ok q -> is_nullish q = false.
Proof.
  unfold place_of_result, obind. intros E.
  repeat match type of E with
         | match ?X with _ => _ end = _ => destruct X; [|discriminate]
         end.
  injection E as <-. reflexivity.
Qed.

Lemma array_map_records (v : JsValue) (places : list JsValue) :
  array_map v place_of_result = Ok places ->
  Forall (fun p => is_nullish p = false) places.
Proof.
  destruct v as [| | | | |l|]; cbn [array_map]; try discriminate.
  revert places. induction l as [|p l IH]; intros places E; cbn [map_outcome] in E.
  - injection E as <-. constructor.
  - destruct (place_of_result p) as [q|] eqn:Ep; [|discriminate].
    destruct (map_outcome place_of_result l) as [qs|]; [|discriminate].
    injection E as <-. constructor; [eapply place_of_result_record, Ep | apply IH; reflexivity].
Qed.

Lemma resolveLatLng_cache (a : JsValue) (w : World) (st : St) :
  cache (snd (resolveLatLng a w st)) = cache st.
Proof.
  unfold resolveLatLng, bind, lift. destruct (ToString a) as [s|]; [|reflexivity].
  destruct (regex_test coordinate_re s); [reflexivity|].
  destruct (encodeURIComponent s); [|reflexivity].
  unfold fetch_json. destruct (await _); reflexivity.
Qed.

Lemma getCache_value (key : string) (w : World) (st st' : St) (v : JsValue) :
  getCache key w st = (Ok v, st') -> truthy v = true ->
  exists e, cache st !! key = Some e /\ value e = v.
Proof.
  unfold getCache. destruct (cache st !! key) as [e|]; intros E T.
  - destruct (exp e <? now st)%Z; injection E as <- <-; [discriminate | eauto].
  - injection E as <- <-. discriminate.
Qed.

Lemma preserves_bind_lift {A B : Type} (o : Outcome A) (k : A -> M B) :
  (forall a, o = Ok a -> preserves (k a)) -> preserves (bind (lift o) k).
Proof.
  intros Hk w st Hwf. unfold bind, lift.
  destruct o as [a|e]; [apply (Hk a eq_refl), Hwf | exact Hwf].
Qed.

Lemma preserves_resolveLatLng (a : JsValue) : preserves (resolveLatLng a).
Proof.
  intros w st Hwf. eapply cache_wf_same; [apply resolveLatLng_cache | exact Hwf].
Qed.

Lemma preserves_placesNearby (a r : JsValue) : preserves (placesNearby a r).
Proof.
  unfold placesNearby. apply preserves_bind; [apply preserves_resolveLatLng|].
  intros latlng. do 4 (apply preserves_bind; [apply preserves_lift|]; intros ?; cbv zeta).
  apply preserves_bind; [apply preserves_getCache|].
  intros cached. destruct (truthy cached); [apply preserves_ret|].
  apply preserves_bind; [apply preserves_fetch_json|]. intros res.
  apply preserves_bind; [apply preserves_lift|]. intros results.
  destruct (negb (truthy results)); [apply preserves_throw|].
  apply preserves_bind_lift. intros places E.
  apply preserves_bind; [|intros _; apply preserves_ret].
  apply preserves_setCache. intros _. exists places.
  split; [reflexivity | eapply array_map_records, E].
Qed.

(** From a well-formed cache, what [placesNearby] returns is an array of
    records. *)
Lemma placesNearby_records (a r : JsValue) (w : World) (st st1 : St) (v : JsValue) :
  cache_wf st ->
  placesNearby a r w st = (Ok v, st1) ->
  exists places, v = JArr places /\ Forall (fun p => is_nullish p = false) places.
Proof.
  intros Hwf E. unfold placesNearby in E.
  apply bind_Ok_inv in E as (latlng & st0 & R & E).
  assert (Hwf0 : cache_wf st0).
  { pose proof (preserves_resolveLatLng a w st Hwf) as P. rewrite R in P. exact P. }
  do 4 (apply bind_Ok_inv in E as (? & ? & L & E); apply lift_Ok_inv in L as (_ & ->)).
  cbv zeta in E. apply bind_Ok_inv in E as (cached & st2 & G & E).
  destruct (truthy cached) eqn:T.
  - apply ret_Ok_inv in E as (-> & ->).
    destruct (getCache_value _ w st0 st2 cached G T) as (e & Ee & <-).
    apply (Hwf0 _ e Ee). reflexivity.
  - apply bind_Ok_inv in E as (res & st3 & F & E).
    apply bind_Ok_inv in E as (results & st4 & L & E).
    apply lift_Ok_inv in L as (_ & ->).
    destruct (negb (truthy results)); [discriminate|].
    apply bind_Ok_inv in E as (places & st5 & L & E).
    apply lift_Ok_inv in L as (L & ->).
    apply bind_Ok_inv in E as (u & st6 & S & E).
    apply ret_Ok_inv in E as (-> & ->).
    exists places. split; [reflexivity | eapply array_map_records, L].
Qed.

#[local] Hint Resolve preserves_scrapeSiteForPrice preserves_placeDetails
  preserves_placesNearby : preserves.

Lemma preserves_scan_candidate (p : JsValue) : preserves (scan_candidate p).
Proof. unfold scan_candidate, and_prop. preserves_auto. Qed.

(** [/api/scan] keeps the cache well formed. *)
Lemma api_scan_preserves_cache_wf (req_body : JsValue) : preserves (api_scan req_body).
Proof.
  unfold api_scan. preserves_auto.
  apply preserves_mapM, preserves_scan_candidate.
Qed.

End CacheInvariant.


Section ScanTheorems.
Context {H : Host}.

(** C8. A string that matches the strict "lat,lng" pattern is taken as the
    coordinate string with no external call: the state, and with it the log
    of requests, is unchanged, the string is two decimal numerals around a
    comma, and the coordinates read off it are the numbers of the two
    numerals.  Any other string that can be URI-encoded issues exactly one
    geocoding request, for the encoded text, and the step fails with the
    resolution error exactly when the provider answers with zero results.  A
    string that cannot be encoded matches no pattern and fails the step with
    a URIError before any request: the state is unchanged.  The strings that
    can be encoded are the well-formed ones, those without an unpaired
    surrogate.  A failure of the step makes the whole scan request fail, with
    status 500 and no competitor list.  A reply whose [results] is an array
    has zero results exactly when the array is empty. *)
Theorem location_resolution (w : World) (st : St) (s : string) :
  (regex_test coordinate_re s = true ->
     resolveLatLng (JStr s) w st = (Ok (JStr s), st) /\
     exists a b : string,
       s = a +:+ "," +:+ b /\
       decimal_text (list_ascii_of_string a) = true /\
       decimal_text (list_ascii_of_string b) = true /\
       coordinates (JStr s) = Ok (JNum (StringToNumber a), JNum (StringToNumber b))) /\
  (forall address : string,
     regex_test coordinate_re s = false ->
     encodeURIComponent s = Ok address ->
     log (snd (resolveLatLng (JStr s) w st)) = log st ++ [ReqGeocode address] /\
     (fst (resolveLatLng (JStr s) w st) = Throw (Thrown "geocode failed") <->
      exists geoRes, fetch w (log st) (ReqGeocode address) = Fulfilled geoRes /\
                     geocode_zero_results geoRes = true)) /\
  (forall e : JsError,
     encodeURIComponent s = Throw e ->
     regex_test coordinate_re s = false /\
     resolveLatLng (JStr s) w st = (Throw (URIErr "URI malformed"), st)) /\
  (well_formed (code_units s) = true <-> exists address, encodeURIComponent s = Ok address) /\
  (forall (fs : list (string * JsValue)) (e : JsError),
     field "address" fs = Some (JStr s) -> truthy (JStr s) = true ->
     fst (resolveLatLng (JStr s) w st) = Throw e ->
     fst (api_scan (JObj fs) w st) =
       Ok {| status := 500; body := JObj [("error", JStr (message e))] |} /\
     has_field "competitors" (JObj [("error", JStr (message e))]) = false) /\
  (forall (fs : list (string * JsValue)) (l : list JsValue),
     field "results" fs = Some (JArr l) ->
     geocode_zero_results (JObj fs) = (length l =? 0)%nat).
Proof.
  split; [|split; [|split; [|split; [|split]]]].
  - intros T. split; [apply resolveLatLng_coordinate, T|].
    apply coordinate_text_parsed, T.
  - intros address T E. rewrite (resolveLatLng_geocode w st s address T E).
    cbn [fst snd after_request log]. split; [reflexivity|].
    destruct (fetch w (log st) (ReqGeocode address)) as [geoRes|msg]; cbn [await obind].
    + rewrite latlng_of_geocode_failed. split.
      * intros Z. exists geoRes. split; [reflexivity | exact Z].
      * intros (g & E' & Z). injection E' as <-. exact Z.
    + split; [discriminate|]. intros (g & E' & _). discriminate.
  - intros e E. split; [eapply not_encodable_no_coordinate, E|].
    eapply resolveLatLng_not_encodable, E.
  - apply encodeURIComponent_well_formed.
  - intros fs e F T E.
    assert (Ha : prop (JObj fs) "address" = JStr s)
      by (unfold prop; cbn [get_prop]; rewrite F; reflexivity).
    split; [|reflexivity].
    rewrite api_scan_run by (rewrite Ha; exact T). rewrite Ha.
    destruct (resolveLatLng (JStr s) w st) as [o st1] eqn:R. cbn [fst] in E. subst o.
    rewrite (placesNearby_resolution_failure (JStr s) _ w st st1 e R). reflexivity.
  - intros fs l F. apply geocode_zero_results_array, F.
Qed.

(** C7. From a well-formed cache, when [placesNearby] returns its
    candidates, they are an array [places] of records and the scan answers
    with status 200 and a competitor list of exactly
    [min (length places) 20] entries, the i-th of which is the entry of the
    i-th candidate: the list follows the first 20 candidates in their order.
    The cache is again well formed afterwards. *)
Theorem scan_returns_first_20_in_order
    (fs : list (string * JsValue)) (w : World) (st st1 : St) (v : JsValue) :
  cache_wf st ->
  truthy (prop (JObj fs) "address") = true ->
  placesNearby (prop (JObj fs) "address")
               (js_or (prop (JObj fs) "radius") (JNum 10)) w st = (Ok v, st1) ->
  exists (places results : list JsValue) (st2 : St),
    v = JArr places /\
    api_scan (JObj fs) w st =
      (Ok {| status := 200;
             body := JObj [("competitors", JArr (List.map to_json results))] |}, st2) /\
    length results = Nat.min (length places) 20 /\
    Forall2 (entry_of w) (firstn 20 places) results /\
    (forall (i : nat) (p : JsValue),
       (i < 20)%nat -> places !! i = Some p ->
       exists e, results !! i = Some e /\ get_prop e "name" = get_prop p "name") /\
    cache_wf st2.
Proof.
  intros Hwf T P.
  destruct (placesNearby_records _ _ w st st1 v Hwf P) as (places & -> & Hobj).
  assert (Hc : Forall (fun p => is_nullish p = false) (firstn 20 places)).
  { apply Forall_take, Hobj. }
  destruct (mapM_scan_candidate w (firstn 20 places) st1 Hc) as (results & st2 & E & F2).
  exists places, results, st2. split; [reflexivity|].
  pose proof (api_scan_preserves_cache_wf (JObj fs) w st Hwf) as Hwf2.
  rewrite api_scan_run in Hwf2 |- * by exact T. rewrite P in Hwf2 |- *.
  cbn [slice20] in Hwf2 |- *. rewrite E in Hwf2 |- *.
  split; [reflexivity|].
  assert (Hlen : length results = Nat.min (length places) 20).
  { rewrite <- (Forall2_length _ _ _ F2). rewrite length_firstn. lia. }
  split; [exact Hlen|]. split; [exact F2|]. split; [|exact Hwf2].
  intros i p Hi Hp.
  assert (Hp' : firstn 20 places !! i = Some p).
  { change (firstn 20 places) with (take 20 places). rewrite lookup_take_lt by exact Hi. exact Hp. }
  destruct (Forall2_lookup_l _ _ _ _ _ F2 Hp') as (e & He & _ & Hname). eauto.
Qed.

End ScanTheorems.

(** A scan of the two candidates of [one_site_down] in a process that
    has just started. *)
Lemma scan_returns_first_20_in_order_witness :
  exists (results : list JsValue) (st2 : St),
    @api_scan stub_host scan_request one_site_down fresh_state =
      (Ok {| status := 200;
             body := JObj [("competitors", JArr (List.map to_json results))] |}, st2) /\
    length results = 2%nat.
Proof.
  destruct (@scan_returns_first_20_in_order stub_host
              [("facilityName", JStr "My Storage"); ("address", JStr "35.1495,-90.0490");
               ("radius", JNum 10)]
              one_site_down fresh_state
              (snd (@placesNearby stub_host (JStr "35.1495,-90.0490") (JNum 10)
                      one_site_down fresh_state))
              (JArr [JObj [("place_id", JStr "a"); ("name", JStr "A Storage");
                           ("address", JStr "1 Main St"); ("location", JUndefined);
                           ("types", JUndefined); ("rating", JUndefined)];
                     JObj [("place_id", JStr "b"); ("name", JStr "B Storage");
                           ("address", JStr "2 Main St"); ("location", JUndefined);
                           ("types", JUndefined); ("rating", JUndefined)]]))
    as (places & results & st2 & Hv & E & L & _).
  - intros k e Hk. vm_compute in Hk. discriminate.
  - vm_compute. reflexivity.
  - vm_compute. reflexivity.
  - exists results, st2. split; [exact E|].
    injection Hv as <-. exact L.
Defined.

(** The scrape of one candidate fails for good: the loop goes on, and the
    entry pushed for that candidate is the ordinary record with [unit],
    [price] and [availability] undefined.  The object [{ error: 'scrape
    failed' }] is only read for those three properties, so the entry has no
    [error] field. *)
Lemma scan_candidate_scrape_failed {H : Host}
    (p details : JsValue) (w : World) (st st1 st2 : St) (err : JsError) :
  is_nullish p = false ->
  placeDetails (prop p "place_id") w st = (Ok details, st1) ->
  truthy details = true ->
  truthy (prop details "website") = true ->
  scrapeSiteForPrice (prop details "website") w st1 = (Throw err, st2) ->
  exists entry,
    scan_candidate p w st = (Ok entry, st2) /\
    has_field "error" entry = false /\
    get_prop entry "price" = Ok JUndefined /\
    get_prop entry "unit" = Ok JUndefined /\
    get_prop entry "source" = Ok (JStr "website").
Proof.
  intros Hp D Td Tw S.
  unfold scan_candidate, try_catch, and_prop, bind, lift, ret.
  rewrite !(get_prop_Ok p) by exact Hp. cbv beta iota. rewrite D. cbv beta iota.
  rewrite Td. rewrite !(get_prop_Ok details) by (apply truthy_not_nullish, Td).
  cbv beta iota. unfold js_or. rewrite Tw. cbv beta iota. rewrite Tw, S.
  cbn [truthy get_prop]. cbv beta iota.
  destruct (truthy (prop details "formatted_address"));
    (eexists; split; [reflexivity|]; repeat split; reflexivity).
Qed.

(** C2 on the code: in a scan of two candidates where the website of the
    first cannot be loaded within the retries, the scan answers with two
    entries, and the entry of the first candidate has no [error] field (and
    no price or unit); the second is populated from its page. *)
Theorem scan_entry_after_scrape_failure :
  fst (@api_scan stub_host scan_request one_site_down fresh_state) =
    Ok {| status := 200;
          body := JObj [("competitors",
            JArr [JObj [("name", JStr "A Storage"); ("address", JStr "1 Main St");
                        ("place_id", JStr "a"); ("website", JStr "https://a.example");
                        ("distance", JNull); ("source", JStr "website")];
                  JObj [("name", JStr "B Storage"); ("address", JStr "2 Main St");
                        ("place_id", JStr "b"); ("website", JStr "https://b.example");
                        ("distance", JNull); ("unit", JStr "5x10");
                        ("price", JNum 75); ("source", JStr "website")]])] |} /\
  List.filter (fun r => match r with ReqPage "https://a.example" => true | _ => false end)
              (log (snd (@api_scan stub_host scan_request one_site_down fresh_state))) =
    [ReqPage "https://a.example"; ReqPage "https://a.example"; ReqPage "https://a.example"].
Proof. split; vm_compute; reflexivity. Qed.


(** ** The suggest handler (source lines 192-210) *)

Section Suggest.
Context {H : Host}.

Lemma median_None (l : list float) : median l = None <-> l = [].
Proof.
  unfold median. destruct l as [|x l]; [split; reflexivity|].
  cbn [length Nat.eqb]. split; [|discriminate].
  destruct (length _ mod 2 =? 0)%nat; discriminate.
Qed.

Lemma suggest_prices_array (cs : list JsValue) :
  Forall (fun c => is_nullish c = false) cs ->
  Forall (fun c => convertible (prop c "price") = true) cs ->
  suggest_prices (JArr cs) = Ok (numeric_prices cs).
Proof.
  intros Hcs Hps. unfold suggest_prices, numeric_prices, js_or. cbn [truthy array_map].
  assert (E : map_outcome (fun c => let? p := get_prop c "price" in ToNumber p) cs =
              Ok (List.map price_number cs)).
  { induction Hcs as [|c cs Hc _ IH]; [reflexivity|].
    apply Forall_cons_1 in Hps as [Hp Hps].
    cbn [map_outcome List.map]. rewrite (get_prop_Ok c "price" Hc). cbn [obind].
    rewrite (ToNumber_convertible _ Hp), (IH Hps). reflexivity. }
  rewrite E. reflexivity.
Qed.

(** A price that cannot be converted makes the conversion of the list
    throw. *)
Lemma suggest_prices_throws (cs : list JsValue) :
  Forall (fun c => is_nullish c = false) cs ->
  Exists (fun c => convertible (prop c "price") = false) cs ->
  exists e, suggest_prices (JArr cs) = Throw e.
Proof.
  intros Hcs Hex. unfold suggest_prices, js_or. cbn [truthy array_map].
  assert (E : exists e, map_outcome (fun c => let? p := get_prop c "price" in ToNumber p) cs
                        = Throw e).
  { induction Hcs as [|c cs Hc Hcs IH]; [inversion Hex|].
    cbn [map_outcome]. rewrite (get_prop_Ok c "price" Hc). cbn [obind].
    destruct (ToNumber (prop c "price")) as [x|e] eqn:Ex; [|eauto].
    assert (Hex' : Exists (fun c => convertible (prop c "price") = false) cs).
    { inversion Hex as [? ? Hc'|]; [|assumption]. subst.
      destruct (ToNumber_not_convertible _ Hc') as (e & He). congruence. }
    destruct (IH Hex') as (e & ->). eauto. }
  destruct E as (e & ->). eauto.
Qed.

(** What [/api/suggest] answers for an array of competitor records whose
    prices can be converted. *)
Lemma api_suggest_run (fs : list (string * JsValue)) (cs : list JsValue) :
  field "competitors" fs = Some (JArr cs) ->
  Forall (fun c => is_nullish c = false) cs ->
  Forall (fun c => convertible (prop c "price") = true) cs ->
  api_suggest (JObj fs) =
  match median (numeric_prices cs) with
  | None => res_status_json 400 (JObj [("error", JStr "no competitor prices available")])
  | Some med =>
      res_json (JObj [("recommendedPrice", JNum (recommended_price med));
                      ("rationale",
                       JStr ("Median competitor price is $" +:+ NumberToString med
                             +:+ ". Undercutting by "
                             +:+ NumberToString (alpha * 100)%float +:+ "%"));
                      ("confidence", JNum 0.6%float)])
  end.
Proof.
  intros F Hcs Hps. unfold api_suggest. cbn [get_prop]. rewrite F.
  change (default JUndefined (Some (JArr cs))) with (JArr cs).
  rewrite (suggest_prices_array cs Hcs Hps). reflexivity.
Qed.

(** With a price that cannot be converted the answer is status 500. *)
Lemma api_suggest_throws (fs : list (string * JsValue)) (cs : list JsValue) :
  field "competitors" fs = Some (JArr cs) ->
  Forall (fun c => is_nullish c = false) cs ->
  Exists (fun c => convertible (prop c "price") = false) cs ->
  exists e, api_suggest (JObj fs) = res_status_json 500 (JObj [("error", JStr (message e))]).
Proof.
  intros F Hcs Hex. unfold api_suggest. cbn [get_prop]. rewrite F.
  change (default JUndefined (Some (JArr cs))) with (JArr cs).
  destruct (suggest_prices_throws cs Hcs Hex) as (e & ->). eauto.
Qed.

(** The request fails with status 400 exactly when no price is a number
    other than NaN after [Number(c.price)]. *)
Lemma suggest_fails_iff_no_numeric_price (fs : list (string * JsValue)) (cs : list JsValue) :
  field "competitors" fs = Some (JArr cs) ->
  Forall (fun c => is_nullish c = false) cs ->
  Forall (fun c => convertible (prop c "price") = true) cs ->
  (status (api_suggest (JObj fs)) = 400%Z <-> numeric_prices cs = []) /\
  (numeric_prices cs <> [] -> status (api_suggest (JObj fs)) = 200%Z).
Proof.
  intros F Hcs Hps. rewrite (api_suggest_run fs cs F Hcs Hps).
  destruct (median (numeric_prices cs)) as [med|] eqn:E.
  - assert (numeric_prices cs <> []) by (intros N; apply median_None in N; congruence).
    cbn [res_json status]. split; [split; [discriminate | contradiction] | reflexivity].
  - apply median_None in E. cbn [res_status_json status].
    split; [split; [intros _; exact E | reflexivity] | contradiction].
Qed.

Lemma plain_price_convertible (p : JsValue) : plain_price p -> convertible p = true.
Proof. intros [(x & ->)|[C _]]; [reflexivity | exact C]. Qed.

(** On plain prices the prices the code keeps are the numeric prices of the
    specification. *)
Lemma numeric_prices_plain (cs : list JsValue) :
  Forall (fun c => plain_price (prop c "price")) cs ->
  numeric_prices cs = spec_numeric_prices cs.
Proof.
  unfold numeric_prices, spec_numeric_prices, price_number.
  induction 1 as [|c cs Hc _ IH]; [reflexivity|].
  cbn [List.map List.filter flat_map]. rewrite IH.
  destruct Hc as [(x & ->)|[_ N]].
  - change (number_of (JNum x)) with x. destruct (isNaN x); reflexivity.
  - rewrite N. cbn [negb].
    destruct (prop c "price") as [| | |x| | |] eqn:P; try reflexivity.
    change (number_of (JNum x)) with x in N. rewrite N. reflexivity.
Qed.

(** For an array of competitor records with plain prices, at least one of
    them a number, [/api/suggest] answers with status 200, the recommended
    price [Math.round((m * (1 - 0.06)) * 100) / 100] for the median [m] of
    the numeric prices, and confidence 0.6. *)
Lemma suggest_recommendation (fs : list (string * JsValue)) (cs : list JsValue) :
  field "competitors" fs = Some (JArr cs) ->
  Forall (fun c => is_nullish c = false) cs ->
  Forall (fun c => plain_price (prop c "price")) cs ->
  spec_numeric_prices cs <> [] ->
  exists m : float,
    median (spec_numeric_prices cs) = Some m /\
    api_suggest (JObj fs) =
      {| status := 200;
         body := JObj [("recommendedPrice", to_json (JNum (recommended_price m)));
                       ("rationale",
                        JStr ("Median competitor price is $" +:+ NumberToString m
                              +:+ ". Undercutting by "
                              +:+ NumberToString (alpha * 100)%float +:+ "%"));
                       ("confidence", JNum 0.6%float)] |}.
Proof.
  intros F Hcs Hps Hne.
  assert (Hconv : Forall (fun c => convertible (prop c "price") = true) cs).
  { eapply Forall_impl; [exact Hps|]. intros c. apply plain_price_convertible. }
  rewrite <- (numeric_prices_plain cs Hps) in Hne |- *.
  destruct (median (numeric_prices cs)) as [m|] eqn:E.
  - exists m. split; [reflexivity|].
    rewrite (api_suggest_run fs cs F Hcs Hconv), E. reflexivity.
  - apply median_None in E. contradiction.
Qed.

(** C4 on the code: a price [null] is counted as the price 0.  For the
    competitors with the prices [null] and 100 the only numeric price is 100,
    whose median is 100 and whose recommendation is 94; the code takes the
    median 50 of 0 and 100 and recommends 47, with confidence 0.6.  For the
    prices 100, 120 and 110 the median is 110 and the recommended price
    103.4, and the rounding is to two decimal places: the median 99.99 gives
    93.99 and the median 33.33 gives 31.33.  A price that is an object with a
    property [toString] makes [Number] throw: the answer is status 500, also
    when another price is a number. *)
Theorem suggest_counts_null_price_in_median :
  spec_numeric_prices [competitor JNull; competitor (JNum 100)] = [100%float] /\
  median [100%float] = Some 100%float /\
  recommended_price 100 = 94%float /\
  numeric_prices [competitor JNull; competitor (JNum 100)] = [0%float; 100%float] /\
  median [0%float; 100%float] = Some 50%float /\
  api_suggest (suggest_request [competitor JNull; competitor (JNum 100)]) =
    {| status := 200;
       body := JObj [("recommendedPrice", JNum 47%float);
                     ("rationale",
                      JStr ("Median competitor price is $" +:+ NumberToString 50%float
                            +:+ ". Undercutting by "
                            +:+ NumberToString (alpha * 100)%float +:+ "%"));
                     ("confidence", JNum 0.6%float)] |} /\
  api_suggest (suggest_request
                 [competitor (JNum 100); competitor (JNum 120); competitor (JNum 110)]) =
    {| status := 200;
       body := JObj [("recommendedPrice", JNum 103.4%float);
                     ("rationale",
                      JStr ("Median competitor price is $" +:+ NumberToString 110%float
                            +:+ ". Undercutting by "
                            +:+ NumberToString (alpha * 100)%float +:+ "%"));
                     ("confidence", JNum 0.6%float)] |} /\
  recommended_price 99.99 = 93.99%float /\
  recommended_price 33.33 = 31.33%float /\
  api_suggest (suggest_request
                 [competitor (JObj [("toString", JNum 1)]); competitor (JNum 100)]) =
    {| status := 500;
       body := JObj [("error", JStr "Cannot convert object to primitive value")] |}.
Proof. repeat split; vm_compute; reflexivity. Qed.

(** C1 on the code: [Number(null)] is 0, which is not NaN.  For a
    competitor list whose only price is [null], the form in which
    [/api/scan] reports a competitor without a price, the request does not
    fail: it answers with status 200 and recommends the price 0.  The same
    holds for the empty string, while an absent price and the text ["abc"]
    are dropped. *)
Theorem suggest_null_price_is_zero :
  status (api_suggest (suggest_request [competitor JNull])) = 200%Z /\
  get_prop (body (api_suggest (suggest_request [competitor JNull]))) "recommendedPrice"
    = Ok (JNum 0%float) /\
  numeric_prices [competitor JNull] = [0%float] /\
  numeric_prices [competitor (JStr "")] = [0%float] /\
  numeric_prices [competitor JUndefined; JObj [("name", JStr "A Storage")];
                  competitor (JStr "abc")] = [] /\
  status (api_suggest (suggest_request [])) = 400%Z.
Proof. repeat split; vm_compute; reflexivity. Qed.

End Suggest.


(** ** The theorems at concrete inputs *)

(** An entry set with a time to live of one second: read one second later
    it is returned, read a millisecond after that it is gone. *)
Lemma cache_entry_lifetime_witness :
  let st1 := snd (setCache "k" (JStr "v") 1 one_site_down fresh_state) in
  getCache "k" one_site_down (at_time (now fresh_state + 1000) st1)
    = (Ok (JStr "v"), at_time (now fresh_state + 1000) st1) /\
  fst (getCache "k" one_site_down (at_time (now fresh_state + 1001) st1)) = Ok JNull /\
  size (cache (snd (getCache "k" one_site_down (at_time (now fresh_state + 1001) st1)))) = 0%nat.
Proof.
  intros st1.
  destruct (cache_entry_lifetime one_site_down fresh_state
              (at_time (now fresh_state + 1000) st1) "k" (JStr "v") 1 eq_refl) as (Hget & _ & _).
  destruct (cache_entry_lifetime one_site_down fresh_state
              (at_time (now fresh_state + 1001) st1) "k" (JStr "v") 1 eq_refl) as (_ & Hgone & _).
  split; [apply Hget; vm_compute; discriminate|].
  destruct Hgone as (Hnull & _ & _ & Hsize); [vm_compute; reflexivity|].
  split; [exact Hnull|]. vm_compute in Hsize. vm_compute. congruence.
Defined.

(** Two calls for one host, the second issued as soon as the first has
    completed. *)
Lemma polite_wait_spacing_witness :
  let st1 := snd (politeWaitForHost "example.com" one_site_down fresh_state) in
  (now st1 + 2000 <= now (snd (politeWaitForHost "example.com" one_site_down st1)))%Z.
Proof.
  intros st1.
  destruct (polite_wait_spacing one_site_down "example.com" fresh_state st1) as (Hgap & _).
  - intros t d. vm_compute. discriminate.
  - reflexivity.
  - vm_compute. discriminate.
  - exact Hgap.
Defined.

(** A coordinate pair is taken as it is, and the search that follows is
    at the two numbers it holds; an address costs one geocoding request, for
    its encoded text. *)
Lemma location_resolution_witness :
  @resolveLatLng stub_host (JStr "35.1495,-90.0490") one_site_down fresh_state
    = (Ok (JStr "35.1495,-90.0490"), fresh_state) /\
  log (snd (@placesNearby stub_host (JStr "35.1495,-90.0490") (JNum 10)
              one_site_down fresh_state))
    = [ReqNearby (JNum 35.1495%float) (JNum (-90.049)%float) 16093%float] /\
  log (snd (@resolveLatLng stub_host (JStr "12 Elm St") one_site_down fresh_state))
    = [ReqGeocode "12%20Elm%20St"].
Proof.
  destruct (@location_resolution stub_host one_site_down fresh_state "35.1495,-90.0490")
    as (Hc & _).
  destruct (@location_resolution stub_host one_site_down fresh_state "12 Elm St")
    as (_ & Hg & _).
  split; [apply Hc; vm_compute; reflexivity|]. split; [vm_compute; reflexivity|].
  destruct (Hg "12%20Elm%20St") as (Hlog & _);
    [vm_compute; reflexivity | vm_compute; reflexivity | exact Hlog].
Defined.

(** An address that is one unpaired surrogate is no coordinate pair, and no
    geocoding request is issued for it: the step throws before the request,
    and the scan answers with status 500. *)
Lemma location_resolution_counterexample :
  code_units unpaired_surrogate = [55296%N] /\
  regex_test coordinate_re unpaired_surrogate = false /\
  log (snd (@resolveLatLng stub_host (JStr unpaired_surrogate) one_site_down fresh_state)) = [] /\
  ~ (exists address : string,
       log (snd (@resolveLatLng stub_host (JStr unpaired_surrogate) one_site_down fresh_state))
       = log fresh_state ++ [ReqGeocode address]) /\
  @api_scan stub_host (JObj [("address", JStr unpaired_surrogate)]) one_site_down fresh_state
    = (Ok {| status := 500; body := JObj [("error", JStr "URI malformed")] |}, fresh_state).
Proof.
  split; [vm_compute; reflexivity|]. split; [vm_compute; reflexivity|].
  split; [vm_compute; reflexivity|]. split; [|vm_compute; reflexivity].
  intros (address & E). vm_compute in E. discriminate.
Qed.


(* ===================================================================== *)
(** * Part III: further properties                                        *)
(* ===================================================================== *)

(** ** The cache as a map with expiry *)

Section CacheLaws.
Local Open Scope Z_scope.

Lemma getCache_answer (w : World) (st : St) (k : string) :
  fst (getCache k w st) =
  match cache st !! k with
  | Some e => if exp e <? now st then Ok JNull else Ok (value e)
  | None => Ok JNull
  end.
Proof.
  unfold getCache. destruct (cache st !! k) as [e|]; [|reflexivity].
  destruct (exp e <? now st); reflexivity.
Qed.

(** Keys do not interfere.  A read of a key that has no entry returns
    [null] and changes nothing; writing or reading the key [k] leaves the
    entry of every other key [k'] as it was, and with it the answer of a read
    of [k']. *)
Theorem cache_keys_independent
    (w : World) (st : St) (k k' : string) (v : JsValue) (ttl : Z) :
  k' <> k ->
  (cache st !! k = None -> getCache k w st = (Ok JNull, st)) /\
  cache (snd (setCache k v ttl w st)) !! k' = cache st !! k' /\
  cache (snd (getCache k w st)) !! k' = cache st !! k' /\
  fst (getCache k' w (snd (setCache k v ttl w st))) = fst (getCache k' w st) /\
  fst (getCache k' w (snd (getCache k w st))) = fst (getCache k' w st).
Proof.
  intros Hne.
  assert (Hset : cache (snd (setCache k v ttl w st)) !! k' = cache st !! k').
  { cbn [setCache snd cache]. apply lookup_insert_ne. congruence. }
  assert (Hget : cache (snd (getCache k w st)) !! k' = cache st !! k').
  { unfold getCache. destruct (cache st !! k) as [e|]; [|reflexivity].
    destruct (exp e <? now st); [|reflexivity].
    cbn [snd cache]. apply lookup_delete_ne. congruence. }
  assert (Hnow : now (snd (getCache k w st)) = now st).
  { unfold getCache. destruct (cache st !! k) as [e|]; [|reflexivity].
    destruct (exp e <? now st); reflexivity. }
  split; [intros Hk; unfold getCache; rewrite Hk; reflexivity|].
  split; [exact Hset|]. split; [exact Hget|]. split.
  - rewrite !getCache_answer, Hset. reflexivity.
  - rewrite !getCache_answer, Hget, Hnow. reflexivity.
Qed.

(** The last write wins, with its own time to live.  After two writes of
    one key, the second at time [t], the cache holds one entry for the key:
    the second value, expiring [ttl2] seconds after [t] whatever the first
    time to live was; the size of the cache is that after the first write. *)
Theorem setCache_overwrites
    (w : World) (st : St) (k : string) (v1 v2 : JsValue) (ttl1 ttl2 t : Z) :
  let st1 := snd (setCache k v1 ttl1 w st) in
  let st2 := snd (setCache k v2 ttl2 w (at_time t st1)) in
  cache st2 !! k = Some {| value := v2; exp := t + ttl2 * 1000 |} /\
  size (cache st2) = size (cache st1) /\
  (forall t', t' <= t + ttl2 * 1000 ->
     getCache k w (at_time t' st2) = (Ok v2, at_time t' st2)) /\
  (forall t', t + ttl2 * 1000 < t' ->
     fst (getCache k w (at_time t' st2)) = Ok JNull).
Proof.
  cbv zeta. cbn [setCache snd cache at_time now].
  split; [apply lookup_insert_eq|]. split.
  { apply map_size_insert_Some. rewrite lookup_insert_eq. eauto. }
  split; intros t' Ht.
  - apply getCache_fresh with (e := {| value := v2; exp := t + ttl2 * 1000 |}).
    + cbn [at_time cache]. apply lookup_insert_eq.
    + cbn [at_time now exp]. exact Ht.
  - erewrite getCache_expired; [reflexivity | cbn [at_time cache]; apply lookup_insert_eq |].
    cbn [at_time now exp]. exact Ht.
Qed.

End CacheLaws.


(** ** Answers from the cache *)

Section CachedAnswers.
Context {H : Host}.
Local Open Scope Z_scope.

Lemma bind_ret {A B : Type} (a : A) (k : A -> M B) (w : World) (st : St) :
  bind (ret a) k w st = k a w st.
Proof. reflexivity. Qed.

Lemma bind_lift_Ok {A B : Type} (a : A) (k : A -> M B) (w : World) (st : St) :
  bind (lift (Ok a)) k w st = k a w st.
Proof. reflexivity. Qed.

(** The next step of [E] is a conversion that returned: the goal takes the
    same step. *)
Ltac same_lift E :=
  let L := fresh "L" in
  apply bind_Ok_inv in E as (? & ? & L & E); apply lift_Ok_inv in L as (L & ->);
  rewrite L, bind_lift_Ok; clear L.

Lemma getCache_log (k : string) (w : World) (st : St) :
  log (snd (getCache k w st)) = log st /\ now (snd (getCache k w st)) = now st.
Proof.
  unfold getCache. destruct (cache st !! k) as [e|]; [|split; reflexivity].
  destruct (exp e <? now st); split; reflexivity.
Qed.

Lemma fetch_json_Ok_inv (r : Request) (w : World) (st st' : St) (v : JsValue) :
  fetch_json r w st = (Ok v, st') -> st' = after_request w st r.
Proof. unfold fetch_json. intros E. injection E as _ <-. reflexivity. Qed.

Lemma setCache_Ok_inv (k : string) (v : JsValue) (ttl : Z) (w : World) (st st' : St) (u : unit) :
  setCache k v ttl w st = (Ok u, st') ->
  st' = {| cache := <[k := {| value := v; exp := now st + ttl * 1000 |}]> (cache st);
           hostLock := hostLock st; now := now st; log := log st |}.
Proof. unfold setCache. intros E. injection E as _ <-. reflexivity. Qed.

(** A hit: the entry is there, not expired and truthy. *)
Lemma getCache_hit (k : string) (w : World) (st : St) (v : JsValue) (e : Z) (t : Z) :
  cache st !! k = Some {| value := v; exp := e |} -> t <= e ->
  getCache k w (at_time t st) = (Ok v, at_time t st).
Proof.
  intros He Ht. apply (getCache_fresh w (at_time t st) k {| value := v; exp := e |}).
  - exact He.
  - exact Ht.
Qed.

(** A search by coordinates that was answered by the provider is
    answered from the cache for the next six hours: repeated then, with the
    same location and radius, it returns the same candidates, issues no
    request and leaves the state as it is. *)
Theorem placesNearby_repeat_from_cache
    (a r : JsValue) (s : string) (w : World) (st st1 : St) (v : JsValue) (t : Z) :
  ToString a = Ok s ->
  regex_test coordinate_re s = true ->
  placesNearby a r w st = (Ok v, st1) ->
  log st1 <> log st ->
  t <= now st1 + 6 * 3600 * 1000 ->
  placesNearby a r w (at_time t st1) = (Ok v, at_time t st1).
Proof.
  intros Hs T E Hlog Ht. unfold placesNearby in *.
  rewrite (bind_Ok _ _ _ _ _ _ (resolveLatLng_value w st a s Hs T)) in E.
  rewrite (bind_Ok _ _ _ _ _ _ (resolveLatLng_value w (at_time t st1) a s Hs T)).
  clear Hs T.
  do 4 (same_lift E; cbv zeta in E |- *).
  match type of E with
  | bind (getCache ?key) _ _ _ = _ => set (cacheKey := key) in *
  end.
  apply bind_Ok_inv in E as (cached & st0 & G & E).
  destruct (truthy cached) eqn:Tc.
  - apply ret_Ok_inv in E as (_ & ->).
    pose proof (getCache_log cacheKey w st) as [L _]. rewrite G in L. contradiction.
  - apply bind_Ok_inv in E as (res & st3 & F & E).
    apply bind_Ok_inv in E as (results & st4 & L & E).
    apply lift_Ok_inv in L as (_ & ->).
    destruct (negb (truthy results)); [discriminate|].
    apply bind_Ok_inv in E as (places & st5 & L & E).
    apply lift_Ok_inv in L as (_ & ->).
    apply bind_Ok_inv in E as (u & st6 & S & E).
    apply ret_Ok_inv in E as (-> & ->).
    apply setCache_Ok_inv in S. subst.
    erewrite bind_Ok.
    2: { eapply getCache_hit.
         - cbn [cache]. apply lookup_insert_eq.
         - exact Ht. }
    reflexivity.
Qed.

(** A details lookup that was answered by the provider: when a result
    was found, the lookup repeated within 24 hours returns it from the cache
    without a request; when none was found the lookup returns [null] and
    caches nothing, so that the provider is asked again next time. *)
Theorem placeDetails_caching
    (placeId : JsValue) (w : World) (st st1 : St) (v : JsValue) :
  placeDetails placeId w st = (Ok v, st1) ->
  log st1 <> log st ->
  (truthy v = true ->
     forall t, t <= now st1 + 24 * 3600 * 1000 ->
       placeDetails placeId w (at_time t st1) = (Ok v, at_time t st1)) /\
  (truthy v = false ->
     v = JNull /\
     forall (k : string) (e : CacheEntry), cache st1 !! k = Some e -> cache st !! k = Some e).
Proof.
  intros E Hlog. unfold placeDetails in *.
  enough (Hall :
    (truthy v = true ->
       forall t, t <= now st1 + 24 * 3600 * 1000 ->
         bind (lift (ToString placeId))
           (fun id =>
              let cacheKey := "placedetail:" +:+ id in
              let* cached := getCache cacheKey in
              if truthy cached then ret cached
              else
                let* res := fetch_json (ReqDetails id) in
                let* result := lift (get_prop res "result") in
                if negb (truthy result) then ret JNull
                else let* _ := setCache cacheKey result (24 * 3600) in ret result)
           w (at_time t st1) = (Ok v, at_time t st1)) /\
    (truthy v = false ->
       v = JNull /\
       forall (k : string) (e : CacheEntry), cache st1 !! k = Some e -> cache st !! k = Some e))
    by exact Hall.
  apply bind_Ok_inv in E as (id & st' & Hid & E). apply lift_Ok_inv in Hid as (Hid & ->).
  rewrite Hid. cbv zeta in *.
  set (cacheKey := "placedetail:" +:+ id) in *.
  apply bind_Ok_inv in E as (cached & st0 & G & E).
  destruct (truthy cached) eqn:Tc.
  { apply ret_Ok_inv in E as (_ & ->).
    pose proof (getCache_log cacheKey w st) as [L _]. rewrite G in L. contradiction. }
  apply bind_Ok_inv in E as (res & st3 & F & E).
  apply fetch_json_Ok_inv in F.
  apply bind_Ok_inv in E as (result & st4 & L & E).
  apply lift_Ok_inv in L as (_ & ->).
  destruct (truthy result) eqn:Tr; cbn [negb] in E.
  - apply bind_Ok_inv in E as (u & st6 & S & E).
    apply ret_Ok_inv in E as (-> & ->).
    apply setCache_Ok_inv in S. subst.
    split; [|congruence]. intros _ t Ht. rewrite bind_lift_Ok.
    erewrite bind_Ok.
    2: { eapply getCache_hit.
         - cbn [cache]. apply lookup_insert_eq.
         - exact Ht. }
    rewrite Tr. reflexivity.
  - apply ret_Ok_inv in E as (-> & ->).
    split; [discriminate|]. intros _. split; [reflexivity|].
    intros k e Hk. subst. cbn [after_request cache] in Hk.
    assert (Hst0 : st0 = snd (getCache cacheKey w st)) by (rewrite G; reflexivity).
    subst st0. unfold getCache in Hk.
    destruct (cache st !! cacheKey) as [e0|]; [|exact Hk].
    destruct (exp e0 <? now st); [|exact Hk].
    cbn [snd cache] in Hk. apply lookup_delete_Some in Hk as [_ Hk]. exact Hk.
Qed.

Lemma pRetry_Ok_inv {A : Type} (run : M A) (delays : list Z) (w : World) :
  forall (st st1 : St) (a : A),
    pRetry run delays w st = (Ok a, st1) -> exists st0, run w st0 = (Ok a, st1).
Proof.
  induction delays as [|d ds IH]; intros st st1 a E; cbn [pRetry] in E.
  - eauto.
  - unfold try_catch in E. destruct (run w st) as [[a'|e] st'] eqn:R.
    + injection E as <- <-. eauto.
    + apply bind_Ok_inv in E as (u & st2 & _ & E). eapply IH, E.
Qed.

Lemma browser_close_Ok_inv (u : string) (w : World) (st st' : St) (x : unit) :
  browser_close u w st = (Ok x, st') -> st' = later (closing_time w (log st) u) st.
Proof. unfold browser_close. intros E. injection E as _ <-. reflexivity. Qed.

(** What a run that returns leaves behind: the entry it stored before it
    closed the browser. *)
Lemma run_Ok_inv (url : JsValue) (u cacheKey : string) (w : World) (st st1 : St) (v : JsValue) :
  run url u cacheKey w st = (Ok v, st1) ->
  cache st1 !! cacheKey =
    Some {| value := v; exp := now st1 - closing_time w (log st1) u + 12 * 3600 * 1000 |} /\
  truthy v = true.
Proof.
  unfold run. intros E. apply bind_Ok_inv in E as (x & st2 & _ & E).
  unfold try_catch in E.
  match type of E with
  | (let (o, st') := ?X in _) = _ => destruct X as [[v'|e] st3] eqn:B
  end.
  2: { apply bind_Ok_inv in E as (? & ? & _ & E). discriminate. }
  injection E as -> ->.
  apply bind_Ok_inv in B as (content & st4 & _ & B). cbv zeta in B.
  apply bind_Ok_inv in B as (u1 & st5 & S & B).
  apply bind_Ok_inv in B as (u2 & st6 & C & B).
  apply ret_Ok_inv in B as (-> & ->).
  apply setCache_Ok_inv in S. apply browser_close_Ok_inv in C. subst st6 st5.
  split; [|reflexivity].
  cbn [later cache now log]. rewrite lookup_insert_eq. do 2 f_equal. lia.
Qed.

Lemma run_Ok_result (url : JsValue) (u cacheKey : string) (w : World) (st st1 : St)
    (v : JsValue) :
  run url u cacheKey w st = (Ok v, st1) ->
  exists content : string,
    v = JObj [("price", extract_price content); ("unit", extract_unit content);
              ("source", url)].
Proof.
  unfold run. intros E. apply bind_Ok_inv in E as (x & st2 & _ & E).
  unfold try_catch in E.
  match type of E with
  | (let (o, st') := ?X in _) = _ => destruct X as [[v'|e] st3] eqn:B
  end.
  2: { apply bind_Ok_inv in E as (? & ? & _ & E). discriminate. }
  injection E as -> ->.
  apply bind_Ok_inv in B as (content & st4 & _ & B). cbv zeta in B.
  apply bind_Ok_inv in B as (u1 & st5 & _ & B).
  apply bind_Ok_inv in B as (u2 & st6 & _ & B).
  apply ret_Ok_inv in B as (-> & _). eauto.
Qed.

(** A scrape that loaded the page and succeeded is answered from the
    cache for twelve hours from the moment the result was stored, which is
    the moment before the browser was closed: repeated until then, it returns
    the same result with no page load and no wait, the state (clock and
    [hostLock] included) being left as it is; after that the entry is read as
    [null]. *)
Theorem scrapeSiteForPrice_repeat_from_cache
    (url : JsValue) (w : World) (st st1 : St) (v : JsValue) :
  scrapeSiteForPrice url w st = (Ok v, st1) ->
  log st1 <> log st ->
  exists u : string,
    ToString url = Ok u /\
    let expiry := now st1 - closing_time w (log st1) u + 12 * 3600 * 1000 in
    cache st1 !! ("scrape:" +:+ u) = Some {| value := v; exp := expiry |} /\
    (forall t, t <= expiry ->
       scrapeSiteForPrice url w (at_time t st1) = (Ok v, at_time t st1)) /\
    (forall t, expiry < t ->
       fst (getCache ("scrape:" +:+ u) w (at_time t st1)) = Ok JNull).
Proof.
  intros E Hlog. unfold scrapeSiteForPrice in *.
  apply bind_Ok_inv in E as (u & st' & Hu & E). apply lift_Ok_inv in Hu as (Hu & ->).
  exists u. split; [exact Hu|]. rewrite Hu. cbv zeta in *.
  set (cacheKey := "scrape:" +:+ u) in *.
  apply bind_Ok_inv in E as (cached & st0 & G & E).
  destruct (truthy cached) eqn:Tc.
  { apply ret_Ok_inv in E as (_ & ->).
    pose proof (getCache_log cacheKey w st) as [L' _]. rewrite G in L'. contradiction. }
  apply bind_Ok_inv in E as (x & st2 & _ & E).
  apply pRetry_Ok_inv in E as (st3 & E).
  apply run_Ok_inv in E as (Hentry & Tv).
  split; [exact Hentry|]. split.
  - intros t Ht. rewrite bind_lift_Ok. erewrite bind_Ok.
    2: { eapply getCache_hit; [exact Hentry | exact Ht]. }
    rewrite Tv. reflexivity.
  - intros t Ht. erewrite getCache_expired; [reflexivity | exact Hentry |].
    cbn [at_time now exp]. exact Ht.
Qed.

End CachedAnswers.


(** ** The scan handler: failures and edge cases *)

Section ScanEdges.
Context {H : Host}.

(** A scan request without an address (missing, [null], empty) is
    refused with status 400 and the message 'address required'; no provider
    is contacted and the state is unchanged. *)
Theorem api_scan_address_required (fs : list (string * JsValue)) (w : World) (st : St) :
  truthy (prop (JObj fs) "address") = false ->
  api_scan (JObj fs) w st =
    (Ok {| status := 400; body := JObj [("error", JStr "address required")] |}, st).
Proof.
  intros T. unfold api_scan, try_catch, bind, lift, ret, prop in *. cbn [get_prop] in *.
  rewrite T. reflexivity.
Qed.

(** Whatever happens, the handler answers: with the competitor list and
    status 200, or with an error message and status 400 or 500. *)
Lemma api_scan_answer (req_body : JsValue) (w : World) (st : St) :
  exists (r : Response) (st' : St),
    api_scan req_body w st = (Ok r, st') /\
    ((status r = 200%Z /\ exists results, body r = JObj [("competitors", JArr results)]) \/
     ((status r = 400%Z \/ status r = 500%Z) /\
      exists msg, body r = JObj [("error", JStr msg)])).
Proof.
  unfold api_scan, try_catch.
  match goal with
  | |- context [match ?X with _ => _ end] => destruct X as [[r|e] st'] eqn:E
  end.
  - exists r, st'. split; [reflexivity|].
    apply bind_Ok_inv in E as (x1 & s1 & _ & E).
    apply bind_Ok_inv in E as (address & s2 & _ & E).
    apply bind_Ok_inv in E as (radius & s3 & _ & E).
    destruct (negb (truthy address)).
    + apply ret_Ok_inv in E as (-> & _). right. split; [left; reflexivity|]. eauto.
    + apply bind_Ok_inv in E as (places & s4 & _ & E).
      apply bind_Ok_inv in E as (cands & s5 & _ & E).
      apply bind_Ok_inv in E as (results & s6 & _ & E).
      apply ret_Ok_inv in E as (-> & _). left. split; [reflexivity|].
      cbn [res_json body to_json]. eauto.
  - eexists _, _. split; [reflexivity|]. right. split; [right; reflexivity|]. eauto.
Qed.

(** [/api/scan] always answers: it never throws, its status is 200 with
    a competitor list, or 400 or 500 with an error message.  When the search
    for candidates throws, the answer is 500 with the message of what was
    thrown; a request whose body is [undefined] or [null] is answered with 500
    as well. *)
Theorem api_scan_always_answers (req_body : JsValue) (w : World) (st : St) :
  (exists (r : Response) (st' : St),
     api_scan req_body w st = (Ok r, st') /\
     ((status r = 200%Z /\ exists results, body r = JObj [("competitors", JArr results)]) \/
      ((status r = 400%Z \/ status r = 500%Z) /\
       exists msg, body r = JObj [("error", JStr msg)]))) /\
  (forall (fs : list (string * JsValue)) (e : JsError) (st1 : St),
     req_body = JObj fs ->
     truthy (prop (JObj fs) "address") = true ->
     placesNearby (prop (JObj fs) "address")
                  (js_or (prop (JObj fs) "radius") (JNum 10)) w st = (Throw e, st1) ->
     api_scan req_body w st =
       (Ok {| status := 500; body := JObj [("error", JStr (message e))] |}, st1)) /\
  (is_nullish req_body = true ->
     exists msg : string,
       api_scan req_body w st =
         (Ok {| status := 500; body := JObj [("error", JStr msg)] |}, st)).
Proof.
  split; [apply api_scan_answer|]. split.
  - intros fs e st1 -> T P. rewrite api_scan_run by exact T. rewrite P. reflexivity.
  - intros N. destruct req_body; try discriminate; eexists; reflexivity.
Qed.

End ScanEdges.


Section ScanEntries.
Context {H : Host}.

Lemma and_prop_truthy (a : JsValue) (k : string) (w : World) (st : St) :
  truthy a = true -> and_prop a k w st = (Ok (prop a k), st).
Proof.
  intros T. unfold and_prop, lift. rewrite T.
  rewrite (get_prop_Ok a k) by (apply truthy_not_nullish, T). reflexivity.
Qed.

Lemma and_prop_falsy (a : JsValue) (k : string) (w : World) (st : St) :
  truthy a = false -> and_prop a k w st = (Ok a, st).
Proof. intros T. unfold and_prop, ret. rewrite T. reflexivity. Qed.

Lemma and_prop_run (a : JsValue) (k : string) (w : World) (st : St) :
  and_prop a k w st = (Ok (if truthy a then prop a k else a), st).
Proof.
  destruct (truthy a) eqn:T; [apply and_prop_truthy, T | apply and_prop_falsy, T].
Qed.

Lemma lift_get_prop (p : JsValue) (k : string) (w : World) (st : St) :
  is_nullish p = false -> lift (get_prop p k) w st = (Ok (prop p k), st).
Proof. intros Hp. unfold lift. rewrite (get_prop_Ok p k Hp). reflexivity. Qed.

(** The entry of a candidate whose details were looked up: the scrape of
    the website, if there is one, decides only [unit], [price] and
    [availability]. *)
Lemma scan_candidate_with_details
    (p details : JsValue) (w : World) (st st1 : St) :
  is_nullish p = false ->
  placeDetails (prop p "place_id") w st = (Ok details, st1) ->
  let website := js_or (if truthy details then prop details "website" else details) JNull in
  let fa := if truthy details then prop details "formatted_address" else details in
  let scrape :=
    if truthy website
    then try_catch (scrapeSiteForPrice website)
                   (fun _ => ret (JObj [("error", JStr "scrape failed")])) w st1
    else (Ok JNull, st1) in
  exists scraped st2,
    scrape = (Ok scraped, st2) /\
    scan_candidate p w st =
      (Ok (JObj [("name", prop p "name");
                 ("address", if truthy fa then fa else prop p "address");
                 ("place_id", prop p "place_id");
                 ("website", website); ("distance", JNull);
                 ("unit", if truthy scraped then prop scraped "unit" else scraped);
                 ("price", if truthy scraped then prop scraped "price" else scraped);
                 ("source", JStr (if truthy website then "website" else "places"));
                 ("availability",
                  if truthy scraped then prop scraped "availability" else scraped)]), st2).
Proof.
  intros Hp D. cbv zeta.
  set (website := js_or (if truthy details then prop details "website" else details) JNull).
  set (fa := if truthy details then prop details "formatted_address" else details).
  assert (Hs : exists scraped st2,
            (if truthy website
             then try_catch (scrapeSiteForPrice website)
                    (fun _ => ret (JObj [("error", JStr "scrape failed")])) w st1
             else (Ok JNull, st1)) = (Ok scraped, st2)).
  { destruct (truthy website); [|eauto]. unfold try_catch, ret.
    destruct (scrapeSiteForPrice website w st1) as [[v|e] s]; eauto. }
  destruct Hs as (scraped & st2 & Hs). exists scraped, st2. split; [exact Hs|].
  unfold scan_candidate, try_catch.
  rewrite (bind_Ok _ _ _ _ _ _ (lift_get_prop p "place_id" w st Hp)).
  rewrite (bind_Ok _ _ _ _ _ _ D).
  rewrite (bind_Ok _ _ _ _ _ _ (and_prop_run details "website" w st1)).
  fold website.
  assert (Hs' : (if truthy website
                 then try_catch (scrapeSiteForPrice website)
                        (fun _ => ret (JObj [("error", JStr "scrape failed")]))
                 else ret JNull) w st1 = (Ok scraped, st2)).
  { destruct (truthy website); exact Hs. }
  rewrite (bind_Ok _ _ _ _ _ _ Hs').
  rewrite (bind_Ok _ _ _ _ _ _ (lift_get_prop p "name" w st2 Hp)).
  rewrite (bind_Ok _ _ _ _ _ _ (and_prop_run details "formatted_address" w st2)).
  fold fa.
  assert (Ha : (if truthy fa then ret fa else lift (get_prop p "address")) w st2 =
               (Ok (if truthy fa then fa else prop p "address"), st2)).
  { destruct (truthy fa); [reflexivity | apply lift_get_prop, Hp]. }
  rewrite (bind_Ok _ _ _ _ _ _ Ha).
  rewrite (bind_Ok _ _ _ _ _ _ (lift_get_prop p "place_id" w st2 Hp)).
  rewrite (bind_Ok _ _ _ _ _ _ (and_prop_run scraped "unit" w st2)).
  rewrite (bind_Ok _ _ _ _ _ _ (and_prop_run scraped "price" w st2)).
  rewrite (bind_Ok _ _ _ _ _ _ (and_prop_run scraped "availability" w st2)).
  reflexivity.
Qed.

(** The entry of a candidate whose details lookup failed. *)
Lemma scan_candidate_details_failed
    (p : JsValue) (w : World) (st st1 : St) (err : JsError) :
  is_nullish p = false ->
  placeDetails (prop p "place_id") w st = (Throw err, st1) ->
  scan_candidate p w st =
    (Ok (JObj [("name", prop p "name"); ("address", prop p "address");
               ("error", JStr (message err))]), st1).
Proof.
  intros Hp D. unfold scan_candidate, try_catch.
  rewrite (bind_Ok _ _ _ _ _ _ (lift_get_prop p "place_id" w st Hp)).
  rewrite (bind_Throw _ _ _ _ _ _ D).
  rewrite (bind_Ok _ _ _ _ _ _ (lift_get_prop p "name" w st1 Hp)).
  rewrite (bind_Ok _ _ _ _ _ _ (lift_get_prop p "address" w st1 Hp)).
  reflexivity.
Qed.

(** The entry of a candidate carries an [error] exactly when its details
    lookup failed: then it is [{ name, address, error }] with the message of
    the failure, and the state is the one the lookup left; when the lookup
    returned, whatever the scrape did, the entry has no [error] field. *)
Theorem scan_entry_error_iff_details_failed
    (p : JsValue) (w : World) (st : St) :
  is_nullish p = false ->
  (forall (err : JsError) (st1 : St),
     placeDetails (prop p "place_id") w st = (Throw err, st1) ->
     scan_candidate p w st =
       (Ok (JObj [("name", prop p "name"); ("address", prop p "address");
                  ("error", JStr (message err))]), st1)) /\
  (forall (details : JsValue) (st1 : St),
     placeDetails (prop p "place_id") w st = (Ok details, st1) ->
     exists (entry : JsValue) (st2 : St),
       scan_candidate p w st = (Ok entry, st2) /\ has_field "error" entry = false).
Proof.
  intros Hp. split.
  - intros err st1 D. apply scan_candidate_details_failed; assumption.
  - intros details st1 D.
    destruct (scan_candidate_with_details p details w st st1 Hp D) as (scraped & st2 & _ & E).
    eexists _, st2. split; [exact E | reflexivity].
Qed.

(** A candidate without a website (no details, or details without
    [website]) is not scraped: its entry has [website], [unit], [price] and
    [availability] [null] and source 'places', the address of the details
    when there is one and that of the candidate otherwise, and the state is
    the one the details lookup left. *)
Theorem scan_entry_without_website
    (p details : JsValue) (w : World) (st st1 : St) :
  is_nullish p = false ->
  placeDetails (prop p "place_id") w st = (Ok details, st1) ->
  truthy details = false \/ truthy (prop details "website") = false ->
  scan_candidate p w st =
    (Ok (JObj [("name", prop p "name");
               ("address",
                if truthy details && truthy (prop details "formatted_address")
                then prop details "formatted_address" else prop p "address");
               ("place_id", prop p "place_id");
               ("website", JNull); ("distance", JNull); ("unit", JNull); ("price", JNull);
               ("source", JStr "places"); ("availability", JNull)]), st1).
Proof.
  intros Hp D Hw.
  destruct (scan_candidate_with_details p details w st st1 Hp D) as (scraped & st2 & S & E).
  assert (Hweb : js_or (if truthy details then prop details "website" else details) JNull = JNull).
  { unfold js_or. destruct (truthy details) eqn:Td.
    - destruct Hw as [Hw|Hw]; [discriminate|]. rewrite Hw. reflexivity.
    - rewrite Td. reflexivity. }
  rewrite Hweb in S, E. cbn [truthy] in S, E. injection S as <- <-.
  rewrite E. cbn [truthy].
  destruct (truthy details) eqn:Td; cbn [andb].
  - reflexivity.
  - rewrite Td. reflexivity.
Qed.

End ScanEntries.


(** ** The suggest handler: edge cases *)

Section SuggestEdges.
Context {H : Host}.

Lemma api_suggest_object (fs : list (string * JsValue)) :
  api_suggest (JObj fs) =
  match suggest_prices (prop (JObj fs) "competitors") with
  | Ok prices =>
      match median prices with
      | None => res_status_json 400 (JObj [("error", JStr "no competitor prices available")])
      | Some med =>
          res_json (JObj [("recommendedPrice", JNum (recommended_price med));
                          ("rationale",
                           JStr ("Median competitor price is $" +:+ NumberToString med
                                 +:+ ". Undercutting by "
                                 +:+ NumberToString (alpha * 100)%float +:+ "%"));
                          ("confidence", JNum 0.6%float)])
      end
  | Throw err => res_status_json 500 (JObj [("error", JStr (message err))])
  end.
Proof. reflexivity. Qed.

Lemma map_outcome_nullish {B : Type} (f : JsValue -> Outcome B) (cs : list JsValue) :
  (forall c, is_nullish c = true -> exists e, f c = Throw e) ->
  Exists (fun c => is_nullish c = true) cs ->
  exists e, map_outcome f cs = Throw e.
Proof.
  intros Hf Hex. induction Hex as [c cs Hc|c cs _ IH]; cbn [map_outcome].
  - destruct (Hf c Hc) as (e & ->). eauto.
  - destruct (f c); [|eauto]. destruct IH as (e & ->). eauto.
Qed.

(** The edge cases of [/api/suggest].  Competitors that are missing,
    [null] or otherwise falsy count as an empty list: status 400.  An array
    with a [null] or [undefined] element, and a truthy value that is not an
    array, make the handler throw: status 500. *)
Theorem suggest_edge_cases (fs : list (string * JsValue)) :
  let c := prop (JObj fs) "competitors" in
  (truthy c = false ->
     api_suggest (JObj fs) =
       {| status := 400;
          body := JObj [("error", JStr "no competitor prices available")] |}) /\
  (forall cs : list JsValue,
     c = JArr cs -> Exists (fun x => is_nullish x = true) cs ->
     status (api_suggest (JObj fs)) = 500%Z) /\
  (truthy c = true -> (forall cs : list JsValue, c <> JArr cs) ->
     status (api_suggest (JObj fs)) = 500%Z).
Proof.
  cbv zeta. rewrite api_suggest_object. set (c := prop (JObj fs) "competitors").
  split; [|split].
  - intros T. unfold suggest_prices, js_or. rewrite T. reflexivity.
  - intros cs -> Hex. unfold suggest_prices, js_or. cbn [truthy array_map].
    destruct (map_outcome_nullish
                (fun c => let? p := get_prop c "price" in ToNumber p) cs) as (e & ->).
    + intros x Hx. destruct x; try discriminate; cbn; eauto.
    + exact Hex.
    + reflexivity.
  - intros T Hna. unfold suggest_prices, js_or. rewrite T.
    destruct c; try discriminate; try reflexivity.
    exfalso. eapply Hna. reflexivity.
Qed.

Lemma map_outcome_ext {A B : Type} (f : A -> Outcome B) (l1 l2 : list A) :
  Forall2 (fun a b => f a = f b) l1 l2 -> map_outcome f l1 = map_outcome f l2.
Proof.
  induction 1 as [|a b l1 l2 Hab _ IH]; [reflexivity|].
  cbn [map_outcome]. rewrite Hab, IH. reflexivity.
Qed.

(** The suggestion depends on the prices only: two requests whose
    competitor lists agree on [price], entry by entry, get the same answer,
    whatever the facility name and the other fields of the competitors. *)
Theorem suggest_depends_only_on_prices
    (fs1 fs2 : list (string * JsValue)) (cs1 cs2 : list JsValue) :
  field "competitors" fs1 = Some (JArr cs1) ->
  field "competitors" fs2 = Some (JArr cs2) ->
  Forall2 (fun a b => get_prop a "price" = get_prop b "price") cs1 cs2 ->
  api_suggest (JObj fs1) = api_suggest (JObj fs2).
Proof.
  intros F1 F2 Hp. rewrite !api_suggest_object. unfold prop. cbn [get_prop].
  rewrite F1, F2. cbn [default from_option id].
  unfold suggest_prices, js_or. cbn [truthy array_map].
  rewrite (map_outcome_ext (fun c => let? p := get_prop c "price" in ToNumber p) cs1 cs2).
  - reflexivity.
  - eapply Forall2_impl; [exact Hp|]. intros a b E. cbv beta. rewrite E. reflexivity.
Qed.

End SuggestEdges.


(** ** The median splits the list *)

Section MedianSplit.

Lemma filter_length_perm (f : float -> bool) (l l' : list float) :
  Permutation l l' -> length (List.filter f l) = length (List.filter f l').
Proof.
  induction 1 as [|x l l' _ IH|x y l|l l' l'' _ IH1 _ IH2]; simpl.
  - reflexivity.
  - destruct (f x); simpl; congruence.
  - destruct (f x), (f y); reflexivity.
  - congruence.
Qed.

Lemma filter_all (f : float -> bool) (l : list float) :
  Forall (fun y => f y = true) l -> List.filter f l = l.
Proof.
  induction 1 as [|y l Hy _ IH]; simpl; [reflexivity|]. rewrite Hy, IH. reflexivity.
Qed.

Lemma filter_length_firstn (f : float -> bool) (l : list float) (k : nat) :
  Forall (fun y => f y = true) (firstn k l) -> (k <= length l)%nat ->
  (k <= length (List.filter f l))%nat.
Proof.
  intros Hf Hk. rewrite <- (firstn_skipn k l) at 1. rewrite List.filter_app, length_app.
  rewrite (filter_all f _ Hf), length_firstn. lia.
Qed.

Lemma filter_length_skipn (f : float -> bool) (l : list float) (k : nat) :
  Forall (fun y => f y = true) (skipn k l) ->
  (length l - k <= length (List.filter f l))%nat.
Proof.
  intros Hf. rewrite <- (firstn_skipn k l) at 2. rewrite List.filter_app, length_app.
  rewrite (filter_all f _ Hf), length_skipn. lia.
Qed.

Lemma fle_refl (x : float) : not_nan x -> fle x x.
Proof.
  intros Hx. apply leb_key. repeat split; try assumption. unfold lexle. lia.
Qed.

(** In a sorted list without NaN, everything up to index [m] is at most
    the element at [m], and everything from [m] on is at least that. *)
Lemma sorted_around (s : list float) :
  StronglySorted fle s -> Forall not_nan s ->
  forall m : nat, (m < length s)%nat ->
    Forall (fun y => fle y (nth m s nan)) (firstn (S m) s) /\
    Forall (fun y => fle (nth m s nan) y) (skipn m s).
Proof.
  induction 1 as [|a s Hs IH Ha]; intros Hn m Hm; [simpl in Hm; lia|].
  apply Forall_cons_1 in Hn as [Hna Hn].
  destruct m as [|m].
  - cbn [nth firstn skipn]. split.
    + constructor; [apply fle_refl, Hna | constructor].
    + constructor; [apply fle_refl, Hna | exact Ha].
  - simpl in Hm. destruct (IH Hn m ltac:(lia)) as [H1 H2].
    change (nth (S m) (a :: s) nan) with (nth m s nan).
    change (skipn (S m) (a :: s)) with (skipn m s).
    change (firstn (S (S m)) (a :: s)) with (a :: firstn (S m) s).
    split; [|exact H2]. constructor; [|exact H1].
    rewrite List.Forall_forall in Ha. apply Ha, nth_In. lia.
Qed.

(** For a list of odd length without NaN the median is an element of the
    list, and it splits the list: more than half of the elements are at most
    the median, and more than half are at least the median. *)
Theorem median_splits_the_list (arr : list float) (x : float) :
  Forall not_nan arr ->
  Nat.odd (length arr) = true ->
  median arr = Some x ->
  In x arr /\
  (length arr < 2 * length (List.filter (fun y => PrimFloat.leb y x) arr))%nat /\
  (length arr < 2 * length (List.filter (fun y => PrimFloat.leb x y) arr))%nat.
Proof.
  intros Hn Hodd Hm.
  assert (Hne : arr <> []) by (intros ->; discriminate).
  rewrite (median_unfold arr Hne) in Hm. cbv zeta in Hm.
  rewrite <- Nat.negb_odd, Hodd in Hm. cbn [negb] in Hm. injection Hm as Hx.
  pose proof (sort_perm cmp_sub arr) as P.
  pose proof (sort_length cmp_sub arr) as L.
  set (s := sort cmp_sub arr) in *. set (n := length arr) in *.
  assert (Hn2 : n = (2 * (n / 2) + 1)%nat).
  { pose proof (Nat.div_mod_eq n 2) as D. apply Nat.odd_spec in Hodd as [k Hk].
    assert (n mod 2 = 1)%nat by (rewrite Hk, Nat.add_comm, Nat.mul_comm; apply Nat.Div0.mod_add).
    lia. }
  assert (Hlt : (n / 2 < length s)%nat) by lia.
  assert (Hs : StronglySorted fle s) by (apply sort_sorted, Hn).
  assert (Hns : Forall not_nan s) by (rewrite <- P; exact Hn).
  change (nth (n / 2) s nan = x) in Hx.
  destruct (sorted_around s Hs Hns (n / 2)%nat Hlt) as [Hle Hge]. rewrite Hx in Hle, Hge.
  split; [|split].
  - apply (Permutation_in _ (Permutation_sym P)). rewrite <- Hx. apply nth_In, Hlt.
  - rewrite (filter_length_perm _ _ _ P).
    pose proof (filter_length_firstn (fun y => PrimFloat.leb y x) s (S (n / 2)) Hle ltac:(lia)).
    lia.
  - rewrite (filter_length_perm _ _ _ P).
    pose proof (filter_length_skipn (fun y => PrimFloat.leb x y) s (n / 2) Hge).
    lia.
Qed.

End MedianSplit.


(** ** The order of the competitors does not matter *)

Section MedianOrder.
Local Open Scope float_scope.

Lemma lexle_antisym (a b : Z * Z * Z) : lexle a b -> lexle b a -> a = b.
Proof.
  destruct a as [[a1 a2] a3], b as [[b1 b2] b3]. unfold lexle. cbn [fst snd].
  intros Hab Hba. assert (a1 = b1 /\ a2 = b2 /\ a3 = b3) as (-> & -> & ->) by lia.
  reflexivity.
Qed.

Lemma zero_cases (x : float) : PrimFloat.eqb x 0 = true -> x = 0 \/ x = -0.
Proof.
  rewrite FloatAxioms.eqb_spec. change (Prim2SF 0) with (S754_zero false).
  rewrite <- (SF2Prim_Prim2SF x) at 2 3.
  destruct (Prim2SF x) as [[]|[]| |[] m e]; try discriminate; intros _; [right|left]; reflexivity.
Qed.

(** Two numbers with the same key are the same number. *)
Lemma same_key (x y : float) :
  not_nan x -> not_nan y -> fkey x = fkey y -> same_number x y.
Proof.
  rewrite !not_nan_spec. unfold fkey, same_number. rewrite !FloatAxioms.eqb_spec.
  change (Prim2SF 0) with (S754_zero false).
  intros Hx Hy K.
  destruct (Prim2SF x) as [sx|sx| |sx mx ex] eqn:Ex, (Prim2SF y) as [sy|sy| |sy my ey] eqn:Ey;
    try congruence; cbn [skey] in K.
  - right. split; reflexivity.
  - destruct sy; discriminate.
  - destruct sy; discriminate.
  - destruct sx; discriminate.
  - left. apply Prim2SF_inj. rewrite Ex, Ey. destruct sx, sy; try discriminate; reflexivity.
  - destruct sx, sy; discriminate.
  - destruct sx; discriminate.
  - destruct sx, sy; discriminate.
  - left. apply Prim2SF_inj. rewrite Ex, Ey.
    destruct sx, sy; try discriminate; injection K as K1 K2; f_equal; try lia;
      injection K2 as ->; reflexivity.
Qed.

Lemma sorted_keys (s : list float) :
  StronglySorted fle s -> StronglySorted lexle (List.map fkey s).
Proof.
  induction 1 as [|x s Hs IH Hx]; cbn [List.map]; constructor; [exact IH|].
  apply List.Forall_map. eapply Forall_impl; [exact Hx|].
  intros y Hy. apply leb_key in Hy as (_ & _ & Hy). exact Hy.
Qed.

Lemma sorted_keys_unique (k1 k2 : list (Z * Z * Z)) :
  StronglySorted lexle k1 -> StronglySorted lexle k2 -> Permutation k1 k2 -> k1 = k2.
Proof.
  intros S1. revert k2. induction S1 as [|a k1 S1 IH Ha]; intros k2 S2 P.
  - apply Permutation_nil in P. congruence.
  - destruct S2 as [|b k2 S2 Hb]; [apply Permutation_sym, Permutation_nil in P; discriminate|].
    assert (E : a = b).
    { assert (Ia : In a (b :: k2)) by (apply (Permutation_in _ P); left; reflexivity).
      assert (Ib : In b (a :: k1)) by (apply (Permutation_in _ (Permutation_sym P)); left; reflexivity).
      destruct Ia as [->|Ia]; [reflexivity|]. destruct Ib as [->|Ib]; [reflexivity|].
      rewrite List.Forall_forall in Ha, Hb. apply lexle_antisym; [apply Ha, Ib | apply Hb, Ia]. }
    subst b. f_equal. apply IH; [exact S2|]. eapply Permutation_cons_inv, P.
Qed.

(** The sorted copies of two lists with the same elements agree, key by
    key. *)
Lemma sort_perm_keys (l1 l2 : list float) :
  Forall not_nan l1 -> Permutation l1 l2 ->
  List.map fkey (sort cmp_sub l1) = List.map fkey (sort cmp_sub l2).
Proof.
  intros Hn P.
  assert (Hn2 : Forall not_nan l2) by (rewrite <- P; exact Hn).
  apply sorted_keys_unique.
  - apply sorted_keys, sort_sorted, Hn.
  - apply sorted_keys, sort_sorted, Hn2.
  - apply Permutation_map. rewrite <- !sort_perm. exact P.
Qed.

Lemma sort_perm_nth (l1 l2 : list float) (i : nat) :
  Forall not_nan l1 -> Permutation l1 l2 -> (i < length l1)%nat ->
  not_nan (nth i (sort cmp_sub l1) nan) /\ not_nan (nth i (sort cmp_sub l2) nan) /\
  same_number (nth i (sort cmp_sub l1) nan) (nth i (sort cmp_sub l2) nan).
Proof.
  intros Hn P Hi.
  assert (Hn2 : Forall not_nan l2) by (rewrite <- P; exact Hn).
  assert (H1 : not_nan (nth i (sort cmp_sub l1) nan)).
  { assert (Hs : Forall not_nan (sort cmp_sub l1)) by (rewrite <- sort_perm; exact Hn).
    rewrite List.Forall_forall in Hs. apply Hs, nth_In. rewrite sort_length. exact Hi. }
  assert (H2 : not_nan (nth i (sort cmp_sub l2) nan)).
  { assert (Hs : Forall not_nan (sort cmp_sub l2)) by (rewrite <- sort_perm; exact Hn2).
    rewrite List.Forall_forall in Hs. apply Hs, nth_In. rewrite sort_length.
    rewrite <- (Permutation_length P). exact Hi. }
  split; [exact H1|]. split; [exact H2|]. apply same_key; [exact H1 | exact H2 |].
  rewrite <- !(List.map_nth fkey). rewrite (sort_perm_keys l1 l2 Hn P). reflexivity.
Qed.

Lemma add_zero_l (x b : float) :
  PrimFloat.eqb x 0 = true -> not_nan b -> PrimFloat.eqb b 0 = false -> x + b = b.
Proof.
  rewrite not_nan_spec, !FloatAxioms.eqb_spec. change (Prim2SF 0) with (S754_zero false).
  intros Hx Hb Hz. apply Prim2SF_inj. rewrite FloatAxioms.add_spec. unfold SF64add.
  destruct (Prim2SF x) as [sx|sx| |sx mx ex]; try (destruct sx; discriminate); try discriminate.
  destruct (Prim2SF b) as [sb|sb| |sb mb eb]; try congruence; try reflexivity. discriminate.
Qed.

Lemma add_zero_r (a x : float) :
  PrimFloat.eqb x 0 = true -> not_nan a -> PrimFloat.eqb a 0 = false -> a + x = a.
Proof.
  rewrite not_nan_spec, !FloatAxioms.eqb_spec. change (Prim2SF 0) with (S754_zero false).
  intros Hx Ha Hz. apply Prim2SF_inj. rewrite FloatAxioms.add_spec. unfold SF64add.
  destruct (Prim2SF x) as [sx|sx| |sx mx ex]; try (destruct sx; discriminate); try discriminate.
  destruct (Prim2SF a) as [sa|sa| |sa ma ea]; try congruence; try reflexivity. discriminate.
Qed.

(** The mean of two numbers depends on them as numbers only. *)
Lemma mean_same_number (a1 a2 b1 b2 : float) :
  not_nan a1 -> not_nan b1 ->
  same_number a1 a2 -> same_number b1 b2 ->
  same_number ((a1 + b1) / 2) ((a2 + b2) / 2).
Proof.
  intros Na Nb [->|[Za1 Za2]] [->|[Zb1 Zb2]].
  - left. reflexivity.
  - destruct (PrimFloat.eqb a2 0) eqn:Za.
    + right. apply zero_cases in Za as [->| ->], Zb1 as [->| ->], Zb2 as [->| ->];
        split; reflexivity.
    + left. rewrite !add_zero_r by assumption. reflexivity.
  - destruct (PrimFloat.eqb b2 0) eqn:Zb.
    + right. apply zero_cases in Zb as [->| ->], Za1 as [->| ->], Za2 as [->| ->];
        split; reflexivity.
    + left. rewrite !add_zero_l by assumption. reflexivity.
  - right. apply zero_cases in Za1 as [->| ->], Za2 as [->| ->], Zb1 as [->| ->],
      Zb2 as [->| ->]; split; reflexivity.
Qed.

Lemma median_perm (l1 l2 : list float) (m1 m2 : float) :
  Forall not_nan l1 -> Permutation l1 l2 ->
  median l1 = Some m1 -> median l2 = Some m2 -> same_number m1 m2.
Proof.
  intros Hn P M1 M2.
  assert (Hne1 : l1 <> []) by (intros ->; discriminate).
  assert (Hne2 : l2 <> []) by (intros ->; discriminate).
  rewrite (median_unfold l1 Hne1) in M1. rewrite (median_unfold l2 Hne2) in M2.
  cbv zeta in M1, M2. rewrite <- (Permutation_length P) in M2.
  set (n := length l1) in *.
  assert (Hn0 : (0 < n)%nat) by (unfold n; destruct l1; simpl; [congruence | lia]).
  assert (Hhalf : (n / 2 < n)%nat) by (apply Nat.div_lt; lia).
  destruct (sort_perm_nth l1 l2 (n / 2) Hn P Hhalf) as (Nb1 & Nb2 & Sb).
  destruct (Nat.even n) eqn:Ev; injection M1 as <-; injection M2 as <-.
  - destruct (sort_perm_nth l1 l2 (n / 2 - 1) Hn P ltac:(fold n; lia)) as (Na1 & Na2 & Sa).
    apply mean_same_number; assumption.
  - exact Sb.
Qed.

End MedianOrder.

Section SuggestOrder.
Context {H : Host}.

Lemma numeric_prices_perm (cs1 cs2 : list JsValue) :
  Permutation cs1 cs2 -> Permutation (numeric_prices cs1) (numeric_prices cs2).
Proof.
  intros P. unfold numeric_prices.
  induction P as [|c cs cs' _ IH|c c' cs|cs cs' cs'' _ IH1 _ IH2]; cbn [List.map List.filter].
  - reflexivity.
  - destruct (negb (isNaN (price_number c))); [apply perm_skip, IH | exact IH].
  - destruct (negb (isNaN (price_number c))), (negb (isNaN (price_number c')));
      try reflexivity. apply perm_swap.
  - etransitivity; eassumption.
Qed.

Lemma Forall_or_Exists {A : Type} (f : A -> bool) (l : list A) :
  Forall (fun a => f a = true) l \/ Exists (fun a => f a = false) l.
Proof.
  induction l as [|a l [IH|IH]].
  - left. constructor.
  - destruct (f a) eqn:E; [left; constructor; assumption | right; constructor; exact E].
  - right. apply Exists_cons_tl, IH.
Qed.

Lemma numeric_prices_not_nan (cs : list JsValue) : Forall not_nan (numeric_prices cs).
Proof.
  unfold numeric_prices. apply List.Forall_forall. intros x Hx.
  apply List.filter_In in Hx as [_ Hx]. unfold not_nan. destruct (isNaN x); [discriminate|reflexivity].
Qed.

Lemma recommended_price_same_number (m1 m2 : float) :
  same_number m1 m2 ->
  to_json (JNum (recommended_price m1)) = to_json (JNum (recommended_price m2)).
Proof.
  intros [->|[Z1 Z2]]; [reflexivity|].
  apply zero_cases in Z1 as [->| ->], Z2 as [->| ->]; vm_compute; reflexivity.
Qed.

(** The order of the competitors does not matter.  Two requests whose
    competitor lists hold the same records in different orders get the same
    status and the same recommended price, and their medians are the same
    number. *)
Theorem suggestion_ignores_order
    (fs1 fs2 : list (string * JsValue)) (cs1 cs2 : list JsValue) :
  field "competitors" fs1 = Some (JArr cs1) ->
  field "competitors" fs2 = Some (JArr cs2) ->
  Forall (fun c => is_nullish c = false) cs1 ->
  Permutation cs1 cs2 ->
  status (api_suggest (JObj fs1)) = status (api_suggest (JObj fs2)) /\
  prop (body (api_suggest (JObj fs1))) "recommendedPrice" =
    prop (body (api_suggest (JObj fs2))) "recommendedPrice" /\
  (forall m1 m2 : float,
     median (numeric_prices cs1) = Some m1 -> median (numeric_prices cs2) = Some m2 ->
     same_number m1 m2).
Proof.
  intros F1 F2 Hc1 P.
  assert (Hc2 : Forall (fun c => is_nullish c = false) cs2) by (rewrite <- P; exact Hc1).
  pose proof (numeric_prices_perm cs1 cs2 P) as Pn.
  pose proof (numeric_prices_not_nan cs1) as Nn.
  assert (Hm : forall m1 m2, median (numeric_prices cs1) = Some m1 ->
                             median (numeric_prices cs2) = Some m2 -> same_number m1 m2).
  { intros m1 m2. apply median_perm; assumption. }
  destruct (Forall_or_Exists (fun c => convertible (prop c "price")) cs1) as [Hp1|Hx1].
  2: { assert (Hx2 : Exists (fun c => convertible (prop c "price") = false) cs2).
       { apply List.Exists_exists in Hx1 as (c & Hin & Hc). apply List.Exists_exists.
         exists c. split; [eapply Permutation_in; eassumption | exact Hc]. }
       destruct (api_suggest_throws fs1 cs1 F1 Hc1 Hx1) as (e1 & ->).
       destruct (api_suggest_throws fs2 cs2 F2 Hc2 Hx2) as (e2 & ->).
       split; [reflexivity|]. split; [reflexivity | exact Hm]. }
  assert (Hp2 : Forall (fun c => convertible (prop c "price") = true) cs2)
    by (rewrite <- P; exact Hp1).
  rewrite (api_suggest_run fs1 cs1 F1 Hc1 Hp1), (api_suggest_run fs2 cs2 F2 Hc2 Hp2).
  destruct (median (numeric_prices cs1)) as [m1|] eqn:M1,
           (median (numeric_prices cs2)) as [m2|] eqn:M2.
  - split; [reflexivity|]. split; [|exact Hm].
    pose proof (recommended_price_same_number m1 m2 (Hm m1 m2 eq_refl eq_refl)) as R.
    unfold res_json, prop. cbn [body to_json get_prop]. cbn [to_json] in R.
    unfold field. cbn [fold_left fst snd]. simpl String.eqb. cbv iota.
    cbn [default from_option id]. exact R.
  - apply median_None in M2. rewrite M2 in Pn. apply Permutation_nil_r in Pn.
    rewrite Pn in M1. discriminate.
  - apply median_None in M1. rewrite M1 in Pn. apply Permutation_nil in Pn.
    rewrite Pn in M2. discriminate.
  - split; [reflexivity|]. split; [reflexivity | exact Hm].
Qed.

End SuggestOrder.


(** ** What the scraper can extract *)

Section ExtractionShape.

Lemma search_none (r : regex) (s : list N) (pos : nat) :
  Forall (fun c => forall start t, match_at r start (c :: t) = None) s ->
  match_at r (pos + length s) [] = None ->
  search r pos s = None.
Proof.
  intros Hs He. rewrite <- (app_nil_r s), search_skip by exact Hs. simpl. rewrite He. reflexivity.
Qed.

Lemma byte_eqb (c d : ascii) : (byte c =? byte d)%N = Ascii.eqb c d.
Proof.
  destruct (Ascii.eqb_spec c d) as [->|Hne]; [apply N.eqb_refl|].
  apply N.eqb_neq. intros E. apply Hne.
  rewrite <- (ascii_of_N_byte c), <- (ascii_of_N_byte d), E. reflexivity.
Qed.

(** The code units of a text without a dollar sign, and of one without a
    digit. *)
Lemma code_units_no_dollar (s : string) :
  Forall (fun c => Ascii.eqb c "$" = false) (list_ascii_of_string s) ->
  Forall (fun u => (u =? 36)%N = false) (code_units s).
Proof.
  intros Hs. apply code_units_Forall.
  - intros u Hu. apply N.eqb_neq. lia.
  - eapply Forall_impl; [exact Hs|]. intros c Hc. cbv beta.
    change 36%N with (byte "$"). rewrite byte_eqb. exact Hc.
Qed.

Lemma code_units_no_digit (s : string) :
  Forall (fun c => is_digit c = false) (list_ascii_of_string s) ->
  Forall (fun u => is_digit_unit u = false) (code_units s).
Proof.
  intros Hs. apply code_units_Forall.
  - intros u Hu. unfold is_digit_unit. apply andb_false_iff. right. apply N.leb_gt. lia.
  - eapply Forall_impl; [exact Hs|]. intros c Hc. cbv beta.
    rewrite <- is_digit_byte. exact Hc.
Qed.

(** A page without a dollar sign yields no price, and a page without a
    digit yields no unit: the scraper reports [null]. *)
Theorem nothing_to_extract (content : string) :
  (Forall (fun c => Ascii.eqb c "$" = false) (list_ascii_of_string content) ->
     extract_price content = JNull) /\
  (Forall (fun c => is_digit c = false) (list_ascii_of_string content) ->
     extract_unit content = JNull).
Proof.
  split.
  - intros Hc. rewrite extract_price_first. unfold regex_exec.
    rewrite search_none; [reflexivity| |reflexivity].
    eapply Forall_impl; [apply code_units_no_dollar, Hc|]. intros c.
    apply price_re_needs_dollar.
  - intros Hc. unfold extract_unit, regex_exec. rewrite search_none; [reflexivity| |reflexivity].
    eapply Forall_impl; [apply code_units_no_digit, Hc|]. intros c.
    apply unit_re_needs_digit.
Qed.

Lemma is_x_ascii_of_N (u : N) : is_x_unit u = true -> (u < 128)%N /\ is_x (ascii_of_N u) = true.
Proof.
  unfold is_x_unit. intros Hx. apply orb_true_iff in Hx as [Hx|Hx]; apply N.eqb_eq in Hx;
    subst u; split; reflexivity.
Qed.

Lemma unit_match_form (start : nat) (s : list N) (m : MatchResult) :
  match_at unit_re start s = Some m ->
  unit_form (string_of_units (remove_spaces (default [] (m_group m)))) = true.
Proof.
  intros E. apply unit_re_match in E as (d1 & s1 & x & s2 & d2 & Et & Eg & R1 & S1 & Hx & S2 & R2).
  rewrite Eg, Et. cbn [default from_option id].
  rewrite (remove_spaces_unit d1 s1 x s2 d2 R1 S1 Hx S2 R2).
  destruct R1 as [Hd1 L1], R2 as [Hd2 L2].
  destruct (is_x_ascii_of_N x Hx) as [Hx7 Hxa].
  assert (Ha : Forall (fun u => (u < 128)%N) (d1 ++ x :: d2)).
  { apply Forall_app. split; [|constructor; [exact Hx7|]].
    - eapply Forall_impl; [exact Hd1|]. apply digit_unit_ascii.
    - eapply Forall_impl; [exact Hd2|]. apply digit_unit_ascii. }
  unfold string_of_units, unit_form.
  rewrite (encode_ascii _ Ha), list_ascii_of_string_of_list_ascii.
  assert (Hdig : forall u, is_digit_unit u = true -> is_digit (ascii_of_N u) = true).
  { intros u Hu. rewrite is_digit_ascii_of_N; [exact Hu|].
    pose proof (digit_unit_ascii u Hu). lia. }
  destruct d1 as [|a [|b [|? ?]]]; cbn [length] in L1; try lia;
    destruct d2 as [|c [|d [|? ?]]]; cbn [length] in L2; try lia;
    repeat match goal with
           | Hd : Forall _ (_ :: _) |- _ => apply Forall_cons_1 in Hd as [? Hd]
           end;
    cbn [app List.map]; rewrite Hxa;
    repeat match goal with
           | Hu : is_digit_unit ?u = true |- _ => rewrite (Hdig u Hu); clear Hu
           end;
    cbn [andb]; rewrite ?andb_true_r, ?orb_true_r; reflexivity.
Qed.

(** The unit the scraper reports is [null] or a string of the form NxM:
    one or two digits, the letter x in either case, one or two digits, with no
    white space left in it. *)
Theorem extract_unit_form (content : string) :
  extract_unit content = JNull \/
  exists u : string, extract_unit content = JStr u /\ unit_form u = true.
Proof.
  unfold extract_unit. destruct (regex_exec unit_re content) as [m|] eqn:E; [right|left; reflexivity].
  eexists. split; [reflexivity|].
  unfold regex_exec in E. apply search_leftmost in E as (i & _ & _ & E & _).
  eapply unit_match_form, E.
Qed.
End ExtractionShape.


Section PriceDigits.

Lemma price_match_four_digits (start : nat) (a b c d : N) (t : list N) :
  is_digit_unit a = true -> is_digit_unit b = true ->
  is_digit_unit c = true -> is_digit_unit d = true ->
  option_map m_group (match_at price_re start (36%N :: a :: b :: c :: d :: t)) =
  Some (Some [a; b; c]).
Proof.
  intros Ha Hb Hc Hd. unfold match_at, price_re, rdigit, rspace.
  cbn -[is_digit_unit is_space N.eqb byte].
  change (byte "$") with 36%N. change (byte ",") with 44%N. change (byte ".") with 46%N.
  rewrite N.eqb_refl.
  rewrite (digit_not_space a Ha), Ha, Hb, Hc, (digit_not_comma d Hd), (digit_not_dot d Hd).
  reflexivity.
Qed.

(** An amount of four digits or more written without a thousands
    separator is cut: the pattern takes at most three digits before an
    optional group of a comma and three digits, so that after the first dollar
    sign of the page, four digits in a row give the price made of the first
    three. *)
Theorem price_without_separator_is_cut (pre post : string) (a b c d : ascii) :
  Forall (fun x => Ascii.eqb x "$" = false) (list_ascii_of_string pre) ->
  is_digit a = true -> is_digit b = true -> is_digit c = true -> is_digit d = true ->
  extract_price (pre +:+ String "$" (String a (String b (String c (String d post))))) =
    JNum (StringToNumber (String a (String b (String c EmptyString)))).
Proof.
  intros Hpre Ha Hb Hc Hd. rewrite extract_price_first. unfold regex_exec.
  rewrite is_digit_byte in Ha, Hb, Hc, Hd.
  pose proof (digit_unit_ascii _ Ha) as La. pose proof (digit_unit_ascii _ Hb) as Lb.
  pose proof (digit_unit_ascii _ Hc) as Lc. pose proof (digit_unit_ascii _ Hd) as Ld.
  rewrite code_units_app_ascii by reflexivity.
  rewrite !code_units_cons_ascii by assumption.
  rewrite search_skip.
  2: { eapply Forall_impl; [apply code_units_no_dollar, Hpre|]. intros x.
       apply price_re_needs_dollar. }
  change (byte "$") with 36%N. cbn [search].
  pose proof (price_match_four_digits (0 + length (code_units pre)) (byte a) (byte b) (byte c)
                (byte d) (code_units post) Ha Hb Hc Hd) as M.
  destruct (match_at price_re _ _) as [m|]; [|discriminate].
  injection M as ->. cbn [default from_option id remove_commas List.filter].
  rewrite (digit_not_comma _ Ha), (digit_not_comma _ Hb), (digit_not_comma _ Hc).
  cbn [negb]. unfold string_of_units. rewrite encode_ascii.
  - cbn [List.map string_of_list_ascii]. rewrite !ascii_of_N_byte. reflexivity.
  - repeat constructor; assumption.
Qed.

End PriceDigits.


(** ** Invariants of the cache, in general *)

Section Keeps.
Variable P : string -> JsValue -> Prop.

Lemma keeps_same_cache {A : Type} (m : M A) :
  (forall w st, cache (snd (m w st)) = cache st) -> keeps (cache_all P) m.
Proof. intros Hm w st Hwf k e. rewrite Hm. apply Hwf. Qed.

Lemma keeps_bind {A B : Type} (I : St -> Prop) (m : M A) (k : A -> M B) :
  keeps I m -> (forall a, keeps I (k a)) -> keeps I (bind m k).
Proof.
  intros Hm Hk w st Hwf. specialize (Hm w st Hwf). unfold bind.
  destruct (m w st) as [[a|e] st1]; [apply Hk, Hm | exact Hm].
Qed.

Lemma keeps_try_catch {A : Type} (I : St -> Prop) (m : M A) (h : JsError -> M A) :
  keeps I m -> (forall e, keeps I (h e)) -> keeps I (try_catch m h).
Proof.
  intros Hm Hh w st Hwf. specialize (Hm w st Hwf). unfold try_catch.
  destruct (m w st) as [[a|e] st1]; [exact Hm | apply Hh, Hm].
Qed.

Lemma keeps_ret {A : Type} (I : St -> Prop) (a : A) : keeps I (ret a).
Proof. intros w st Hwf. exact Hwf. Qed.

Lemma keeps_throw {A : Type} (I : St -> Prop) (e : JsError) : keeps I (@throw A e).
Proof. intros w st Hwf. exact Hwf. Qed.

Lemma keeps_lift {A : Type} (I : St -> Prop) (o : Outcome A) : keeps I (lift o).
Proof. intros w st Hwf. exact Hwf. Qed.

Lemma keeps_sleep (d : Z) : keeps (cache_all P) (sleep d).
Proof. apply keeps_same_cache. reflexivity. Qed.

Lemma keeps_fetch_json (r : Request) : keeps (cache_all P) (fetch_json r).
Proof. apply keeps_same_cache. reflexivity. Qed.

Lemma keeps_page_content (url : string) : keeps (cache_all P) (page_content url).
Proof. apply keeps_same_cache. reflexivity. Qed.

Lemma keeps_browser_launch : keeps (cache_all P) browser_launch.
Proof. apply keeps_same_cache. reflexivity. Qed.

Lemma keeps_browser_close (url : string) : keeps (cache_all P) (browser_close url).
Proof. apply keeps_same_cache. reflexivity. Qed.

Lemma keeps_politeWaitForHost (host : string) : keeps (cache_all P) (politeWaitForHost host).
Proof. apply keeps_same_cache. intros w st. rewrite politeWaitForHost_run. reflexivity. Qed.

Lemma keeps_getCache (key : string) : keeps (cache_all P) (getCache key).
Proof.
  intros w st Hwf. unfold getCache. destruct (cache st !! key) as [v|]; [|exact Hwf].
  destruct (exp v <? now st)%Z; [|exact Hwf].
  intros k e E. cbn in E. apply lookup_delete_Some in E as [_ E]. apply (Hwf k e E).
Qed.

Lemma keeps_setCache (key : string) (v : JsValue) (ttl : Z) :
  P key v -> keeps (cache_all P) (setCache key v ttl).
Proof.
  intros Hv w st Hwf k e E. cbn in E.
  apply lookup_insert_Some in E as [[<- <-]|[_ E]]; [exact Hv | apply (Hwf k e E)].
Qed.

Lemma keeps_pRetry {A : Type} (I : St -> Prop) (run : M A) (delays : list Z) :
  keeps I run -> (forall d, keeps I (sleep d)) -> keeps I (pRetry run delays).
Proof.
  intros Hrun Hs. induction delays as [|d ds IH]; [exact Hrun|].
  cbn [pRetry]. apply keeps_try_catch; [exact Hrun|].
  intros _. apply keeps_bind; [apply Hs | intros _; exact IH].
Qed.

Lemma keeps_mapM {A B : Type} (I : St -> Prop) (f : A -> M B) (l : list A) :
  (forall a, keeps I (f a)) -> keeps I (mapM f l).
Proof.
  intros Hf. induction l as [|x l IH]; [apply keeps_ret|].
  cbn [mapM]. apply keeps_bind; [apply Hf|]. intros y.
  apply keeps_bind; [exact IH|]. intros ys. apply keeps_ret.
Qed.

End Keeps.

(** One step through a computation whose only writes to the cache are
    [setCache]s; the goals left are those of the values written. *)
Ltac keeps_step :=
  lazymatch goal with
  | |- keeps _ (bind _ _) => apply keeps_bind; [|intros ?]
  | |- keeps _ (try_catch _ _) => apply keeps_try_catch; [|intros ?]
  | |- keeps _ (pRetry _ _) => apply keeps_pRetry; [|intros ?]
  | |- keeps _ (mapM _ _) => apply keeps_mapM; intros ?
  | |- keeps _ (if ?b then _ else _) => destruct b
  | |- keeps _ (match ?x with _ => _ end) => destruct x
  | |- keeps _ (ret _) => apply keeps_ret
  | |- keeps _ (throw _) => apply keeps_throw
  | |- keeps _ (lift _) => apply keeps_lift
  | |- keeps _ (sleep _) => apply keeps_sleep
  | |- keeps _ (fetch_json _) => apply keeps_fetch_json
  | |- keeps _ (page_content _) => apply keeps_page_content
  | |- keeps _ browser_launch => apply keeps_browser_launch
  | |- keeps _ (browser_close _) => apply keeps_browser_close
  | |- keeps _ (politeWaitForHost _) => apply keeps_politeWaitForHost
  | |- keeps _ (getCache _) => apply keeps_getCache
  end.

Section ScrapedFields.
Context {H : Host}.

Lemma scrape_wf_fresh_state : scrape_wf fresh_state.
Proof. intros k e E. cbn in E. rewrite lookup_empty in E. discriminate. Qed.

Lemma extract_result (content : string) (url : JsValue) :
  scrape_result (JObj [("price", extract_price content); ("unit", extract_unit content);
                       ("source", url)]).
Proof.
  eexists _, _, _. split; [reflexivity|]. split.
  - unfold extract_price. destruct (List.map _ _); eauto.
  - unfold extract_unit. destruct (regex_exec unit_re content); eauto.
Qed.

Lemma keeps_scrapeSiteForPrice (url : JsValue) : keeps scrape_wf (scrapeSiteForPrice url).
Proof.
  unfold scrapeSiteForPrice, run, scrape_wf. cbv zeta. repeat keeps_step.
  apply keeps_setCache. intros _. apply extract_result.
Qed.

Lemma keeps_placeDetails (placeId : JsValue) : keeps scrape_wf (placeDetails placeId).
Proof.
  unfold placeDetails, scrape_wf. cbv zeta. repeat keeps_step.
  apply keeps_setCache. discriminate.
Qed.

Lemma keeps_placesNearby (a r : JsValue) : keeps scrape_wf (placesNearby a r).
Proof.
  unfold placesNearby, resolveLatLng, scrape_wf. cbv zeta. repeat keeps_step.
  all: apply keeps_setCache; discriminate.
Qed.

Lemma keeps_scan_candidate (p : JsValue) : keeps scrape_wf (scan_candidate p).
Proof.
  unfold scan_candidate, and_prop.
  repeat first [ apply keeps_scrapeSiteForPrice | apply keeps_placeDetails | keeps_step ].
Qed.

(** What a scrape returns is a scrape result. *)
Lemma scrapeSiteForPrice_result (url : JsValue) (w : World) (st st1 : St) (v : JsValue) :
  scrape_wf st -> scrapeSiteForPrice url w st = (Ok v, st1) -> scrape_result v.
Proof.
  intros Hwf E. unfold scrapeSiteForPrice in E.
  apply bind_Ok_inv in E as (u & st' & Hu & E). apply lift_Ok_inv in Hu as (_ & ->).
  cbv zeta in E. apply bind_Ok_inv in E as (cached & st0 & G & E).
  destruct (truthy cached) eqn:Tc.
  - apply ret_Ok_inv in E as (-> & _).
    destruct (getCache_value _ w st st0 cached G Tc) as (e & Ee & <-).
    apply (Hwf _ e Ee). reflexivity.
  - apply bind_Ok_inv in E as (x & st2 & _ & E).
    apply pRetry_Ok_inv in E as (st3 & E).
    apply run_Ok_result in E as (content & ->). apply extract_result.
Qed.

Lemma scan_candidate_typed (p : JsValue) (w : World) (st st' : St) (entry : JsValue) :
  scrape_wf st -> is_nullish p = false ->
  scan_candidate p w st = (Ok entry, st') -> entry_typed entry.
Proof.
  intros Hwf Hp E.
  destruct (placeDetails (prop p "place_id") w st) as [[details|err] st1] eqn:D.
  - pose proof (keeps_placeDetails (prop p "place_id") w st Hwf) as Hwf1. rewrite D in Hwf1.
    cbn [snd] in Hwf1.
    destruct (scan_candidate_with_details p details w st st1 Hp D) as (scraped & st2 & S & E').
    rewrite E' in E. injection E as <- <-.
    assert (Hs : scraped = JNull \/ scraped = JObj [("error", JStr "scrape failed")] \/
                 scrape_result scraped).
    { destruct (truthy (js_or _ JNull)).
      - unfold try_catch, ret in S.
        destruct (scrapeSiteForPrice _ w st1) as [[v|e] s] eqn:Es; injection S as <- <-.
        + right. right. eapply scrapeSiteForPrice_result; eassumption.
        + right. left. reflexivity.
      - injection S as <- <-. left. reflexivity. }
    destruct Hs as [->|[->|(price & unit & source & -> & Hpr & Hun)]].
    + repeat split; cbn; auto.
    + repeat split; cbn; auto.
    + repeat split; cbn.
      * destruct Hpr as [->|(x & ->)]; eauto.
      * destruct Hun as [->|(u & ->)]; eauto.
      * auto.
  - rewrite (scan_candidate_details_failed p w st st1 err Hp D) in E. injection E as <- <-. repeat split; cbn; auto.
Qed.

End ScrapedFields.


Section ScanResponseFields.
Context {H : Host}.

Lemma scan_candidate_Ok_record (p : JsValue) (w : World) (st st' : St) (e : JsValue) :
  scan_candidate p w st = (Ok e, st') -> is_nullish p = false.
Proof. destruct p; try reflexivity; discriminate. Qed.

Lemma mapM_scan_candidate_typed (w : World) (candidates : list JsValue) :
  forall (st st' : St) (results : list JsValue),
    scrape_wf st ->
    mapM scan_candidate candidates w st = (Ok results, st') ->
    Forall entry_typed results /\ scrape_wf st'.
Proof.
  induction candidates as [|p ps IH]; intros st st' results Hwf E; cbn [mapM] in E.
  - apply ret_Ok_inv in E as (-> & ->). split; [constructor | exact Hwf].
  - apply bind_Ok_inv in E as (e & st1 & Ep & E).
    apply bind_Ok_inv in E as (es & st2 & Es & E).
    apply ret_Ok_inv in E as (-> & ->).
    pose proof (keeps_scan_candidate p w st Hwf) as Hwf1. rewrite Ep in Hwf1.
    destruct (IH st1 st2 es Hwf1 Es) as [Hes Hwf2].
    split; [|exact Hwf2]. constructor; [|exact Hes].
    eapply scan_candidate_typed; [exact Hwf | | exact Ep].
    eapply scan_candidate_Ok_record, Ep.
Qed.

(** The types of the scraped fields.  When what is cached under the
    scraper's keys are scrape results (so it is when the process starts, and
    the scan keeps it so), every entry of a scan answered with status 200 has
    a [price] that is a number, [null] or absent, a [unit] that is a string,
    [null] or absent, and an [availability] that is [null] or absent. *)
Theorem scan_response_fields
    (req_body : JsValue) (w : World) (st st' : St) (r : Response) :
  scrape_wf st ->
  api_scan req_body w st = (Ok r, st') ->
  status r = 200%Z ->
  exists results : list JsValue,
    body r = JObj [("competitors", JArr (List.map to_json results))] /\
    Forall entry_typed results /\
    scrape_wf st'.
Proof.
  intros Hwf E Hs. unfold api_scan, try_catch in E.
  match type of E with
  | match ?X with _ => _ end = _ => destruct X as [[r0|e] s0] eqn:E0
  end.
  2: { apply ret_Ok_inv in E as (-> & _). discriminate. }
  injection E as -> ->.
  apply bind_Ok_inv in E0 as (x1 & s1 & L1 & E0). apply lift_Ok_inv in L1 as (_ & ->).
  apply bind_Ok_inv in E0 as (address & s2 & L2 & E0). apply lift_Ok_inv in L2 as (_ & ->).
  apply bind_Ok_inv in E0 as (radius & s3 & L3 & E0). apply lift_Ok_inv in L3 as (_ & ->).
  destruct (negb (truthy address)).
  { apply ret_Ok_inv in E0 as (-> & _). discriminate. }
  apply bind_Ok_inv in E0 as (places & s4 & Pn & E0).
  apply bind_Ok_inv in E0 as (cands & s5 & L5 & E0). apply lift_Ok_inv in L5 as (_ & ->).
  apply bind_Ok_inv in E0 as (results & s6 & Mm & E0).
  apply ret_Ok_inv in E0 as (-> & ->).
  pose proof (keeps_placesNearby address (js_or radius (JNum 10)) w st Hwf) as Hwf4.
  rewrite Pn in Hwf4.
  destruct (mapM_scan_candidate_typed w cands s4 _ results Hwf4 Mm) as [Ht Hwf'].
  exists results. split; [reflexivity|]. split; assumption.
Qed.

End ScanResponseFields.


Section CacheTruthy.
Context {H : Host}.

Lemma keeps_truthy_scrapeSiteForPrice (url : JsValue) :
  keeps cache_truthy (scrapeSiteForPrice url).
Proof.
  unfold scrapeSiteForPrice, run, cache_truthy. cbv zeta. repeat keeps_step.
  apply keeps_setCache. reflexivity.
Qed.

Lemma keeps_truthy_placeDetails (placeId : JsValue) :
  keeps cache_truthy (placeDetails placeId).
Proof.
  unfold placeDetails, cache_truthy.
  apply keeps_bind; [apply keeps_lift|]. intros id. cbv zeta.
  apply keeps_bind; [apply keeps_getCache|]. intros cached.
  destruct (truthy cached); [apply keeps_ret|].
  apply keeps_bind; [apply keeps_fetch_json|]. intros res.
  apply keeps_bind; [apply keeps_lift|]. intros result.
  destruct (truthy result) eqn:T; cbn [negb]; [|apply keeps_ret].
  apply keeps_bind; [apply keeps_setCache; exact T | intros _; apply keeps_ret].
Qed.

Lemma keeps_truthy_placesNearby (a r : JsValue) : keeps cache_truthy (placesNearby a r).
Proof.
  unfold placesNearby, resolveLatLng, cache_truthy. cbv zeta. repeat keeps_step.
  all: apply keeps_setCache; reflexivity.
Qed.

Lemma keeps_truthy_scan_candidate (p : JsValue) : keeps cache_truthy (scan_candidate p).
Proof.
  unfold scan_candidate, and_prop.
  repeat first [ apply keeps_truthy_scrapeSiteForPrice | apply keeps_truthy_placeDetails
               | keeps_step ].
Qed.

(** Nothing falsy is ever cached by a scan, so an entry that has not
    expired is never taken for a miss: read, it is returned and the caller's
    test [if (cached)] succeeds. *)
Theorem scan_caches_nothing_falsy (req_body : JsValue) (w : World) (st : St) :
  cache_truthy st ->
  cache_truthy (snd (api_scan req_body w st)) /\
  (forall (k : string) (e : CacheEntry) (st' : St),
     cache_truthy st' -> cache st' !! k = Some e -> (now st' <= exp e)%Z ->
     exists v, getCache k w st' = (Ok v, st') /\ truthy v = true).
Proof.
  intros Hwf. split.
  - revert w st Hwf. change (keeps cache_truthy (api_scan req_body)).
    unfold api_scan.
    repeat first [ apply keeps_truthy_placesNearby | apply keeps_truthy_scan_candidate
                 | keeps_step ].
  - intros k e st' Hwf' He Hle. exists (value e). split.
    + apply getCache_fresh; assumption.
    + apply (Hwf' k e He).
Qed.

End CacheTruthy.


(** ** The requests a scan issues *)

Section Requests.
Context {H : Host}.
Variable c : Request -> bool.

Lemma grows_same_log {A : Type} (m : M A) :
  (forall w st, log (snd (m w st)) = log st) -> grows c 0 m.
Proof. intros Hm w st. unfold issued. rewrite Hm. lia. Qed.

Lemma grows_weaken {A : Type} (n n' : nat) (m : M A) :
  grows c n m -> (n <= n')%nat -> grows c n' m.
Proof. intros Hm Hn w st. specialize (Hm w st). lia. Qed.

Lemma grows_ret {A : Type} (a : A) : grows c 0 (ret a).
Proof. apply grows_same_log. reflexivity. Qed.

Lemma grows_throw {A : Type} (e : JsError) : grows c 0 (@throw A e).
Proof. apply grows_same_log. reflexivity. Qed.

Lemma grows_lift {A : Type} (o : Outcome A) : grows c 0 (lift o).
Proof. apply grows_same_log. reflexivity. Qed.

Lemma grows_sleep (d : Z) : grows c 0 (sleep d).
Proof. apply grows_same_log. reflexivity. Qed.

Lemma grows_getCache (key : string) : grows c 0 (getCache key).
Proof. apply grows_same_log. intros w st. apply getCache_log. Qed.

Lemma grows_setCache (key : string) (v : JsValue) (ttl : Z) : grows c 0 (setCache key v ttl).
Proof. apply grows_same_log. reflexivity. Qed.

Lemma grows_browser_launch : grows c 0 browser_launch.
Proof. apply grows_same_log. reflexivity. Qed.

Lemma grows_browser_close (url : string) : grows c 0 (browser_close url).
Proof. apply grows_same_log. reflexivity. Qed.

Lemma grows_politeWaitForHost (host : string) : grows c 0 (politeWaitForHost host).
Proof. apply grows_same_log. intros w st. rewrite politeWaitForHost_run. reflexivity. Qed.

Lemma issued_after_request (w : World) (st : St) (r : Request) :
  issued c (after_request w st r) = (issued c st + if c r then 1 else 0)%nat.
Proof.
  unfold issued, after_request. cbn [log]. rewrite List.filter_app, length_app. cbn [List.filter].
  destruct (c r); reflexivity.
Qed.

Lemma grows_fetch_json (r : Request) : grows c 1 (fetch_json r).
Proof.
  intros w st. unfold fetch_json. cbn [snd]. rewrite issued_after_request.
  destruct (c r); lia.
Qed.

Lemma grows_fetch_json_other (r : Request) : c r = false -> grows c 0 (fetch_json r).
Proof.
  intros Hr w st. unfold fetch_json. cbn [snd]. rewrite issued_after_request, Hr. lia.
Qed.

Lemma grows_page_content (url : string) : grows c 1 (page_content url).
Proof.
  intros w st. unfold page_content. cbn [snd]. rewrite issued_after_request.
  destruct (c _); lia.
Qed.

Lemma grows_page_content_other (url : string) :
  c (ReqPage url) = false -> grows c 0 (page_content url).
Proof.
  intros Hr w st. unfold page_content. cbn [snd]. rewrite issued_after_request, Hr. lia.
Qed.

Lemma grows_bind {A B : Type} (n n' : nat) (m : M A) (k : A -> M B) :
  grows c n m -> (forall a, grows c n' (k a)) -> grows c (n + n') (bind m k).
Proof.
  intros Hm Hk w st. specialize (Hm w st). unfold bind.
  destruct (m w st) as [[a|e] st1]; cbn [snd] in *; [specialize (Hk a w st1)|]; lia.
Qed.

Lemma grows_try_catch {A : Type} (n n' : nat) (m : M A) (h : JsError -> M A) :
  grows c n m -> (forall e, grows c n' (h e)) -> grows c (n + n') (try_catch m h).
Proof.
  intros Hm Hh w st. specialize (Hm w st). unfold try_catch.
  destruct (m w st) as [[a|e] st1]; cbn [snd] in *; [|specialize (Hh e w st1)]; lia.
Qed.

Lemma grows_if {A : Type} (n n' : nat) (b : bool) (m m' : M A) :
  grows c n m -> grows c n' m' -> grows c (Nat.max n n') (if b then m else m').
Proof.
  intros Hm Hm'. destruct b; [eapply grows_weaken; [exact Hm|] | eapply grows_weaken; [exact Hm'|]]; lia.
Qed.

Lemma grows_option {A B : Type} (n n' : nat) (o : option B) (m : B -> M A) (m' : M A) :
  (forall b, grows c n (m b)) -> grows c n' m' ->
  grows c (Nat.max n n') (match o with Some b => m b | None => m' end).
Proof.
  intros Hm Hm'. destruct o; [eapply grows_weaken; [apply Hm|] | eapply grows_weaken; [exact Hm'|]]; lia.
Qed.

Lemma grows_pRetry {A : Type} (n : nat) (run : M A) (delays : list Z) :
  grows c n run -> grows c (S (length delays) * n) (pRetry run delays).
Proof.
  intros Hrun. induction delays as [|d ds IH]; cbn [pRetry length].
  - eapply grows_weaken; [exact Hrun | lia].
  - eapply grows_weaken.
    + apply grows_try_catch; [exact Hrun|]. intros _.
      apply grows_bind; [apply grows_sleep | intros _; exact IH].
    + lia.
Qed.

Lemma grows_mapM {A B : Type} (n : nat) (f : A -> M B) (l : list A) :
  (forall a, grows c n (f a)) -> grows c (length l * n) (mapM f l).
Proof.
  intros Hf. induction l as [|x l IH]; cbn [mapM length].
  - apply grows_ret.
  - eapply grows_weaken.
    + apply grows_bind; [apply Hf|]. intros y.
      apply grows_bind; [exact IH|]. intros ys. apply grows_ret.
    + lia.
Qed.

End Requests.

(** One step through a computation, adding up what its parts issue. *)
Ltac grows_step :=
  lazymatch goal with
  | |- grows _ _ (bind _ _) => eapply grows_bind; [|intros ?]
  | |- grows _ _ (try_catch _ _) => eapply grows_try_catch; [|intros ?]
  | |- grows _ _ (pRetry _ _) => eapply grows_pRetry
  | |- grows _ _ (if _ then _ else _) => eapply grows_if
  | |- grows _ _ (match _ with Some _ => _ | None => _ end) =>
      eapply grows_option; [intros ?|]
  | |- grows _ _ (ret _) => apply grows_ret
  | |- grows _ _ (throw _) => apply grows_throw
  | |- grows _ _ (lift _) => apply grows_lift
  | |- grows _ _ (sleep _) => apply grows_sleep
  | |- grows _ _ (getCache _) => apply grows_getCache
  | |- grows _ _ (setCache _ _ _) => apply grows_setCache
  | |- grows _ _ browser_launch => apply grows_browser_launch
  | |- grows _ _ (browser_close _) => apply grows_browser_close
  | |- grows _ _ (politeWaitForHost _) => apply grows_politeWaitForHost
  | |- grows _ _ (fetch_json _) =>
      first [apply grows_fetch_json_other; reflexivity | apply grows_fetch_json]
  | |- grows _ _ (page_content _) =>
      first [apply grows_page_content_other; reflexivity | apply grows_page_content]
  end.

Ltac grows_auto := eapply grows_weaken; [repeat grows_step | cbn; lia].

Section ScanRequests.
Context {H : Host}.

Lemma scrape_issues (url : JsValue) :
  grows is_geocode 0 (scrapeSiteForPrice url) /\ grows is_nearby 0 (scrapeSiteForPrice url) /\
  grows is_details 0 (scrapeSiteForPrice url) /\ grows is_page 3 (scrapeSiteForPrice url).
Proof.
  unfold scrapeSiteForPrice, run. cbv zeta. repeat split.
  all: grows_auto.
Qed.

Lemma placeDetails_issues (placeId : JsValue) :
  grows is_geocode 0 (placeDetails placeId) /\ grows is_nearby 0 (placeDetails placeId) /\
  grows is_details 1 (placeDetails placeId) /\ grows is_page 0 (placeDetails placeId).
Proof. unfold placeDetails. cbv zeta. repeat split; grows_auto. Qed.

Lemma placesNearby_issues (a r : JsValue) :
  grows is_geocode 1 (placesNearby a r) /\ grows is_nearby 1 (placesNearby a r) /\
  grows is_details 0 (placesNearby a r) /\ grows is_page 0 (placesNearby a r).
Proof.
  unfold placesNearby, resolveLatLng. cbv zeta. repeat split.
  all: grows_auto.
Qed.

End ScanRequests.


Ltac grows_call :=
  lazymatch goal with
  | |- grows _ _ (scrapeSiteForPrice _) =>
      first [ apply (proj1 (scrape_issues _))
            | apply (proj1 (proj2 (scrape_issues _)))
            | apply (proj1 (proj2 (proj2 (scrape_issues _))))
            | apply (proj2 (proj2 (proj2 (scrape_issues _)))) ]
  | |- grows _ _ (placeDetails _) =>
      first [ apply (proj1 (placeDetails_issues _))
            | apply (proj1 (proj2 (placeDetails_issues _)))
            | apply (proj1 (proj2 (proj2 (placeDetails_issues _))))
            | apply (proj2 (proj2 (proj2 (placeDetails_issues _)))) ]
  end.

Section ScanRequestBounds.
Context {H : Host}.

Lemma scan_candidate_issues (p : JsValue) :
  grows is_geocode 0 (scan_candidate p) /\ grows is_nearby 0 (scan_candidate p) /\
  grows is_details 1 (scan_candidate p) /\ grows is_page 3 (scan_candidate p).
Proof.
  unfold scan_candidate, and_prop.
  repeat split; (eapply grows_weaken; [repeat first [grows_call | grows_step] | cbn; lia]).
Qed.

Lemma grows_bind_lift {A B : Type} (c : Request -> bool) (n : nat) (o : Outcome A) (k : A -> M B) :
  (forall a, o = Ok a -> grows c n (k a)) -> grows c n (bind (lift o) k).
Proof.
  intros Hk w st. unfold bind, lift. destruct o as [a|e]; [apply (Hk a eq_refl) | cbn; lia].
Qed.

Lemma slice20_length (places : JsValue) (candidates : list JsValue) :
  slice20 places = Ok candidates -> (length candidates <= 20)%nat.
Proof.
  destruct places; try discriminate. cbn [slice20]. intros E. injection E as <-.
  rewrite length_firstn. lia.
Qed.

(** What one scan issues of a kind of request, given what the candidate
    search and one candidate issue of it. *)
Lemma api_scan_issues (c : Request -> bool) (n k : nat) (req_body : JsValue) :
  (forall a r, grows c n (placesNearby a r)) ->
  (forall p, grows c k (scan_candidate p)) ->
  grows c (n + 20 * k) (api_scan req_body).
Proof.
  intros Hn Hk. unfold api_scan.
  eapply grows_weaken.
  - eapply grows_try_catch; [|intros ?; apply grows_ret].
    eapply grows_bind; [apply grows_lift|]. intros _.
    eapply grows_bind; [apply grows_lift|]. intros address.
    eapply grows_bind; [apply grows_lift|]. intros radius.
    eapply grows_if; [apply grows_ret|].
    eapply grows_bind; [apply Hn|]. intros places.
    apply grows_bind_lift. intros candidates Hc.
    eapply grows_weaken with (n := (length candidates * k + 0)%nat).
    + eapply grows_bind; [apply grows_mapM, Hk|]. intros results. apply grows_ret.
    + apply slice20_length in Hc.
      instantiate (1 := (20 * k)%nat). nia.
  - cbn. lia.
Qed.

(** One scan issues at most one geocoding request, at most one nearby
    search and at most 20 details lookups, whatever the request, the
    providers' answers and the state. *)
Theorem scan_provider_requests_bounded (req_body : JsValue) (w : World) (st : St) :
  let st' := snd (api_scan req_body w st) in
  (issued is_geocode st' <= issued is_geocode st + 1)%nat /\
  (issued is_nearby st' <= issued is_nearby st + 1)%nat /\
  (issued is_details st' <= issued is_details st + 20)%nat.
Proof.
  cbv zeta. split; [|split].
  - apply (api_scan_issues is_geocode 1 0).
    + intros a r. apply placesNearby_issues.
    + intros p. apply scan_candidate_issues.
  - apply (api_scan_issues is_nearby 1 0).
    + intros a r. apply placesNearby_issues.
    + intros p. apply scan_candidate_issues.
  - apply (api_scan_issues is_details 0 1).
    + intros a r. apply placesNearby_issues.
    + intros p. apply scan_candidate_issues.
Qed.

(** One scan loads at most 60 pages: at most three loads, the first try
    and two retries, for each of at most 20 candidates. *)
Theorem scan_page_loads_bounded (req_body : JsValue) (w : World) (st : St) :
  (issued is_page (snd (api_scan req_body w st)) <= issued is_page st + 60)%nat.
Proof.
  apply (api_scan_issues is_page 0 3).
  - intros a r. apply placesNearby_issues.
  - intros p. apply scan_candidate_issues.
Qed.

End ScanRequestBounds.


(** ** Integers as binary64 values, and the cap on the search radius *)

Section Rounding.
Local Open Scope Z_scope.

Lemma digits2_unique (q : positive) (k : Z) :
  2 ^ (k - 1) <= Z.pos q < 2 ^ k -> Z.pos (digits2_pos q) = k.
Proof.
  intros [Hlo Hhi]. pose proof (digits2_bounds q) as [Dlo Dhi].
  set (d := Z.pos (digits2_pos q)) in *. assert (Hd : 0 < d) by (unfold d; lia).
  assert (Hk : 0 < k).
  { destruct (Z.lt_ge_cases 0 k) as [L|G]; [exact L|].
    destruct (Z.eq_dec k 0) as [->|N]; [simpl in Hhi; lia|].
    rewrite Z.pow_neg_r in Hhi by lia. lia. }
  destruct (Z.lt_trichotomy d k) as [L|[E|G]]; [|exact E|].
  - assert (2 ^ d <= 2 ^ (k - 1)) by (apply Z.pow_le_mono_r; lia). lia.
  - assert (2 ^ k <= 2 ^ (d - 1)) by (apply Z.pow_le_mono_r; lia). lia.
Qed.

Lemma shl_align_snd_eq (m : positive) (e e' : Z) : e' <= e -> snd (shl_align m e e') = e'.
Proof. intros He. unfold shl_align. destruct (e' - e) eqn:E; simpl; lia. Qed.

(** An integer below 2^53 in magnitude is a binary64 value: rounding
    leaves it as it is. *)
Lemma binary_round_exact (s : bool) (p : positive) :
  Z.pos p < 2 ^ 53 ->
  exists mz : positive,
    Z.pos mz = Z.pos p * 2 ^ (53 - Z.pos (digits2_pos p)) /\
    binary_round prec emax s p 0 = S754_finite s mz (Z.pos (digits2_pos p) - 53) /\
    bounded prec emax mz (Z.pos (digits2_pos p) - 53) = true.
Proof.
  intros Hp. pose proof (digits2_bounds p) as [Dlo Dhi].
  set (d := Z.pos (digits2_pos p)) in *. assert (Hd : 0 < d) by (unfold d; lia).
  assert (Hd53 : d <= 53).
  { destruct (Z.le_gt_cases d 53) as [L|G]; [exact L|].
    assert (2 ^ 53 <= 2 ^ (d - 1)) by (apply Z.pow_le_mono_r; lia). lia. }
  assert (Hf : fexp prec emax (d + 0) = d - 53).
  { unfold fexp, SpecFloat.emin, prec, emax. lia. }
  unfold binary_round. fold d. rewrite Hf.
  pose proof (shl_align_fst p 0 (d - 53) ltac:(lia)) as Hm.
  pose proof (shl_align_snd_eq p 0 (d - 53) ltac:(lia)) as He.
  destruct (shl_align p 0 (d - 53)) as [mz ez]. cbn [fst snd] in Hm, He. subst ez.
  replace (0 - (d - 53)) with (53 - d) in Hm by lia.
  assert (Hdz : Z.pos (digits2_pos mz) = 53).
  { apply digits2_unique. rewrite Hm. change (53 - 1) with 52.
    assert (E52 : 2 ^ 52 = 2 ^ (d - 1) * 2 ^ (53 - d)).
    { rewrite <- Z.pow_add_r by lia. f_equal. lia. }
    assert (E53 : 2 ^ 53 = 2 ^ d * 2 ^ (53 - d)).
    { rewrite <- Z.pow_add_r by lia. f_equal. lia. }
    assert (0 < 2 ^ (53 - d)) by (apply Z.pow_pos_nonneg; lia).
    rewrite E52, E53. split; [nia|nia]. }
  assert (Hf2 : fexp prec emax (53 + (d - 53)) = d - 53).
  { unfold fexp, SpecFloat.emin, prec, emax. lia. }
  exists mz. split; [exact Hm|]. split.
  - unfold binary_round_aux, shr_fexp. cbn [Zdigits2]. rewrite Hdz, Hf2, Z.sub_diag.
    cbn [shr shr_record_of_loc shr_m loc_of_shr_record round_nearest_even Zdigits2].
    rewrite Hdz, Hf2, Z.sub_diag. cbn [shr shr_record_of_loc shr_m].
    destruct (d - 53 <=? emax - prec) eqn:L; [reflexivity|].
    apply Z.leb_gt in L. unfold emax, prec in L. lia.
  - unfold bounded, canonical_mantissa. rewrite Hdz, Hf2, Z.eqb_refl. cbn [andb].
    apply Z.leb_le. unfold emax, prec. lia.
Qed.

Lemma float_of_Z_le_40000 (s : bool) (n : Z) :
  - 2 ^ 53 < n <= 40000 -> PrimFloat.leb (float_of_Z s n) 40000 = true.
Proof.
  intros [Hlo Hhi]. unfold float_of_Z, binary_normalize. destruct n as [|p|p].
  - destruct s; reflexivity.
  - destruct (binary_round_exact false p ltac:(lia)) as (mz & Hmz & -> & Hb).
    rewrite FloatAxioms.leb_spec, Prim2SF_SF2Prim by exact Hb.
    change (Prim2SF 40000) with (S754_finite false 5497558138880000 (-37)).
    pose proof (digits2_bounds p) as [Dlo Dhi].
    set (d := Z.pos (digits2_pos p)) in *.
    assert (Hd : d <= 16).
    { destruct (Z.le_gt_cases d 16) as [L|G]; [exact L|].
      assert (2 ^ 16 <= 2 ^ (d - 1)) by (apply Z.pow_le_mono_r; lia). lia. }
    unfold SFleb, SFcompare.
    destruct (Z.compare_spec (d - 53) (-37)) as [E|L|G]; [|reflexivity|lia].
    assert (d = 16) by lia. replace (53 - d) with 37 in Hmz by lia.
    rewrite Pos.compare_cont_spec. cbn [Pos.switch_Eq].
    destruct (Pos.compare_spec mz 5497558138880000) as [Em|Lm|Gm]; try reflexivity.
    apply Pos2Z.pos_lt_pos in Gm. rewrite Hmz in Gm. change (2 ^ 37) with 137438953472 in Gm.
    clear - Gm Hhi. lia.
  - destruct (binary_round_exact true p ltac:(lia)) as (mz & Hmz & -> & Hb).
    rewrite FloatAxioms.leb_spec, Prim2SF_SF2Prim by exact Hb. reflexivity.
Qed.

Lemma Math_round_le_40000 (y : float) :
  PrimFloat.leb y 40000 = true -> PrimFloat.leb (Math_round y) 40000 = true.
Proof.
  intros Hy. unfold Math_round. pose proof (Prim2SF_valid y) as V.
  pose proof Hy as Hc. rewrite FloatAxioms.leb_spec in Hc.
  change (Prim2SF 40000) with (S754_finite false 5497558138880000 (-37)) in Hc.
  destruct (Prim2SF y) as [s|s| |s m e] eqn:E; [exact Hy|exact Hy|exact Hy|].
  destruct (0 <=? e) eqn:He; [exact Hy|]. apply Z.leb_gt in He.
  apply float_of_Z_le_40000.
  simpl in V. apply bounded_inv in V as (Hmin & Hm & _).
  set (k := - e). assert (Hk : 1 <= k) by (unfold k; lia).
  replace (1 - e) with (Z.succ k) by (unfold k; lia).
  rewrite Z.pow_succ_r by lia.
  assert (Hp : 2 ^ 1 <= 2 ^ k) by (apply Z.pow_le_mono_r; lia).
  change (2 ^ 1) with 2 in Hp. set (P := 2 ^ k) in *.
  split.
  - apply Z.lt_le_trans with (- 2 ^ 52); [reflexivity|].
    apply Z.div_le_lower_bound; [lia|].
    change (2 ^ 52) with 4503599627370496. change (2 ^ 53) with 9007199254740992 in Hm.
    destruct s; lia.
  - apply Z.lt_succ_r. apply Z.div_lt_upper_bound; [lia|].
    change (Z.succ 40000) with 40001.
    change (2 ^ 53) with 9007199254740992 in Hm.
    destruct s; [lia|].
    unfold SFleb, SFcompare in Hc.
    destruct (Z.compare_spec e (-37)) as [Ee|Le|Ge]; [| |discriminate].
    + assert (P = 2 ^ 37) by (unfold P, k; rewrite Ee; reflexivity).
      rewrite Pos.compare_cont_spec in Hc. cbn [Pos.switch_Eq] in Hc.
      destruct (Pos.compare_spec m 5497558138880000) as [Em|Lm|Gm]; try discriminate.
      * subst m. rewrite H. reflexivity.
      * apply Pos2Z.pos_lt_pos in Lm. rewrite H. change (2 ^ 37) with 137438953472.
        clear - Lm. lia.
    + assert (H38 : 2 ^ 38 <= P) by (apply Z.pow_le_mono_r; unfold k; lia).
      change (2 ^ 38) with 274877906944 in H38. lia.
Qed.

Lemma Math_min_capped (x : float) :
  isNaN (Math_min 40000 x) = true \/ PrimFloat.leb (Math_min 40000 x) 40000 = true.
Proof.
  unfold Math_min. change (isNaN 40000) with false. cbn [orb].
  destruct (isNaN x) eqn:Nx; [left; reflexivity|]. right.
  destruct (PrimFloat.ltb 40000 x) eqn:L1; [reflexivity|].
  destruct (PrimFloat.ltb x 40000) eqn:L2; [apply ltb_fle, L2|].
  change (get_sign 40000) with false. cbv iota.
  apply fle_total; [exact Nx | reflexivity | exact L1].
Qed.

Lemma Math_round_capped (y : float) : capped y -> capped (Math_round y).
Proof.
  intros [Hn|Hl].
  - left. unfold Math_round. rewrite isNaN_spec in Hn.
    destruct (Prim2SF y) eqn:E; try discriminate. rewrite isNaN_spec, E. reflexivity.
  - right. apply Math_round_le_40000, Hl.
Qed.

End Rounding.


Section Radius.
Context {H : Host}.

Lemma search_radius_capped (r : JsValue) : capped (search_radius r).
Proof. apply Math_round_capped, Math_min_capped. Qed.

Lemma placesNearby_radius (a r1 r2 : JsValue) :
  ToNumber r1 = ToNumber r2 -> placesNearby a r1 = placesNearby a r2.
Proof. intros E. unfold placesNearby. rewrite E. reflexivity. Qed.

(** A scan depends on its request through the address and the number
    [Number(radius || 10)] only: the facility name is not used, a missing or
    zero radius stands for 10 miles, and a radius given as text is read as a
    number. *)
Theorem scan_depends_only_on_address_and_radius
    (fs1 fs2 : list (string * JsValue)) (w : World) (st : St) :
  prop (JObj fs1) "address" = prop (JObj fs2) "address" ->
  ToNumber (js_or (prop (JObj fs1) "radius") (JNum 10)) =
    ToNumber (js_or (prop (JObj fs2) "radius") (JNum 10)) ->
  api_scan (JObj fs1) w st = api_scan (JObj fs2) w st.
Proof.
  intros Ha Hr. unfold api_scan, try_catch.
  rewrite !(bind_Ok _ _ _ _ _ _ (lift_get_prop (JObj fs1) _ w st eq_refl)).
  rewrite !(bind_Ok _ _ _ _ _ _ (lift_get_prop (JObj fs2) _ w st eq_refl)).
  rewrite Ha, (placesNearby_radius _ _ _ Hr). reflexivity.
Qed.

Lemma emits_same_log {A : Type} (Q : Request -> Prop) (m : M A) :
  (forall w st, log (snd (m w st)) = log st) -> emits Q m.
Proof. intros Hm w st. exists []. rewrite Hm, app_nil_r. split; [reflexivity | constructor]. Qed.

Lemma emits_bind {A B : Type} (Q : Request -> Prop) (m : M A) (k : A -> M B) :
  emits Q m -> (forall a, emits Q (k a)) -> emits Q (bind m k).
Proof.
  intros Hm Hk w st. destruct (Hm w st) as (l & Hl & Ql). unfold bind.
  destruct (m w st) as [[a|e] st1]; cbn [snd] in *.
  - destruct (Hk a w st1) as (l' & Hl' & Ql'). exists (l ++ l').
    rewrite Hl', Hl, app_assoc. split; [reflexivity | apply Forall_app; auto].
  - exists l. auto.
Qed.

Lemma emits_bind_lift {A B : Type} (Q : Request -> Prop) (o : Outcome A) (k : A -> M B) :
  (forall a, o = Ok a -> emits Q (k a)) -> emits Q (bind (lift o) k).
Proof.
  intros Hk w st. unfold bind, lift. destruct o as [a|e]; [apply (Hk a eq_refl)|].
  exists []. rewrite app_nil_r. split; [reflexivity | constructor].
Qed.

Lemma emits_fetch_json (Q : Request -> Prop) (r : Request) : Q r -> emits Q (fetch_json r).
Proof. intros Hr w st. exists [r]. split; [reflexivity | repeat constructor; exact Hr]. Qed.

(** The cap on the search radius.  Every nearby search that
    [placesNearby] issues carries the radius
    [Math.round(Math.min(40000, Number(radiusMiles) * 1609.34))], which is at
    most 40000 metres, or NaN when the radius is not a number.  10 miles are
    16093 metres, 25 miles are cut to 40000. *)
Theorem nearby_radius_capped (a r : JsValue) (w : World) (st : St) :
  (exists l : list Request,
     log (snd (placesNearby a r w st)) = log st ++ l /\
     Forall (fun q => match q with
                      | ReqNearby _ _ rad => rad = search_radius r /\ capped rad
                      | _ => True
                      end) l) /\
  search_radius (JNum 10) = 16093%float /\
  search_radius (JStr "25") = 40000%float /\
  search_radius (JNum (-5)) = (-8047)%float.
Proof.
  split; [|repeat split; vm_compute; reflexivity].
  pose proof (search_radius_capped r) as Hc.
  revert w st.
  change (emits (fun q => match q with
                          | ReqNearby _ _ rad => rad = search_radius r /\ capped rad
                          | _ => True
                          end) (placesNearby a r)).
  unfold placesNearby.
  apply emits_bind.
  { unfold resolveLatLng. apply emits_bind; [apply emits_same_log; reflexivity|]. intros s.
    destruct (regex_test coordinate_re s); [apply emits_same_log; reflexivity|].
    apply emits_bind; [apply emits_same_log; reflexivity|]. intros address.
    apply emits_bind; [apply emits_fetch_json; exact I|].
    intros geoRes. apply emits_same_log. reflexivity. }
  intros latlng. apply emits_bind; [apply emits_same_log; reflexivity|]. intros latlng'.
  cbv zeta. apply emits_bind_lift. intros miles Hm.
  assert (Hrad : Math_round (Math_min 40000 (miles * 1609.34)) = search_radius r).
  { unfold search_radius, number_of. rewrite Hm. reflexivity. }
  rewrite Hrad.
  apply emits_bind; [apply emits_same_log; reflexivity|]. intros slat.
  apply emits_bind; [apply emits_same_log; reflexivity|]. intros slng.
  apply emits_bind.
  { apply emits_same_log. intros w st. apply getCache_log. }
  intros cached. destruct (truthy cached); [apply emits_same_log; reflexivity|].
  apply emits_bind; [apply emits_fetch_json; split; [reflexivity | exact Hc]|].
  intros res. apply emits_bind; [apply emits_same_log; reflexivity|].
  intros results. destruct (negb (truthy results)); [apply emits_same_log; reflexivity|].
  apply emits_bind; [apply emits_same_log; reflexivity|]. intros places.
  apply emits_bind; [apply emits_same_log; reflexivity|]. intros _.
  apply emits_same_log. reflexivity.
Qed.

End Radius.


(** ** The frontend *)

Section Frontend.
Context {H : Host}.

(** [findCompetitors] with an empty facility name or address sends no
    request: it shows 'Provide facility name and address/lat,lng', having
    cleared the competitor list and the suggestion. *)
Theorem findCompetitors_validates (base : string) (server : Server) (s : AppState) :
  facilityName s = "" \/ address s = "" ->
  findCompetitors base server s =
    ({| facilityName := facilityName s; address := address s; radius := radius s;
        competitors := JArr []; suggestion := JNull; loading := loading s;
        error := JStr "Provide facility name and address/lat,lng" |}, []).
Proof.
  intros Hb. unfold findCompetitors. cbn [setError setCompetitors setSuggestion facilityName address].
  assert (E : String.eqb (facilityName s) "" || String.eqb (address s) "" = true).
  { destruct Hb as [-> | ->]; [reflexivity | apply orb_true_r]. }
  rewrite E. reflexivity.
Qed.

Lemma api_suggest_answer (req_body : JsValue) :
  status (api_suggest req_body) = 200%Z \/
  status (api_suggest req_body) = 400%Z \/ status (api_suggest req_body) = 500%Z.
Proof.
  unfold api_suggest.
  destruct (get_prop req_body "facilityName"); [|right; right; reflexivity].
  destruct (get_prop req_body "competitors") as [c|]; [|right; right; reflexivity].
  destruct (suggest_prices c) as [prices|]; [|right; right; reflexivity].
  destruct (median prices); [left | right; left]; reflexivity.
Qed.

Lemma scan_body_address (s : AppState) :
  exists fs, scan_body s = JObj fs /\ prop (JObj fs) "address" = JStr (address s).
Proof.
  unfold scan_body. cbn [to_json]. destruct (radius s); eexists; split; reflexivity.
Qed.

(** With an address in the body the answer is the list or a failure. *)
Lemma api_scan_answer_with_address (fs : list (string * JsValue)) (w : World) (st : St) :
  truthy (prop (JObj fs) "address") = true ->
  exists (r : Response) (st' : St),
    api_scan (JObj fs) w st = (Ok r, st') /\
    ((status r = 200%Z /\ exists results, body r = JObj [("competitors", JArr results)]) \/
     (status r = 500%Z /\ exists msg, body r = JObj [("error", JStr msg)])).
Proof.
  intros T. rewrite api_scan_run by exact T.
  destruct (placesNearby _ _ w st) as [[places|e] st1].
  2: { eexists _, _. split; [reflexivity|]. right. split; [reflexivity | eauto]. }
  destruct (slice20 places) as [cands|e].
  2: { eexists _, _. split; [reflexivity|]. right. split; [reflexivity | eauto]. }
  destruct (mapM scan_candidate cands w st1) as [[results|e] st2].
  - eexists _, _. split; [reflexivity|]. left. split; [reflexivity|].
    cbn [res_json body to_json]. eauto.
  - eexists _, _. split; [reflexivity|]. right. split; [reflexivity | eauto].
Qed.

(** The frontend against the backend, for a scan.  With a facility name
    and an address filled in, [/api/scan] answers with status 200 or 500, and
    when that answer reaches [findCompetitors] it leaves [loading] false and
    the suggestion cleared, having sent the one request; on 200 the competitor
    list is the one of the answer and no error is shown, on 500 the list is
    empty and the error shown is 'scan failed', whatever the message of the
    backend. *)
Theorem scan_round_trip (s : AppState) (w : World) (st : St) :
  facilityName s <> "" -> address s <> "" ->
  exists (r : Response) (st' : St),
    api_scan (scan_body s) w st = (Ok r, st') /\
    forall server : Server,
      server "/api/scan" (scan_body s) = served r ->
      let s' := fst (findCompetitors (API_BASE None) server s) in
      loading s' = false /\ suggestion s' = JNull /\
      snd (findCompetitors (API_BASE None) server s) = [("/api/scan", scan_body s)] /\
      ((status r = 200%Z /\ error s' = JNull /\
        body r = JObj [("competitors", competitors s')]) \/
       (status r = 500%Z /\ error s' = JStr "scan failed" /\ competitors s' = JArr [])).
Proof.
  intros Hf Ha.
  destruct (scan_body_address s) as (fs & Hfs & Hadr).
  destruct (api_scan_answer_with_address fs w st) as (r & st' & E & Hr).
  { rewrite Hadr. cbn [truthy]. apply String.eqb_neq in Ha. rewrite Ha. reflexivity. }
  rewrite <- Hfs in E.
  exists r, st'. split; [exact E|]. intros server Hs. cbv zeta.
  unfold findCompetitors. cbn [setError setCompetitors setSuggestion facilityName address].
  apply String.eqb_neq in Hf, Ha. rewrite Hf, Ha. cbn [orb]. cbv zeta.
  change (API_BASE None +:+ "/scan") with "/api/scan".
  change (scan_body (setLoading true _)) with (scan_body s).
  rewrite Hs. unfold served. cbn [await obind res_ok http_status http_json].
  destruct Hr as [(S200 & results & Hb)|(S500 & msg & Hb)].
  - rewrite S200, Hb. cbn. repeat split. left. repeat split.
  - rewrite S500. cbn. repeat split. right. repeat split.
Qed.

(** The frontend against the backend, for a suggestion.  When the
    answer of [/api/suggest] reaches [suggestPrice], it leaves [loading]
    false and the competitor list untouched, having sent the one request; on
    200 the suggestion is the body of the answer, otherwise the error shown is
    'suggest failed' and the suggestion shown before stays. *)
Theorem suggest_round_trip (s : AppState) (server : Server) :
  let r := api_suggest (suggest_body s) in
  server "/api/suggest" (suggest_body s) = served r ->
  let s' := fst (suggestPrice (API_BASE None) server s) in
  loading s' = false /\ competitors s' = competitors s /\
  snd (suggestPrice (API_BASE None) server s) = [("/api/suggest", suggest_body s)] /\
  ((status r = 200%Z /\ error s' = JNull /\ suggestion s' = body r) \/
   (status r <> 200%Z /\ error s' = JStr "suggest failed" /\ suggestion s' = suggestion s)).
Proof.
  cbv zeta. intros Hs. unfold suggestPrice. cbv zeta.
  change (API_BASE None +:+ "/suggest") with "/api/suggest".
  change (suggest_body (setError JNull (setLoading true s))) with (suggest_body s).
  rewrite Hs. unfold served. cbn [await obind res_ok http_status http_json].
  destruct (api_suggest_answer (suggest_body s)) as [E|[E|E]]; rewrite E; cbn.
  - repeat split. left. repeat split.
  - repeat split. right. repeat split. discriminate.
  - repeat split. right. repeat split. discriminate.
Qed.

End Frontend.


(** ** The further properties at concrete inputs *)

(** Two keys in a cache that holds one of them. *)
Lemma cache_keys_independent_witness :
  let st1 := snd (setCache "a" (JStr "v") 60 one_site_down fresh_state) in
  fst (getCache "a" one_site_down (snd (setCache "b" (JStr "w") 1 one_site_down st1))) =
    Ok (JStr "v") /\
  getCache "c" one_site_down st1 = (Ok JNull, st1).
Proof.
  intros st1.
  destruct (cache_keys_independent one_site_down st1 "b" "a" (JStr "w") 1 ltac:(discriminate))
    as (_ & _ & _ & Hset & _).
  destruct (cache_keys_independent one_site_down st1 "c" "a" (JStr "w") 1 ltac:(discriminate))
    as (Hmiss & _).
  split; [rewrite Hset; vm_compute; reflexivity | apply Hmiss; vm_compute; reflexivity].
Defined.

(** The search of the examples, repeated six hours later. *)
Lemma placesNearby_repeat_from_cache_witness :
  let st1 := snd (@placesNearby stub_host (JStr "35.1495,-90.0490") (JNum 10)
                    one_site_down fresh_state) in
  log (snd (@placesNearby stub_host (JStr "35.1495,-90.0490") (JNum 10) one_site_down
              (at_time (now st1 + 21600000) st1))) = log st1.
Proof.
  intros st1.
  rewrite (@placesNearby_repeat_from_cache stub_host (JStr "35.1495,-90.0490") (JNum 10)
             "35.1495,-90.0490" one_site_down fresh_state st1
             (match fst (@placesNearby stub_host (JStr "35.1495,-90.0490") (JNum 10)
                           one_site_down fresh_state) with
              | Ok v => v
              | Throw _ => JNull
              end)
             (now st1 + 21600000)).
  - reflexivity.
  - reflexivity.
  - vm_compute. reflexivity.
  - vm_compute. reflexivity.
  - vm_compute. discriminate.
  - vm_compute. discriminate.
Defined.

(** The details of place a, looked up again 24 hours later. *)
Lemma placeDetails_caching_witness :
  let st1 := snd (@placeDetails stub_host (JStr "a") one_site_down fresh_state) in
  @placeDetails stub_host (JStr "a") one_site_down (at_time (now st1 + 86400000) st1) =
    (Ok (JObj [("website", JStr "https://a.example")]), at_time (now st1 + 86400000) st1).
Proof.
  intros st1.
  destruct (@placeDetails_caching stub_host (JStr "a") one_site_down fresh_state st1
              (JObj [("website", JStr "https://a.example")])) as (Hhit & _).
  - vm_compute. reflexivity.
  - vm_compute. discriminate.
  - apply Hhit; [reflexivity | vm_compute; discriminate].
Defined.

(** The site of B, scraped again: the result was stored 50 ms before the
    scrape completed, so that the repeat is answered from the cache until 12
    hours less 50 ms after it, and no longer at 12 hours. *)
Lemma scrapeSiteForPrice_repeat_from_cache_witness :
  let st1 := snd (@scrapeSiteForPrice stub_host (JStr "https://b.example")
                    one_site_down fresh_state) in
  @scrapeSiteForPrice stub_host (JStr "https://b.example") one_site_down
     (at_time (now st1 + 43199950) st1) =
    (Ok (JObj [("price", JNum 75); ("unit", JStr "5x10");
               ("source", JStr "https://b.example")]), at_time (now st1 + 43199950) st1) /\
  fst (getCache "scrape:https://b.example" one_site_down (at_time (now st1 + 43200000) st1))
    = Ok JNull.
Proof.
  intros st1.
  destruct (@scrapeSiteForPrice_repeat_from_cache stub_host (JStr "https://b.example")
              one_site_down fresh_state st1
              (JObj [("price", JNum 75); ("unit", JStr "5x10");
                     ("source", JStr "https://b.example")]))
    as (u & Hu & _ & Hhit & Hgone).
  - vm_compute. reflexivity.
  - vm_compute. discriminate.
  - injection Hu as <-. split.
    + apply Hhit. vm_compute. discriminate.
    + apply Hgone. vm_compute. reflexivity.
Defined.

(** A scan request with an empty address. *)
Lemma api_scan_address_required_witness :
  @api_scan stub_host (JObj [("facilityName", JStr "My Storage"); ("address", JStr "")])
     one_site_down fresh_state =
    (Ok {| status := 400; body := JObj [("error", JStr "address required")] |}, fresh_state).
Proof. apply (@api_scan_address_required stub_host). reflexivity. Defined.

(** A candidate whose details the provider does not answer. *)
Lemma scan_entry_error_iff_details_failed_witness :
  @scan_candidate stub_host (candidate "c") one_site_down fresh_state =
    (Ok (JObj [("name", JStr "A Storage"); ("address", JStr "1 Main St");
               ("error", JStr "unreachable")]),
     after_request one_site_down fresh_state (ReqDetails "c")).
Proof.
  destruct (@scan_entry_error_iff_details_failed stub_host (candidate "c") one_site_down
              fresh_state eq_refl) as (Herr & _).
  apply (Herr (Rejected "unreachable")). vm_compute. reflexivity.
Defined.

(** A candidate whose details hold no website. *)
Lemma scan_entry_without_website_witness :
  fst (@scan_candidate stub_host (candidate "c") no_website fresh_state) =
    Ok (JObj [("name", JStr "A Storage"); ("address", JStr "9 Oak Ave");
              ("place_id", JStr "c"); ("website", JNull); ("distance", JNull);
              ("unit", JNull); ("price", JNull); ("source", JStr "places");
              ("availability", JNull)]).
Proof.
  rewrite (@scan_entry_without_website stub_host (candidate "c")
             (JObj [("formatted_address", JStr "9 Oak Ave")]) no_website fresh_state
             (snd (@placeDetails stub_host (JStr "c") no_website fresh_state))).
  - reflexivity.
  - reflexivity.
  - vm_compute. reflexivity.
  - right. reflexivity.
Defined.

(** The scan of the two candidates of [one_site_down]. *)
Lemma scan_response_fields_witness :
  exists results : list JsValue,
    fst (@api_scan stub_host scan_request one_site_down fresh_state) =
      Ok {| status := 200;
            body := JObj [("competitors", JArr (List.map to_json results))] |} /\
    Forall entry_typed results.
Proof.
  destruct (@scan_response_fields stub_host scan_request one_site_down fresh_state
              (snd (@api_scan stub_host scan_request one_site_down fresh_state))
              (match fst (@api_scan stub_host scan_request one_site_down fresh_state) with
               | Ok r => r
               | Throw _ => {| status := 0; body := JNull |}
               end))
    as (results & Hb & Ht & _).
  - apply scrape_wf_fresh_state.
  - vm_compute. reflexivity.
  - vm_compute. reflexivity.
  - exists results. split; [|exact Ht].
    rewrite <- Hb. vm_compute. reflexivity.
Defined.

(** Two requests with the price 100, under different names. *)
Lemma suggest_depends_only_on_prices_witness :
  @api_suggest stub_host (suggest_request [competitor (JNum 100)]) =
  @api_suggest stub_host
    (JObj [("facilityName", JStr "Other"); ("competitors", JArr [JObj [("price", JNum 100)]])]).
Proof.
  apply (@suggest_depends_only_on_prices stub_host
           [("facilityName", JStr "My Storage"); ("competitors", JArr [competitor (JNum 100)])]
           [("facilityName", JStr "Other"); ("competitors", JArr [JObj [("price", JNum 100)]])]
           [competitor (JNum 100)] [JObj [("price", JNum 100)]]).
  - reflexivity.
  - reflexivity.
  - repeat constructor.
Defined.

(** The list [3, 1, 2] and its median 2. *)
Lemma median_splits_the_list_witness :
  In 2%float [3%float; 1%float; 2%float] /\
  (3 < 2 * length (List.filter (fun y => PrimFloat.leb y 2) [3%float; 1%float; 2%float]))%nat.
Proof.
  destruct (median_splits_the_list [3%float; 1%float; 2%float] 2%float) as (Hin & Hle & _).
  - repeat constructor.
  - reflexivity.
  - vm_compute. reflexivity.
  - split; [exact Hin | exact Hle].
Defined.

(** The radius as the text of the slider, and no radius at all. *)
Lemma scan_depends_only_on_address_and_radius_witness :
  @api_scan stub_host
     (JObj [("facilityName", JStr "My Storage"); ("address", JStr "35.1495,-90.0490");
            ("radius", JStr "10")]) one_site_down fresh_state =
  @api_scan stub_host
     (JObj [("address", JStr "35.1495,-90.0490")]) one_site_down fresh_state.
Proof.
  apply (@scan_depends_only_on_address_and_radius stub_host).
  - reflexivity.
  - vm_compute. reflexivity.
Defined.

(** The form as it is when the component is mounted. *)
Lemma findCompetitors_validates_witness :
  snd (findCompetitors "/api" (@backend stub_host) initial_state) = [] /\
  error (fst (findCompetitors "/api" (@backend stub_host) initial_state)) =
    JStr "Provide facility name and address/lat,lng".
Proof.
  rewrite (findCompetitors_validates "/api" (@backend stub_host) initial_state).
  - split; reflexivity.
  - left. reflexivity.
Defined.

(** The filled form, sent to the backend of the examples. *)
Lemma scan_round_trip_witness :
  exists (r : Response) (st' : St),
    @api_scan stub_host (scan_body filled_form) one_site_down fresh_state = (Ok r, st') /\
    loading (fst (findCompetitors (API_BASE None) (@backend stub_host) filled_form)) = false.
Proof.
  destruct (@scan_round_trip stub_host filled_form one_site_down fresh_state)
    as (r & st' & E & Hs).
  - discriminate.
  - discriminate.
  - exists r, st'. split; [exact E|].
    destruct (Hs (@backend stub_host)) as (Hl & _); [|exact Hl].
    unfold backend. cbn [String.eqb Ascii.eqb Bool.eqb]. rewrite E. reflexivity.
Defined.

(** A suggestion asked for before any scan: the competitor list is
    empty and the backend answers 400. *)
Lemma suggest_round_trip_witness :
  error (fst (suggestPrice (API_BASE None) (@backend stub_host) filled_form)) =
    JStr "suggest failed".
Proof.
  destruct (@suggest_round_trip stub_host filled_form (@backend stub_host) eq_refl)
    as (_ & _ & _ & [(E & _)|(_ & E & _)]).
  - vm_compute in E. discriminate.
  - exact E.
Defined.

(** A rent of 1200 dollars is read as 120. *)
Lemma price_without_separator_is_cut_witness :
  extract_price ("Rent: " +:+ "$1200 per month") = JNum (StringToNumber "120") /\
  StringToNumber "120" = 120%float.
Proof.
  split; [|vm_compute; reflexivity].
  apply (price_without_separator_is_cut "Rent: " " per month" "1" "2" "0" "0").
  - repeat constructor.
  - reflexivity.
  - reflexivity.
  - reflexivity.
  - reflexivity.
Defined.

(** The cache of a process that has just started holds nothing. *)
Lemma scan_caches_nothing_falsy_witness :
  cache_truthy (snd (@api_scan stub_host scan_request one_site_down fresh_state)).
Proof.
  apply (@scan_caches_nothing_falsy stub_host scan_request one_site_down fresh_state).
  intros k e E. cbn in E. rewrite lookup_empty in E. discriminate.
Defined.

(** Two competitors, in either order. *)
Lemma suggestion_ignores_order_witness :
  status (@api_suggest stub_host
            (suggest_request [competitor (JNum 100); competitor (JNum 120)])) =
  status (@api_suggest stub_host
            (suggest_request [competitor (JNum 120); competitor (JNum 100)])).
Proof.
  apply (@suggestion_ignores_order stub_host
           [("facilityName", JStr "My Storage");
            ("competitors", JArr [competitor (JNum 100); competitor (JNum 120)])]
           [("facilityName", JStr "My Storage");
            ("competitors", JArr [competitor (JNum 120); competitor (JNum 100)])]
           [competitor (JNum 100); competitor (JNum 120)]
           [competitor (JNum 120); competitor (JNum 100)]).
  - reflexivity.
  - reflexivity.
  - repeat constructor.
  - apply perm_swap.
Defined.
